(** * The LINE image-labelling pipeline (package [function])

    A shallow embedding of the three Cloud Functions [receive], [process]
    and [send] and of their helpers [returnError], [getSecret],
    [downloadImage], [analyzeImage] and [sendReply], together with the part
    of the Go standard library they rest on: strings as byte sequences,
    [unicode/utf8], [unicode/utf16], [strings.Join], the encoding of
    strings and structs by [encoding/json] and its decoder.

    Go strings and byte slices are [string]s: sequences of 8-bit [ascii]
    values.  Runes and byte values are numbers in [N].  A function that
    returns [(T, error)] returns an [outcome]; a function with effects is a
    state transformer on a [world] that records the effects in order.

    The clients of the cloud services, the HTTP client and the environment
    are parameters (a record of [services]).  The [context.Context]
    arguments, the deferred [Close] calls and the time stamps of the log are
    left out: no function reads them. *)

From Stdlib Require Import String Ascii List Bool NArith Arith Lia.
Import ListNotations.
Open Scope string_scope.

Set Warnings "-register-all".

(** ** Bytes *)

Definition byte_val (c : ascii) : N := N_of_ascii c.
Definition byte_of (n : N) : ascii := ascii_of_N (n mod 256).

Definition dquote : ascii := ascii_of_N 34.
Definition backslash : ascii := ascii_of_N 92.

(** ** unicode/utf8 *)

Module utf8.

Local Open Scope N_scope.

Definition RuneError : N := 65533.
Definition RuneSelf : N := 128.
Definition MaxRune : N := 1114111.

Definition locb : N := 128.
Definition hicb : N := 191.

(** The [first] table: information about the first byte of an encoding.
    [as_] is ASCII, [xx] is an invalid first byte; for the others the low
    three bits give the size and the high four bits the index of the
    range accepted for the second byte. *)
Definition xx : N := 241.
Definition as_ : N := 240.
Definition s1 : N := 2.
Definition s2 : N := 19.
Definition s3 : N := 3.
Definition s4 : N := 35.
Definition s5 : N := 52.
Definition s6 : N := 4.
Definition s7 : N := 68.

Definition first (b : N) : N :=
  if b <? 128 then as_
  else if b <? 194 then xx
  else if b <? 224 then s1
  else if b =? 224 then s2
  else if b <? 237 then s3
  else if b =? 237 then s4
  else if b <? 240 then s3
  else if b =? 240 then s5
  else if b <? 244 then s6
  else if b =? 244 then s7
  else xx.

(** [acceptRanges]: the bounds of the second byte. *)
Definition acceptRanges (i : N) : N * N :=
  if i =? 0 then (locb, hicb)
  else if i =? 1 then (160, hicb)
  else if i =? 2 then (locb, 159)
  else if i =? 3 then (144, hicb)
  else if i =? 4 then (locb, 143)
  else (0, 0).

Definition maskx : N := 63.
Definition mask2 : N := 31.
Definition mask3 : N := 15.
Definition mask4 : N := 7.

Definition out_of (lo hi b : N) : bool := (b <? lo) || (hi <? b).

(** [utf8.DecodeRune] (and [DecodeRuneInString]): the first rune of [p]
    and its width in bytes; [(RuneError, 0)] on the empty string and
    [(RuneError, 1)] on an encoding that is not valid. *)
Definition DecodeRune (p : string) : N * nat :=
  match p with
  | EmptyString => (RuneError, 0%nat)
  | String c0 t0 =>
    let p0 := byte_val c0 in
    let x := first p0 in
    if as_ <=? x then
      (if x =? xx then RuneError else p0, 1%nat)
    else
      let sz := N.land x 7 in
      let accept := acceptRanges (N.shiftr x 4) in
      match t0 with
      | EmptyString => (RuneError, 1%nat)
      | String c1 t1 =>
        let b1 := byte_val c1 in
        if out_of (fst accept) (snd accept) b1 then (RuneError, 1%nat)
        else if sz <=? 2 then
          (N.lor (N.shiftl (N.land p0 mask2) 6) (N.land b1 maskx), 2%nat)
        else
          match t1 with
          | EmptyString => (RuneError, 1%nat)
          | String c2 t2 =>
            let b2 := byte_val c2 in
            if out_of locb hicb b2 then (RuneError, 1%nat)
            else if sz <=? 3 then
              (N.lor (N.lor (N.shiftl (N.land p0 mask3) 12)
                            (N.shiftl (N.land b1 maskx) 6))
                     (N.land b2 maskx), 3%nat)
            else
              match t2 with
              | EmptyString => (RuneError, 1%nat)
              | String c3 _ =>
                let b3 := byte_val c3 in
                if out_of locb hicb b3 then (RuneError, 1%nat)
                else
                  (N.lor (N.lor (N.lor (N.shiftl (N.land p0 mask4) 18)
                                       (N.shiftl (N.land b1 maskx) 12))
                                (N.shiftl (N.land b2 maskx) 6))
                         (N.land b3 maskx), 4%nat)
              end
          end
      end
  end.

Definition enc3 (r : N) : string :=
  String (byte_of (N.lor 224 (N.shiftr r 12)))
    (String (byte_of (N.lor 128 (N.land (N.shiftr r 6) maskx)))
      (String (byte_of (N.lor 128 (N.land r maskx))) EmptyString)).

(** [utf8.EncodeRune]: the bytes written for rune [r]; a surrogate or a
    value above [MaxRune] is written as [RuneError]. *)
Definition EncodeRune (r : N) : string :=
  if r <=? 127 then String (byte_of r) EmptyString
   else if r <=? 2047 then
     String (byte_of (N.lor 192 (N.shiftr r 6)))
       (String (byte_of (N.lor 128 (N.land r maskx))) EmptyString)
   else if (MaxRune <? r) || ((55296 <=? r) && (r <=? 57343)) then
     enc3 RuneError
   else if r <=? 65535 then enc3 r
   else
     String (byte_of (N.lor 240 (N.shiftr r 18)))
       (String (byte_of (N.lor 128 (N.land (N.shiftr r 12) maskx)))
         (String (byte_of (N.lor 128 (N.land (N.shiftr r 6) maskx)))
           (String (byte_of (N.lor 128 (N.land r maskx))) EmptyString))).

(** [utf8.ValidString]: every rune of [s] decodes without error.  The
    loop advances by the width of the rune just decoded, so it is
    written by recursion on the bytes that remain. *)
Fixpoint ValidString (s : string) : bool :=
  match s with
  | EmptyString => true
  | String c0 t0 =>
    if byte_val c0 <? RuneSelf then ValidString t0
    else
      match DecodeRune s with
      | (_, 2%nat) =>
        match t0 with String _ t1 => ValidString t1 | _ => false end
      | (_, 3%nat) =>
        match t0 with
        | String _ (String _ t2) => ValidString t2
        | _ => false
        end
      | (_, 4%nat) =>
        match t0 with
        | String _ (String _ (String _ t3)) => ValidString t3
        | _ => false
        end
      | _ => false
      end
  end.

End utf8.

(** ** unicode/utf16 *)

Module utf16.

Local Open Scope N_scope.

Definition surr1 : N := 55296.
Definition surr2 : N := 56320.
Definition surr3 : N := 57344.
Definition surrSelf : N := 65536.

Definition IsSurrogate (r : N) : bool := (surr1 <=? r) && (r <? surr3).

(** [utf16.DecodeRune]: the rune of a surrogate pair, the replacement
    character [U+FFFD] when the pair is not valid. *)
Definition DecodeRune (r1 r2 : N) : N :=
  if (surr1 <=? r1) && (r1 <? surr2) && (surr2 <=? r2) && (r2 <? surr3)
  then N.lor (N.shiftl (r1 - surr1) 10) (r2 - surr2) + surrSelf
  else utf8.RuneError.

End utf16.

(** ** Go slices

    A slice is [nil] or points to a sequence of elements; the two are told
    apart by [encoding/json] ([null] against [[]]) and by the spec. *)

Inductive slice (A : Type) : Type :=
| nil_slice
| mk_slice (elems : list A).
Arguments nil_slice {A}.
Arguments mk_slice {A} elems.

(** The elements a [range] loop visits. *)
Definition elems_of {A} (s : slice A) : list A :=
  match s with
  | nil_slice => []
  | mk_slice l => l
  end.

Definition is_nil {A} (s : slice A) : bool :=
  match s with
  | nil_slice => true
  | mk_slice _ => false
  end.

(** The builtin [append(s, x)]. *)
Definition append {A} (s : slice A) (x : A) : slice A :=
  mk_slice (elems_of s ++ [x]).

(** ** strings.Join *)

Module strings.

(** The loop of [strings.Join] over the elements after the first. *)
Fixpoint join_rest (sep : string) (rest : list string) : string :=
  match rest with
  | [] => EmptyString
  | s :: rest' => sep ++ s ++ join_rest sep rest'
  end.

(** [strings.Join(elems, sep)]: no element gives the empty string, one
    element gives that element, otherwise the first element followed by
    [sep] and an element for each of the others. *)
Definition Join (elems : slice string) (sep : string) : string :=
  match elems_of elems with
  | [] => EmptyString
  | [e] => e
  | e :: rest => e ++ join_rest sep rest
  end.

End strings.

(** ** encoding/json

    [json.Marshal] for the struct types of the package and [json.Unmarshal]
    into them.  The decoder is in two steps, as in the library: the scanner
    checks that the whole input is one JSON value ([checkValid]), here by
    building the value; then the value is stored into the destination
    struct, matching object keys with field names. *)

Module json.

Local Open Scope N_scope.

(** *** Encoding of strings ([encodeState.string], HTML escaping on) *)

Definition hex_digit (n : N) : ascii :=
  if n <? 10 then byte_of (48 + n) else byte_of (87 + n).

(** [htmlSafeSet]: the ASCII bytes written as they are. *)
Definition htmlSafeSet (b : N) : bool :=
  (32 <=? b) && (b <? 128) &&
  negb ((b =? 34) || (b =? 38) || (b =? 60) || (b =? 62) || (b =? 92)).

(** The escape of an ASCII byte outside [htmlSafeSet]. *)
Definition escape_byte (c : ascii) : string :=
  let b := byte_val c in
  String backslash
    (if (b =? 92) || (b =? 34) then String c EmptyString
     else if b =? 10 then "n"%string
     else if b =? 13 then "r"%string
     else if b =? 9 then "t"%string
     else String "u" (String "0" (String "0"
            (String (hex_digit (N.shiftr b 4))
               (String (hex_digit (N.land b 15)) EmptyString))))).

(** The texts of a backslash followed by [ufffd] and by [u202]. *)
Definition escaped_ufffd : string := String backslash "ufffd".
Definition escaped_u202 : string := String backslash "u202".

(** The characters between the quotes.  The loop of the library advances
    by one byte on ASCII and on a byte that is not valid UTF-8, and by
    the width of the rune otherwise. *)
Fixpoint string_body (s : string) : string :=
  match s with
  | EmptyString => EmptyString
  | String c0 t0 =>
    let b := byte_val c0 in
    if b <? utf8.RuneSelf then
      ((if htmlSafeSet b then String c0 EmptyString else escape_byte c0)
         ++ string_body t0)%string
    else
      match utf8.DecodeRune s, t0 with
      | (_, 2%nat), String c1 t1 =>
        String c0 (String c1 (string_body t1))
      | (c, 3%nat), String c1 (String c2 t2) =>
        if (c =? 8232) || (c =? 8233) then
          (escaped_u202 ++ String (hex_digit (N.land c 15)) (string_body t2))%string
        else String c0 (String c1 (String c2 (string_body t2)))
      | (_, 4%nat), String c1 (String c2 (String c3 t3)) =>
        String c0 (String c1 (String c2 (String c3 (string_body t3))))
      | _, _ => (escaped_ufffd ++ string_body t0)%string
      end
  end.

Definition encode_string (s : string) : string :=
  String dquote (string_body s ++ String dquote EmptyString)%string.

(** *** JSON values and the scanner *)

Inductive value : Type :=
| Null
| Bool (b : bool)
| Number (literal : string)
| Str (s : string)
| Array (vs : list value)
| Object (members : list (string * value)).

Definition is_space (c : ascii) : bool :=
  let b := byte_val c in (b =? 32) || (b =? 9) || (b =? 13) || (b =? 10).

Fixpoint skip_space (s : string) : string :=
  match s with
  | String c t => if is_space c then skip_space t else s
  | EmptyString => s
  end.

Definition hex_val (c : ascii) : option N :=
  let b := byte_val c in
  if (48 <=? b) && (b <=? 57) then Some (b - 48)
  else if (97 <=? b) && (b <=? 102) then Some (b - 87)
  else if (65 <=? b) && (b <=? 70) then Some (b - 55)
  else None.

(** [getu4] on the four characters after a backslash and [u]. *)
Definition getu4 (h1 h2 h3 h4 : ascii) : option N :=
  match hex_val h1, hex_val h2, hex_val h3, hex_val h4 with
  | Some a, Some b, Some c, Some d => Some (((a * 16 + b) * 16 + c) * 16 + d)
  | _, _, _, _ => None
  end.

(** The second half of a surrogate pair, when the input goes on with a
    backslash, [u] and four hexadecimal digits. *)
Definition next_u4 (s : string) : option (N * string) :=
  match s with
  | String e0 (String e1 (String g1 (String g2 (String g3 (String g4 t))))) =>
    if (byte_val e0 =? 92) && (byte_val e1 =? 117) then
      match getu4 g1 g2 g3 g4 with
      | Some r => Some (r, t)
      | None => None
      end
    else None
  | _ => None
  end.

(** The character a one-letter escape stands for. *)
Definition simple_escape (e : ascii) : option ascii :=
  let b := byte_val e in
  if (b =? 34) || (b =? 92) || (b =? 47) then Some e
  else if b =? 98 then Some (byte_of 8)
  else if b =? 102 then Some (byte_of 12)
  else if b =? 110 then Some (byte_of 10)
  else if b =? 114 then Some (byte_of 13)
  else if b =? 116 then Some (byte_of 9)
  else None.

Definition prepend (p : string) (r : option (string * string))
  : option (string * string) :=
  match r with
  | Some (s, rest) => Some ((p ++ s)%string, rest)
  | None => None
  end.

(** A string literal after its opening quote: the scanner states
    [stateInString], [stateInStringEsc] and [stateInStringEscU...]
    together with [unquoteBytes].  The result is the string denoted and
    the input after the closing quote.  Bytes that are not valid UTF-8
    are accepted and replaced by [U+FFFD], a surrogate half that is not
    part of a pair likewise. *)
Fixpoint scan_string (s : string) : option (string * string) :=
  match s with
  | EmptyString => None
  | String c0 t0 =>
    let b := byte_val c0 in
    if b =? 34 then Some (EmptyString, t0)
    else if b =? 92 then
      match t0 with
      | EmptyString => None
      | String e t1 =>
        match simple_escape e with
        | Some ch => prepend (String ch EmptyString) (scan_string t1)
        | None =>
          if byte_val e =? 117 then
            match t1 with
            | String h1 (String h2 (String h3 (String h4 t5))) =>
              match getu4 h1 h2 h3 h4 with
              | None => None
              | Some rr =>
                if utf16.IsSurrogate rr then
                  match t5 with
                  | String e0 (String e1 (String g1 (String g2
                      (String g3 (String g4 t11))))) =>
                    match next_u4 t5 with
                    | Some (rr1, _) =>
                      let dec := utf16.DecodeRune rr rr1 in
                      if dec =? utf8.RuneError then
                        prepend (utf8.EncodeRune utf8.RuneError) (scan_string t5)
                      else prepend (utf8.EncodeRune dec) (scan_string t11)
                    | None =>
                      prepend (utf8.EncodeRune utf8.RuneError) (scan_string t5)
                    end
                  | _ => prepend (utf8.EncodeRune utf8.RuneError) (scan_string t5)
                  end
                else prepend (utf8.EncodeRune rr) (scan_string t5)
              end
            | _ => None
            end
          else None
        end
      end
    else if b <? 32 then None
    else if b <? utf8.RuneSelf then
      prepend (String c0 EmptyString) (scan_string t0)
    else
      match utf8.DecodeRune s, t0 with
      | (rr, 2%nat), String _ t1 =>
        prepend (utf8.EncodeRune rr) (scan_string t1)
      | (rr, 3%nat), String _ (String _ t2) =>
        prepend (utf8.EncodeRune rr) (scan_string t2)
      | (rr, 4%nat), String _ (String _ (String _ t3)) =>
        prepend (utf8.EncodeRune rr) (scan_string t3)
      | (rr, _), _ => prepend (utf8.EncodeRune rr) (scan_string t0)
      end
  end.

(** *** Numbers and the three literals *)

Definition is_digit (c : ascii) : bool :=
  let b := byte_val c in (48 <=? b) && (b <=? 57).

(** The digits at the head of [s] and what follows them. *)
Fixpoint span_digits (s : string) : string * string :=
  match s with
  | String c t =>
    if is_digit c then
      let (ds, rest) := span_digits t in (String c ds, rest)
    else (EmptyString, s)
  | EmptyString => (EmptyString, EmptyString)
  end.

(** One digit at least ([stateDot], [stateE], [stateESign]). *)
Definition digits1 (s : string) : option (string * string) :=
  match span_digits s with
  | (EmptyString, _) => None
  | (ds, rest) => Some (ds, rest)
  end.

(** The integer part: [0], or a digit from 1 to 9 followed by digits
    ([state0], [state1]). *)
Definition scan_int (s : string) : option (string * string) :=
  match s with
  | String c t =>
    if byte_val c =? 48 then Some (String c EmptyString, t)
    else if is_digit c then
      let (ds, rest) := span_digits t in Some (String c ds, rest)
    else None
  | EmptyString => None
  end.

(** The optional fraction ([stateDot], [stateDot0]). *)
Definition scan_frac (s : string) : option (string * string) :=
  match s with
  | String c t =>
    if byte_val c =? 46 then prepend (String c EmptyString) (digits1 t)
    else Some (EmptyString, s)
  | EmptyString => Some (EmptyString, s)
  end.

(** The optional exponent ([stateE], [stateESign], [stateE0]). *)
Definition scan_exp (s : string) : option (string * string) :=
  match s with
  | String c t =>
    if (byte_val c =? 101) || (byte_val c =? 69) then
      match t with
      | String sg t' =>
        if (byte_val sg =? 43) || (byte_val sg =? 45) then
          prepend (String c (String sg EmptyString)) (digits1 t')
        else prepend (String c EmptyString) (digits1 t)
      | EmptyString => None
      end
    else Some (EmptyString, s)
  | EmptyString => Some (EmptyString, s)
  end.

Definition scan_number (s : string) : option (string * string) :=
  let '(sign, s1) :=
    match s with
    | String c t =>
      if byte_val c =? 45 then (String c EmptyString, t) else (EmptyString, s)
    | EmptyString => (EmptyString, s)
    end in
  match scan_int s1 with
  | None => None
  | Some (i, s2) =>
    match scan_frac s2 with
    | None => None
    | Some (f, s3) =>
      match scan_exp s3 with
      | None => None
      | Some (e, s4) => Some ((sign ++ i ++ f ++ e)%string, s4)
      end
    end
  end.

(** [s] with the prefix [p] removed, when it starts with [p]. *)
Fixpoint strip_prefix (p s : string) : option string :=
  match p, s with
  | EmptyString, _ => Some s
  | String a p', String b s' =>
    if Ascii.eqb a b then strip_prefix p' s' else None
  | _, EmptyString => None
  end.

(** *** Values

    [scan_value fuel depth s] reads one value at the head of [s], after
    white space, and returns it with the rest of the input.  [depth] is
    the number of arrays and objects that are open; the scanner refuses
    to open more than [maxNestingDepth].  Every call uses one unit of
    [fuel]; [Valid] below starts with more than the input can use. *)

Definition maxNestingDepth : N := 10000.

Fixpoint scan_value (fuel : nat) (depth : N) (s : string)
  : option (value * string) :=
  match fuel with
  | O => None
  | S fuel' =>
    match skip_space s with
    | EmptyString => None
    | String c t =>
      let b := byte_val c in
      if b =? 123 then
        if maxNestingDepth <=? depth then None
        else
          match skip_space t with
          | String c' t' =>
            if byte_val c' =? 125 then Some (Object [], t')
            else
              match scan_members fuel' (depth + 1) t with
              | Some (ms, rest) => Some (Object ms, rest)
              | None => None
              end
          | EmptyString => None
          end
      else if b =? 91 then
        if maxNestingDepth <=? depth then None
        else
          match skip_space t with
          | String c' t' =>
            if byte_val c' =? 93 then Some (Array [], t')
            else
              match scan_elements fuel' (depth + 1) t with
              | Some (vs, rest) => Some (Array vs, rest)
              | None => None
              end
          | EmptyString => None
          end
      else if b =? 34 then
        match scan_string t with
        | Some (str, rest) => Some (Str str, rest)
        | None => None
        end
      else if b =? 116 then
        match strip_prefix "rue" t with
        | Some rest => Some (Bool true, rest)
        | None => None
        end
      else if b =? 102 then
        match strip_prefix "alse" t with
        | Some rest => Some (Bool false, rest)
        | None => None
        end
      else if b =? 110 then
        match strip_prefix "ull" t with
        | Some rest => Some (Null, rest)
        | None => None
        end
      else
        match scan_number (String c t) with
        | Some (lit, rest) => Some (Number lit, rest)
        | None => None
        end
    end
  end

(** The elements of an array, from the first character of an element to
    the closing bracket. *)
with scan_elements (fuel : nat) (depth : N) (s : string)
  : option (list value * string) :=
  match fuel with
  | O => None
  | S fuel' =>
    match scan_value fuel' depth s with
    | None => None
    | Some (v, rest) =>
      match skip_space rest with
      | String c t =>
        if byte_val c =? 44 then
          match scan_elements fuel' depth t with
          | Some (vs, rest') => Some (v :: vs, rest')
          | None => None
          end
        else if byte_val c =? 93 then Some ([v], t)
        else None
      | EmptyString => None
      end
    end
  end

(** The members of an object, from the quote of a key to the closing
    brace. *)
with scan_members (fuel : nat) (depth : N) (s : string)
  : option (list (string * value) * string) :=
  match fuel with
  | O => None
  | S fuel' =>
    match skip_space s with
    | String q t =>
      if byte_val q =? 34 then
        match scan_string t with
        | None => None
        | Some (key, rest) =>
          match skip_space rest with
          | String col t2 =>
            if byte_val col =? 58 then
              match scan_value fuel' depth t2 with
              | None => None
              | Some (v, rest2) =>
                match skip_space rest2 with
                | String c t3 =>
                  if byte_val c =? 44 then
                    match scan_members fuel' depth t3 with
                    | Some (ms, rest') => Some ((key, v) :: ms, rest')
                    | None => None
                    end
                  else if byte_val c =? 125 then Some ([(key, v)], t3)
                  else None
                | EmptyString => None
                end
              end
            else None
          | EmptyString => None
          end
        end
      else None
    | EmptyString => None
    end
  end.

(** [checkValid] together with the value read: the input is one value
    between white space. *)
Definition Valid (data : string) : option value :=
  match scan_value (2 * String.length data + 2) 0 data with
  | Some (v, rest) =>
    match skip_space rest with
    | EmptyString => Some v
    | _ => None
    end
  | None => None
  end.

(** *** Storing a value into a Go variable

    [Unmarshal] stores into what the destination already holds: a field
    the input does not name keeps its value, and so does a string that is
    given [null].  A value of the wrong kind is an [UnmarshalTypeError];
    decoding goes on after it but the call returns the error, so here the
    result is [None]. *)

Inductive error_kind : Type :=
| SyntaxError
| UnmarshalTypeError.

Section Store.

(** The case-insensitive comparison of a field name with a key
    ([field.equalFold]), used when no field has exactly the key as
    its name. *)
Variable equalFold : string -> string -> bool.

Fixpoint find_by (test : string -> bool) (names : list string) (i : nat)
  : option nat :=
  match names with
  | [] => None
  | n :: names' => if test n then Some i else find_by test names' (S i)
  end.

(** The field a key selects: the one with exactly this name, else the
    first whose name matches without regard to case, else none. *)
Definition find_field (names : list string) (key : string) : option nat :=
  match find_by (String.eqb key) names 0 with
  | Some i => Some i
  | None => find_by (fun n => equalFold n key) names 0
  end.

Definition store_string (v : value) (old : string) : option string :=
  match v with
  | Str s => Some s
  | Null => Some old
  | _ => None
  end.

(** The members of an object, in order; a later member with the same
    key stores over the earlier one, a key that selects no field is
    skipped. *)
Fixpoint store_members {T} (names : list string)
    (set : nat -> value -> T -> option T)
    (ms : list (string * value)) (old : T) : option T :=
  match ms with
  | [] => Some old
  | (key, v) :: ms' =>
    match find_field names key with
    | Some i =>
      match set i v old with
      | Some t => store_members names set ms' t
      | None => None
      end
    | None => store_members names set ms' old
    end
  end.

Definition store_struct {T} (names : list string)
    (set : nat -> value -> T -> option T) (v : value) (old : T)
  : option T :=
  match v with
  | Object ms => store_members names set ms old
  | Null => Some old
  | _ => None
  end.

(** A slice under decoding: its value and the elements that lie behind
    its length in the backing array.  An array is decoded element by
    element into the slots of the backing array, the slice being
    extended over them; a slot holds what an earlier array for the same
    key left there, or the zero value. *)
Definition buffer (A : Type) : Type := slice A * list A.

Definition empty_buffer {A} : buffer A := (nil_slice, []).

Fixpoint store_elements {A} (store : value -> A -> option A) (zero : A)
    (vs : list value) (backing : list A) : option (list A) :=
  match vs with
  | [] => Some []
  | v :: vs' =>
    let slot := match backing with [] => zero | o :: _ => o end in
    match store v slot with
    | None => None
    | Some x =>
      match store_elements store zero vs' (tl backing) with
      | Some xs => Some (x :: xs)
      | None => None
      end
    end
  end.

Definition store_slice {A} (store : value -> A -> option A) (zero : A)
    (v : value) (old : buffer A) : option (buffer A) :=
  match v with
  | Null => Some (nil_slice, [])
  | Array [] => Some (mk_slice [], [])
  | Array vs =>
    let backing := (elems_of (fst old) ++ snd old)%list in
    match store_elements store zero vs backing with
    | Some xs => Some (mk_slice xs, skipn (List.length vs) backing)
    | None => None
    end
  | _ => None
  end.

(** [json.Unmarshal(data, &dst)]. *)
Definition Unmarshal {T} (store : value -> T -> option T)
    (data : string) (dst : T) : T + error_kind :=
  match Valid data with
  | None => inr SyntaxError
  | Some v =>
    match store v dst with
    | Some t => inl t
    | None => inr UnmarshalTypeError
    end
  end.

End Store.

(** *** Encoding of arrays of strings *)

Fixpoint comma_separated (items : list string) : string :=
  match items with
  | [] => EmptyString
  | [x] => x
  | x :: rest => (x ++ "," ++ comma_separated rest)%string
  end.

(** A slice: [null] when it is nil, else its elements between brackets. *)
Definition encode_slice {A} (enc : A -> string) (s : slice A) : string :=
  match s with
  | nil_slice => "null"%string
  | mk_slice l => ("[" ++ comma_separated (map enc l) ++ "]")%string
  end.

(** A struct: its fields in order, each as its quoted name, a colon and
    its value. *)
Definition encode_field (name : string) (v : string) : string :=
  (encode_string name ++ ":" ++ v)%string.

Definition encode_struct (fields : list (string * string)) : string :=
  ("{" ++ comma_separated (map (fun f => encode_field (fst f) (snd f)) fields)
       ++ "}")%string.

End json.

(** ** Package [function]: data *)

(** An [error] is known by its text, what [err.Error()] returns. *)
Definition error : Type := string.

(** The result of a call: a value, an error, or a run-time panic. *)
Inductive outcome (A : Type) : Type :=
| Ok (a : A)
| Err (e : error)
| Panic.
Arguments Ok {A} a.
Arguments Err {A} e.
Arguments Panic {A}.

Record lineEventMessage : Type := { ID : string }.

Record lineEvent : Type := {
  ev_ReplyToken : string;
  LineEventMessage : lineEventMessage
}.

Record lineWebHook : Type := { Events : slice lineEvent }.

Record processMessage : Type := {
  ImageID : string;
  pm_ReplyToken : string
}.

Record sendMessage : Type := {
  sm_ReplyToken : string;
  Labels : slice string
}.

Record pubSubMessage : Type := { Data : string }.

Record messagePublishedData : Type := { Message : pubSubMessage }.

Record replyFormatMessage : Type := {
  Type_ : string;
  Text : string
}.

Record replyFormat : Type := {
  rf_ReplyToken : string;
  Messages : slice replyFormatMessage
}.

(** *** [json.Marshal] of the structs

    The key of a field is its [json] tag, or its name when it has none. *)

Definition Marshal_processMessage (m : processMessage) : string :=
  json.encode_struct
    [("ImageID", json.encode_string (ImageID m));
     ("ReplyToken", json.encode_string (pm_ReplyToken m))].

Definition Marshal_sendMessage (m : sendMessage) : string :=
  json.encode_struct
    [("ReplyToken", json.encode_string (sm_ReplyToken m));
     ("Labels", json.encode_slice json.encode_string (Labels m))].

Definition Marshal_replyFormatMessage (m : replyFormatMessage) : string :=
  json.encode_struct
    [("type", json.encode_string (Type_ m));
     ("text", json.encode_string (Text m))].

Definition Marshal_replyFormat (m : replyFormat) : string :=
  json.encode_struct
    [("replyToken", json.encode_string (rf_ReplyToken m));
     ("messages", json.encode_slice Marshal_replyFormatMessage (Messages m))].

(** *** [json.Unmarshal] into the structs *)

Section Unmarshal.

(** The comparison of field names without regard to case that the
    decoder is given. *)
Variable fold : string -> string -> bool.

Definition zero_lineEventMessage : lineEventMessage := {| ID := EmptyString |}.

Definition zero_lineEvent : lineEvent :=
  {| ev_ReplyToken := EmptyString; LineEventMessage := zero_lineEventMessage |}.

Definition store_lineEventMessage : json.value -> lineEventMessage -> option lineEventMessage :=
  json.store_struct fold ["id"]
    (fun i v old =>
       match i with
       | 0 => option_map (fun s => {| ID := s |}) (json.store_string v (ID old))
       | _ => Some old
       end).

Definition store_lineEvent : json.value -> lineEvent -> option lineEvent :=
  json.store_struct fold ["replyToken"; "message"]
    (fun i v old =>
       match i with
       | 0 =>
         option_map
           (fun s => {| ev_ReplyToken := s;
                        LineEventMessage := LineEventMessage old |})
           (json.store_string v (ev_ReplyToken old))
       | 1 =>
         option_map
           (fun m => {| ev_ReplyToken := ev_ReplyToken old;
                        LineEventMessage := m |})
           (store_lineEventMessage v (LineEventMessage old))
       | _ => Some old
       end).

Definition store_lineWebHook
  : json.value -> json.buffer lineEvent -> option (json.buffer lineEvent) :=
  json.store_struct fold ["events"]
    (fun i v old =>
       match i with
       | 0 => json.store_slice store_lineEvent zero_lineEvent v old
       | _ => Some old
       end).

(** [json.Unmarshal(reqBody, &lineWebHook)] on the zero value. *)
Definition Unmarshal_lineWebHook (data : string)
  : lineWebHook + json.error_kind :=
  match json.Unmarshal store_lineWebHook data json.empty_buffer with
  | inl b => inl {| Events := fst b |}
  | inr k => inr k
  end.

Definition zero_processMessage : processMessage :=
  {| ImageID := EmptyString; pm_ReplyToken := EmptyString |}.

Definition store_processMessage
  : json.value -> processMessage -> option processMessage :=
  json.store_struct fold ["ImageID"; "ReplyToken"]
    (fun i v old =>
       match i with
       | 0 =>
         option_map
           (fun s => {| ImageID := s; pm_ReplyToken := pm_ReplyToken old |})
           (json.store_string v (ImageID old))
       | 1 =>
         option_map
           (fun s => {| ImageID := ImageID old; pm_ReplyToken := s |})
           (json.store_string v (pm_ReplyToken old))
       | _ => Some old
       end).

(** [json.Unmarshal(subMsg.Message.Data, &procMsg)] on the zero value. *)
Definition Unmarshal_processMessage (data : string)
  : processMessage + json.error_kind :=
  json.Unmarshal store_processMessage data zero_processMessage.

(** A [sendMessage] under decoding: the reply token and the buffer of the
    labels. *)
Definition store_sendMessage
  : json.value -> string * json.buffer string
    -> option (string * json.buffer string) :=
  json.store_struct fold ["ReplyToken"; "Labels"]
    (fun i v old =>
       match i with
       | 0 => option_map (fun s => (s, snd old)) (json.store_string v (fst old))
       | 1 =>
         option_map (fun b => (fst old, b))
           (json.store_slice json.store_string EmptyString v (snd old))
       | _ => Some old
       end).

(** [json.Unmarshal(subMsg.Message.Data, &sendMsg)] on the zero value. *)
Definition Unmarshal_sendMessage (data : string)
  : sendMessage + json.error_kind :=
  match json.Unmarshal store_sendMessage data (EmptyString, json.empty_buffer) with
  | inl (tok, b) => inl {| sm_ReplyToken := tok; Labels := fst b |}
  | inr k => inr k
  end.

End Unmarshal.

(** ** The outside world

    The functions talk to the HTTP response writer, the log, Secret
    Manager, the LINE endpoints, the Vision API and Pub/Sub.  What these
    answer is given by a record of [services]; what the functions do to
    them is recorded, in order, in the [trace] of the [world], which also
    holds the messages the broker has accepted. *)

(** An outgoing [*http.Request]; [Body] is [None] for a nil body. *)
Record Request : Type := {
  Method : string;
  URL : string;
  Header : list (string * string);
  Body : option string
}.

Record Response : Type := {
  StatusCode : nat;
  resp_Body : string
}.

(** The incoming request of [receive]: what reading its body to the end
    gives, and its wire form as [httputil.DumpRequest] prints it. *)
Record IncomingRequest : Type := {
  in_Body : outcome string;
  in_Dump : string
}.

(** The CloudEvent handed to [process] and [send]: its [%v] form and what
    [DataAs] decodes from its data. *)
Record Event : Type := {
  event_String : string;
  event_DataAs : outcome messagePublishedData
}.

(** A label of the Vision API ([*visionpb.EntityAnnotation]). *)
Record EntityAnnotation : Type := {
  Mid : string;
  Description : string
}.

Inductive effect : Type :=
| Log (line : string)
| WriteHeader (code : nat)
| Write (body : string)
| AccessSecret (name : string)
| HttpDo (req : Request)
| DetectLabels (image : string) (maxResults : nat)
| Publish (topic : string) (data : string).

Definition broker_state : Type := list (string * string).

Record world : Type := {
  trace : list effect;
  broker : broker_state
}.

Record services : Type := {
  (** [os.Getenv] *)
  Getenv : string -> string;
  (** The text of the error [json.Unmarshal] returns on this input. *)
  json_error : json.error_kind -> string -> error;
  (** [field.equalFold] of [encoding/json]. *)
  equalFold : string -> string -> bool;
  (** [http.ResponseWriter.Write] failing. *)
  write_error : string -> option error;
  (** [http.NewRequest] refusing the method or the URL. *)
  new_request_error : string -> string -> option error;
  (** [http.DefaultClient.Do] *)
  client_Do : Request -> outcome Response;
  (** [secretmanager.NewClient] and [AccessSecretVersion], the latter
      giving the data of the payload. *)
  secretmanager_NewClient : option error;
  secret_AccessSecretVersion : string -> outcome string;
  (** [vision.NewImageAnnotatorClient] and [DetectLabels] *)
  vision_NewImageAnnotatorClient : option error;
  vision_DetectLabels : string -> nat -> outcome (list EntityAnnotation);
  (** [pubsub.NewClient], and [topic.Publish] followed by [result.Get]:
      the server id of the message or the error, given what the broker
      holds. *)
  pubsub_NewClient : string -> option error;
  publish_Get : broker_state -> string -> string -> outcome string
}.

(** *** The monad of the functions: state and failure *)

Definition M (A : Type) : Type := world -> outcome A * world.

Definition ret {A} (a : A) : M A := fun w => (Ok a, w).

Definition bind {A B} (m : M A) (k : A -> M B) : M B :=
  fun w =>
    match m w with
    | (Ok a, w') => k a w'
    | (Err e, w') => (Err e, w')
    | (Panic, w') => (Panic, w')
    end.

Notation "x <- m ;; k" := (bind m (fun x => k))
  (at level 61, m at next level, right associativity).
Notation "m ;;; k" := (bind m (fun _ => k))
  (at level 61, right associativity).

Definition lift {A} (o : outcome A) : M A := fun w => (o, w).

Definition fail {A} (e : error) : M A := lift (Err e).

Definition emit (e : effect) : M unit :=
  fun w => (Ok tt, {| trace := (trace w ++ [e])%list; broker := broker w |}).

(** [if err != nil { return fmt.Errorf(prefix + "%w", err) }] *)
Definition wrap {A} (prefix : string) (o : outcome A) : M A :=
  match o with
  | Ok a => ret a
  | Err e => fail (prefix ++ e)
  | Panic => lift Panic
  end.

Definition check (prefix : string) (e : option error) : M unit :=
  match e with
  | None => ret tt
  | Some e => fail (prefix ++ e)
  end.

Definition log_Printf (line : string) : M unit := emit (Log line).

(** [%v] of a slice of strings. *)
Definition fmt_strings (s : slice string) : string :=
  "[" ++ String.concat " " (elems_of s) ++ "]".

(** [io.ReadAll]: a nil reader makes the call of [Read] panic. *)
Definition io_ReadAll (r : option string) : outcome string :=
  match r with
  | Some b => Ok b
  | None => Panic
  end.

(** [http.NewRequest(method, url, body)] *)
Definition http_NewRequest (sv : services) (method url : string)
    (body : option string) : outcome Request :=
  match new_request_error sv method url with
  | Some e => Err e
  | None => Ok {| Method := method; URL := url; Header := []; Body := body |}
  end.

(** [req.Header = make(http.Header)] *)
Definition make_Header (req : Request) : Request :=
  {| Method := Method req; URL := URL req; Header := []; Body := Body req |}.

(** [req.Header.Add(key, value)], for a key in canonical form. *)
Definition Header_Add (req : Request) (key value : string) : Request :=
  {| Method := Method req; URL := URL req;
     Header := (Header req ++ [(key, value)])%list; Body := Body req |}.

Definition client_do (sv : services) (req : Request) : M Response :=
  emit (HttpDo req) ;;; lift (client_Do sv req).

(** [topic.Publish(ctx, &pubsub.Message{Data: data})] and [result.Get]:
    the broker holds the message once it has acknowledged it. *)
Definition publish (sv : services) (topic data : string) : M string :=
  fun w =>
    let w1 :=
      {| trace := (trace w ++ [Publish topic data])%list; broker := broker w |} in
    match publish_Get sv (broker w) topic data with
    | Ok id =>
      (Ok id, {| trace := trace w1; broker := (broker w ++ [(topic, data)])%list |})
    | Err e => (Err e, w1)
    | Panic => (Panic, w1)
    end.

Definition Unmarshal_error {A} (sv : services) (data : string)
    (r : A + json.error_kind) : outcome A :=
  match r with
  | inl a => Ok a
  | inr k => Err (json_error sv k data)
  end.

Definition StatusOK : nat := 200.
Definition StatusInternalServerError : nat := 500.

(** ** Package [function]: the functions *)

Section Functions.

Variable sv : services.

(** [returnError]: the error is logged, the status written, and the text
    of the error sent as the body; a failure of that write is logged. *)
Definition returnError (code : nat) (err : error) : M unit :=
  log_Printf ("error: " ++ err) ;;;
  emit (WriteHeader code) ;;;
  emit (Write err) ;;;
  match write_error sv err with
  | Some e => log_Printf ("http.ResponseWriter.Write failed; " ++ e)
  | None => ret tt
  end.

(** [getSecret]: the latest version of the secret of the project. *)
Definition getSecret (projectID secretName : string) : M string :=
  check "secretmanager.NewClient failed; " (secretmanager_NewClient sv) ;;;
  let name :=
    "projects/" ++ projectID ++ "/secrets/" ++ secretName ++ "/versions/latest" in
  emit (AccessSecret name) ;;;
  wrap "secretmanager.Client.AccessSecretVersion failed; "
    (secret_AccessSecretVersion sv name).

(** [downloadImage]: the request is built with a nil body and sent; the
    bytes returned are read from [req.Body], the body of the request, not
    from the response.  [http.NewRequest] leaves [req.Body] nil for a nil
    body and [Do] does not set it, so the read is [io.ReadAll] of a nil
    reader. *)
Definition downloadImage (channelAccessToken imageID : string) : M string :=
  let url := "https://api-data.line.me/v2/bot/message/" ++ imageID ++ "/content" in
  req <- wrap "http.NewRequest failed; " (http_NewRequest sv "GET" url None) ;;
  let req := make_Header req in
  let req := Header_Add req "Authorization" ("Bearer " ++ channelAccessToken) in
  resp <- (fun w =>
             match client_do sv req w with
             | (Err e, w') => (Err ("http.DefaultClient.Get failed; " ++ e), w')
             | r => r
             end) ;;
  wrap "io.ReadAll failed; " (io_ReadAll (Body req)).

(** [vision.NewImageFromReader] on a [bytes.Reader]: the bytes read. *)
Definition vision_NewImageFromReader (imageBytes : string) : outcome string :=
  Ok imageBytes.

(** The loop of [analyzeImage] over the labels. *)
Fixpoint collect_descriptions (results : slice string)
    (labels : list EntityAnnotation) : slice string :=
  match labels with
  | [] => results
  | label :: rest => collect_descriptions (append results (Description label)) rest
  end.

(** [analyzeImage]: the descriptions of at most ten labels, in the order
    of the answer. *)
Definition analyzeImage (imageBytes : string) : M (slice string) :=
  check "vision.NewImageAnnotatorClient failed; "
    (vision_NewImageAnnotatorClient sv) ;;;
  image <- wrap "vision.NewImageFromReader failed; "
             (vision_NewImageFromReader imageBytes) ;;
  emit (DetectLabels image 10) ;;;
  labels <- wrap "vision.ImageAnnotatorClient.DetectLabels failed; "
              (vision_DetectLabels sv image 10) ;;
  let results := mk_slice [] in
  ret (collect_descriptions results labels).

(** [sendReply]: one text message posted to the reply endpoint.  The
    response is closed without being looked at. *)
Definition sendReply (channelAccessToken replyToken text : string) : M unit :=
  let url := "https://api.line.me/v2/bot/message/reply" in
  let reply :=
    {| rf_ReplyToken := replyToken;
       Messages := mk_slice [{| Type_ := "text"; Text := text |}] |} in
  let replyBytes := Marshal_replyFormat reply in
  req <- wrap "http.NewRequest failed; "
           (http_NewRequest sv "POST" url (Some replyBytes)) ;;
  let req := make_Header req in
  let req := Header_Add req "Authorization" ("Bearer " ++ channelAccessToken) in
  let req := Header_Add req "Content-Type" "application/json" in
  resp <- (fun w =>
             match client_do sv req w with
             | (Err e, w') => (Err ("http.DefaultClient.Get failed; " ++ e), w')
             | r => r
             end) ;;
  ret tt.

(** The loop of [receive] over the events: a message is built from each
    event and published, and the loop stops at the first publish that
    fails. *)
Fixpoint publish_events (topic : string) (events : list lineEvent) : M unit :=
  match events with
  | [] => ret tt
  | evt :: rest =>
    let msg := {| ImageID := ID (LineEventMessage evt);
                  pm_ReplyToken := ev_ReplyToken evt |} in
    let msgBytes := Marshal_processMessage msg in
    id <- publish sv topic msgBytes ;;
    log_Printf ("publish: " ++ id) ;;;
    publish_events topic rest
  end.

(** [httputil.DumpRequest(r, true)]: the body is read to the end and put
    back, so that it can be read again without error. *)
Definition httputil_DumpRequest (r : IncomingRequest)
  : outcome (string * IncomingRequest) :=
  match in_Body r with
  | Ok b => Ok (in_Dump r, r)
  | Err e => Err e
  | Panic => Panic
  end.

(** [receive] up to its first error. *)
Definition receive_steps (r : IncomingRequest) : M unit :=
  log_Printf "receive" ;;;
  dumped <- lift (httputil_DumpRequest r) ;;
  let '(reqBytes, r) := dumped in
  log_Printf ("request: " ++ reqBytes) ;;;
  let projectID := Getenv sv "PROJECT_ID" in
  let waitProcessTopic := Getenv sv "WAIT_PROCESS_TOPIC" in
  reqBody <- lift (in_Body r) ;;
  hook <- lift (Unmarshal_error sv reqBody
                  (Unmarshal_lineWebHook (equalFold sv) reqBody)) ;;
  check "" (pubsub_NewClient sv projectID) ;;;
  let topic := waitProcessTopic in
  publish_events topic (elems_of (Events hook)).

(** [receive]: every error is answered by [returnError] with status 500;
    without error the status 200 and the body [receive] are written. *)
Definition receive (r : IncomingRequest) : M unit :=
  fun w =>
    match receive_steps r w with
    | (Ok _, w') =>
      (emit (WriteHeader StatusOK) ;;; emit (Write "receive")) w'
    | (Err e, w') => returnError StatusInternalServerError e w'
    | (Panic, w') => (Panic, w')
    end.

(** [process] once the image is downloaded: the image is classified and a
    message with the reply token and the labels is published. *)
Definition process_image (procMsg : processMessage) (image : string) : M unit :=
  let projectID := Getenv sv "PROJECT_ID" in
  let waitSendTopic := Getenv sv "WAIT_SEND_TOPIC" in
  log_Printf "download image" ;;;
  labels <- analyzeImage image ;;
  log_Printf ("labels: " ++ fmt_strings labels) ;;;
  let msg := {| sm_ReplyToken := pm_ReplyToken procMsg; Labels := labels |} in
  let msgBytes := Marshal_sendMessage msg in
  check "pubsub.NewClient failed; " (pubsub_NewClient sv projectID) ;;;
  let topic := waitSendTopic in
  id <- (fun w =>
           match publish sv topic msgBytes w with
           | (Err _, w') => (Err EmptyString, w')
           | r => r
           end) ;;
  log_Printf ("publish: " ++ id) ;;;
  ret tt.

(** [process]: the message is decoded, the credential resolved and the
    image downloaded; [process_image] is the rest of the function. *)
Definition process (evt : Event) : M unit :=
  log_Printf "process" ;;;
  log_Printf ("request: " ++ event_String evt) ;;;
  let projectID := Getenv sv "PROJECT_ID" in
  subMsg <- wrap "event.Event.DataAs failed; " (event_DataAs evt) ;;
  procMsg <- wrap "json.Unmarshal failed; "
               (Unmarshal_error sv (Data (Message subMsg))
                  (Unmarshal_processMessage (equalFold sv) (Data (Message subMsg)))) ;;
  log_Printf ("image ID: " ++ ImageID procMsg) ;;;
  log_Printf ("reply token: " ++ pm_ReplyToken procMsg) ;;;
  channelAccessToken <- getSecret projectID "channel-access-token" ;;
  log_Printf "get secret" ;;;
  image <- downloadImage channelAccessToken (ImageID procMsg) ;;
  process_image procMsg image.

(** [send] *)
Definition send (evt : Event) : M unit :=
  log_Printf "send" ;;;
  log_Printf ("request: " ++ event_String evt) ;;;
  let projectID := Getenv sv "PROJECT_ID" in
  subMsg <- wrap "event.Event.DataAs failed; " (event_DataAs evt) ;;
  sendMsg <- wrap "json.Unmarshal failed; "
               (Unmarshal_error sv (Data (Message subMsg))
                  (Unmarshal_sendMessage (equalFold sv) (Data (Message subMsg)))) ;;
  log_Printf ("reply token: " ++ sm_ReplyToken sendMsg) ;;;
  log_Printf ("labels: " ++ fmt_strings (Labels sendMsg)) ;;;
  let text := strings.Join (Labels sendMsg) (String (ascii_of_nat 10) EmptyString) in
  channelAccessToken <- getSecret projectID "channel-access-token" ;;
  log_Printf "get secret" ;;;
  sendReply channelAccessToken (sm_ReplyToken sendMsg) text ;;;
  log_Printf "send reply" ;;;
  ret tt.

End Functions.

(** The world at the start of an invocation: nothing done yet, the broker
    holding [b]. *)
Definition start (b : broker_state) : world := {| trace := []; broker := b |}.

(** ** The earlier [process] of [function/function.go]

    In that file [sendMessage] has the reply token only, [process] decodes
    the message and publishes a fixed token, [send] decodes the message and
    logs its token, [downloadImage] sets the header with [Header.Set] on
    the header [http.NewRequest] made, and [analyzeImage] is empty.
    [receive] and [returnError] are as above. *)

Module earlier.

Record sendMessage : Type := { ReplyToken : string }.

Definition Marshal_sendMessage (m : sendMessage) : string :=
  json.encode_struct [("ReplyToken", json.encode_string (ReplyToken m))].

Definition process (sv : services) (evt : Event) : M unit :=
  log_Printf "process" ;;;
  log_Printf ("request: " ++ event_String evt) ;;;
  let projectID := Getenv sv "PROJECT_ID" in
  let waitSendTopic := Getenv sv "WAIT_SEND_TOPIC" in
  subMsg <- wrap "event.Event.DataAs failed; " (event_DataAs evt) ;;
  procMsg <- wrap "json.Unmarshal failed; "
               (Unmarshal_error sv (Data (Message subMsg))
                  (Unmarshal_processMessage (equalFold sv) (Data (Message subMsg)))) ;;
  log_Printf ("image ID: " ++ ImageID procMsg) ;;;
  log_Printf ("reply token: " ++ pm_ReplyToken procMsg) ;;;
  let msg := {| ReplyToken := "dummy" |} in
  let msgBytes := Marshal_sendMessage msg in
  check "pubsub.NewClient failed; " (pubsub_NewClient sv projectID) ;;;
  let topic := waitSendTopic in
  id <- (fun w =>
           match publish sv topic msgBytes w with
           | (Err _, w') => (Err EmptyString, w')
           | r => r
           end) ;;
  log_Printf ("publish: " ++ id) ;;;
  ret tt.

(** [json.Unmarshal(subMsg.Message.Data, &sendMsg)] on the zero value. *)
Definition store_sendMessage (fold : string -> string -> bool)
  : json.value -> sendMessage -> option sendMessage :=
  json.store_struct fold ["ReplyToken"]
    (fun i v old =>
       match i with
       | 0 =>
         option_map (fun s => {| ReplyToken := s |})
           (json.store_string v (ReplyToken old))
       | _ => Some old
       end).

Definition Unmarshal_sendMessage (fold : string -> string -> bool) (data : string)
  : sendMessage + json.error_kind :=
  json.Unmarshal (store_sendMessage fold) data {| ReplyToken := EmptyString |}.

(** [send]: the message is decoded and its reply token logged. *)
Definition send (sv : services) (evt : Event) : M unit :=
  log_Printf "send" ;;;
  log_Printf ("request: " ++ event_String evt) ;;;
  subMsg <- wrap "event.Event.DataAs failed; " (event_DataAs evt) ;;
  sendMsg <- wrap "json.Unmarshal failed; "
               (Unmarshal_error sv (Data (Message subMsg))
                  (Unmarshal_sendMessage (equalFold sv) (Data (Message subMsg)))) ;;
  log_Printf ("reply token: " ++ ReplyToken sendMsg) ;;;
  ret tt.

(** [req.Header.Set(key, value)], for a key in canonical form: the values
    the header has for the key are replaced by the one value. *)
Definition Header_Set (req : Request) (key value : string) : Request :=
  {| Method := Method req; URL := URL req;
     Header := (filter (fun kv => negb (String.eqb (fst kv) key)) (Header req)
                  ++ [(key, value)])%list;
     Body := Body req |}.

(** [downloadImage]: the header [http.NewRequest] made is kept and the
    credential set in it; the bytes are read from the body of the
    request, as in the later version. *)
Definition downloadImage (sv : services) (channelAccessToken imageID : string)
  : M string :=
  let url := "https://api-data.line.me/v2/bot/message/" ++ imageID ++ "/content" in
  req <- wrap "http.NewRequest failed; " (http_NewRequest sv "GET" url None) ;;
  let req := Header_Set req "Authorization" ("Bearer " ++ channelAccessToken) in
  resp <- (fun w =>
             match client_do sv req w with
             | (Err e, w') => (Err ("http.DefaultClient.Get failed; " ++ e), w')
             | r => r
             end) ;;
  wrap "io.ReadAll failed; " (io_ReadAll (Body req)).

(** [analyzeImage]: nothing is done with the image. *)
Definition analyzeImage (image : string) : M unit := ret tt.

End earlier.

(** ** What can be seen of a run *)

(** The messages handed to [topic.Publish], in order. *)
Fixpoint published (t : list effect) : list (string * string) :=
  match t with
  | [] => []
  | Publish topic data :: t' => (topic, data) :: published t'
  | _ :: t' => published t'
  end.

(** What was written to the HTTP response, in order. *)
Fixpoint response (t : list effect) : list effect :=
  match t with
  | [] => []
  | WriteHeader code :: t' => WriteHeader code :: response t'
  | Write body :: t' => Write body :: response t'
  | _ :: t' => response t'
  end.

(** The requests sent by the HTTP client, in order. *)
Fixpoint requests (t : list effect) : list Request :=
  match t with
  | [] => []
  | HttpDo req :: t' => req :: requests t'
  | _ :: t' => requests t'
  end.

(** The message [receive] builds from an event. *)
Definition message_of (evt : lineEvent) : processMessage :=
  {| ImageID := ID (LineEventMessage evt); pm_ReplyToken := ev_ReplyToken evt |}.

(** ** The requests and texts the spec describes *)

Definition newline : string := String (ascii_of_nat 10) EmptyString.

(** The reply text of the spec: the labels with a single newline between
    consecutive entries, the empty string when there is no label. *)
Fixpoint reply_text (labels : list string) : string :=
  match labels with
  | [] => EmptyString
  | [l] => l
  | l :: rest => l ++ newline ++ reply_text rest
  end.

(** The request to the image content endpoint of the spec. *)
Definition content_request (credential imageId : string) : Request :=
  {| Method := "GET";
     URL := "https://api-data.line.me/v2/bot/message/" ++ imageId ++ "/content";
     Header := [("Authorization", "Bearer " ++ credential)];
     Body := None |}.

Definition reply_url : string := "https://api.line.me/v2/bot/message/reply".

(** The request to the reply endpoint of the spec. *)
Definition reply_request (credential replyToken text : string) : Request :=
  {| Method := "POST";
     URL := reply_url;
     Header := [("Authorization", "Bearer " ++ credential);
                ("Content-Type", "application/json")];
     Body := Some (Marshal_replyFormat
                     {| rf_ReplyToken := replyToken;
                        Messages := mk_slice [{| Type_ := "text"; Text := text |}] |}) |}.

(** The name under which [getSecret] asks for the channel access token. *)
Definition token_resource (projectID : string) : string :=
  "projects/" ++ projectID ++ "/secrets/" ++ "channel-access-token" ++ "/versions/latest".

(** A response status is a success when it is in the range 200 to 299. *)
Definition is_2xx (code : nat) : bool := (200 <=? code)%nat && (code <? 300)%nat.

(** ** Services for the examples

    The secret is [token], every HTTP request has the outcome [answer],
    the classifier names [labels], the broker acknowledges every message
    with the id [1]; no other call fails. *)

Definition lower (c : ascii) : ascii :=
  let b := byte_val c in
  if ((65 <=? b) && (b <=? 90))%N then byte_of (b + 32) else c.

Fixpoint ascii_equalFold (a b : string) : bool :=
  match a, b with
  | EmptyString, EmptyString => true
  | String x a', String y b' => Ascii.eqb (lower x) (lower y) && ascii_equalFold a' b'
  | _, _ => false
  end.

Definition getenv_example (name : string) : string :=
  if String.eqb name "PROJECT_ID" then "ubiquitous-couscous"
  else if String.eqb name "WAIT_PROCESS_TOPIC" then "wait-process"
  else if String.eqb name "WAIT_SEND_TOPIC" then "wait-send"
  else EmptyString.

Definition example_services (token : string) (answer : outcome Response)
    (labels : list EntityAnnotation) : services :=
  {| Getenv := getenv_example;
     json_error := fun k _ =>
       match k with
       | json.SyntaxError => "json: syntax error"
       | json.UnmarshalTypeError => "json: cannot unmarshal"
       end;
     equalFold := ascii_equalFold;
     write_error := fun _ => None;
     new_request_error := fun _ _ => None;
     client_Do := fun _ => answer;
     secretmanager_NewClient := None;
     secret_AccessSecretVersion := fun _ => Ok token;
     vision_NewImageAnnotatorClient := None;
     vision_DetectLabels := fun _ _ => Ok labels;
     pubsub_NewClient := fun _ => None;
     publish_Get := fun _ _ _ => Ok "1" |}.

Definition quoted (s : string) : string :=
  String dquote (s ++ String dquote EmptyString).

(** The Pub/Sub event that carries [data]. *)
Definition event_of (data : string) : Event :=
  {| event_String := "event";
     event_DataAs := Ok {| Message := {| Data := data |} |} |}.

(** The world [w] after the effects [es]. *)
Definition after (w : world) (es : list effect) : world :=
  {| trace := (trace w ++ es)%list; broker := broker w |}.

(** The statement of the spec on responses outside the range 2xx, for the
    reply sender: such a response makes [sendReply] return an error. *)
Definition non_2xx_is_failure (sv : services) : Prop :=
  forall tok replyToken text resp w,
    client_Do sv (reply_request tok replyToken text) = Ok resp ->
    is_2xx (StatusCode resp) = false ->
    exists e w', sendReply sv tok replyToken text w = (Err e, w').

Definition ok_response : Response := {| StatusCode := 200; resp_Body := EmptyString |}.

(** A response of the endpoint reporting a failure. *)
Definition error_response : Response :=
  {| StatusCode := 500; resp_Body := "Internal Server Error" |}.

(** The labels of the scenario of the spec. *)
Definition cat_outdoor : list EntityAnnotation :=
  [{| Mid := "/m/01yrx"; Description := "cat" |};
   {| Mid := "/m/0aqh5"; Description := "outdoor" |}].

Definition jpeg_response : Response := {| StatusCode := 200; resp_Body := "JFIF" |}.

(** The same Pub/Sub message delivered again: the data is the same, the
    event differs by its delivery attempt. *)
Definition redelivery_of (data : string) : Event :=
  {| event_String := "event, delivery attempt 2";
     event_DataAs := Ok {| Message := {| Data := data |} |} |}.

(** The messages [receive] is to publish on [topic] for a list of events. *)
Definition messages_for (topic : string) (events : list lineEvent)
  : list (string * string) :=
  map (fun evt => (topic, Marshal_processMessage (message_of evt))) events.

(** The webhook body of the scenario of the spec: one event with the reply
    token [r1] and the image [img1]. *)
Definition scenario_body : string :=
  "{" ++ quoted "events" ++ ":[{" ++ quoted "replyToken" ++ ":" ++ quoted "r1" ++ ","
      ++ quoted "message" ++ ":{" ++ quoted "id" ++ ":" ++ quoted "img1" ++ "}}]}".

Definition request_with (body : string) : IncomingRequest :=
  {| in_Body := Ok body; in_Dump := "POST / HTTP/1.1" |}.

(** Some member of the object [ms] selects the field of index [i] among
    the fields [names]. *)
Definition names_field (fold : string -> string -> bool) (names : list string)
    (i : nat) (ms : list (string * json.value)) : bool :=
  existsb
    (fun kv =>
       match json.find_field fold names (fst kv) with
       | Some j => Nat.eqb i j
       | None => false
       end) ms.




(** ** Exhaustive checks over bytes

    A property of one to four bytes that is decided by computation is
    checked on every byte. *)

Definition forall_bool (f : bool -> bool) : bool := f true && f false.

Definition forall_ascii (f : ascii -> bool) : bool :=
  forall_bool (fun b0 => forall_bool (fun b1 => forall_bool (fun b2 =>
  forall_bool (fun b3 => forall_bool (fun b4 => forall_bool (fun b5 =>
  forall_bool (fun b6 => forall_bool (fun b7 =>
    f (Ascii b0 b1 b2 b3 b4 b5 b6 b7))))))))).

(** The conditions [utf8.DecodeRune] tests on the bytes of an encoding. *)
Definition lead_single (c0 : ascii) : bool :=
  (utf8.as_ <=? utf8.first (byte_val c0))%N.

Definition lead_size (c0 : ascii) : N := N.land (utf8.first (byte_val c0)) 7.

Definition second_bad (c0 c1 : ascii) : bool :=
  utf8.out_of
    (fst (utf8.acceptRanges (N.shiftr (utf8.first (byte_val c0)) 4)))
    (snd (utf8.acceptRanges (N.shiftr (utf8.first (byte_val c0)) 4)))
    (byte_val c1).

Definition cont_bad (c : ascii) : bool := utf8.out_of utf8.locb utf8.hicb (byte_val c).

(** The rune of a well-formed encoding on two, three and four bytes. *)
Definition rune2 (c0 c1 : ascii) : N :=
  N.lor (N.shiftl (N.land (byte_val c0) utf8.mask2) 6)
        (N.land (byte_val c1) utf8.maskx).

Definition rune3 (c0 c1 c2 : ascii) : N :=
  N.lor (N.lor (N.shiftl (N.land (byte_val c0) utf8.mask3) 12)
               (N.shiftl (N.land (byte_val c1) utf8.maskx) 6))
        (N.land (byte_val c2) utf8.maskx).

Definition rune4 (c0 c1 c2 c3 : ascii) : N :=
  N.lor (N.lor (N.lor (N.shiftl (N.land (byte_val c0) utf8.mask4) 18)
                      (N.shiftl (N.land (byte_val c1) utf8.maskx) 12))
               (N.shiftl (N.land (byte_val c2) utf8.maskx) 6))
        (N.land (byte_val c3) utf8.maskx).

(** [f] holds of every byte that [skip] does not set aside. *)
Definition guarded (skip f : ascii -> bool) : bool :=
  forall_ascii (fun c => if skip c then true else f c).

(** [a] extended by the six bits of a continuation byte. *)
Definition push (a : N) (c : ascii) : N :=
  N.lor (N.shiftl a 6) (N.land (byte_val c) utf8.maskx).

(** The first byte of an encoding on two, three and four bytes. *)
Definition lead2 (c0 : ascii) : bool :=
  negb (lead_single c0) && (lead_size c0 <=? 2)%N.

Definition lead3 (c0 : ascii) : bool :=
  negb (lead_single c0) && negb (lead_size c0 <=? 2)%N && (lead_size c0 <=? 3)%N.

Definition lead4 (c0 : ascii) : bool :=
  negb (lead_single c0) && negb (lead_size c0 <=? 3)%N.

(** What [utf8.EncodeRune] writes from the bits of a byte is that byte:
    checked on every byte. *)
Definition cont_written (c : ascii) : bool :=
  Ascii.eqb (byte_of (N.lor 128 (N.land (byte_val c) 63))) c.

Definition lead2_written (c0 : ascii) : bool :=
  Ascii.eqb (byte_of (N.lor 192 (N.land (byte_val c0) 31))) c0
  && (2 <=? N.land (byte_val c0) 31)%N && (N.land (byte_val c0) 31 <=? 31)%N.

Definition lead3_written (c0 : ascii) : bool :=
  Ascii.eqb (byte_of (N.lor 224 (N.land (byte_val c0) 15))) c0.

Definition lead4_written (c0 : ascii) : bool :=
  Ascii.eqb (byte_of (N.lor 240 (N.land (byte_val c0) 7))) c0.

(** The range of the rune that the first two bytes leave open: checked on
    every pair of bytes.  On three bytes the rune is at least [U+0800] and
    no surrogate, on four bytes it is between [U+10000] and [U+10FFFF]. *)
Definition second3_range (c0 c1 : ascii) : bool :=
  let q := push (N.land (byte_val c0) 15) c1 in
  (32 <=? q)%N && (q <=? 1023)%N && ((q <? 864)%N || (895 <? q)%N).

Definition second4_range (c0 c1 : ascii) : bool :=
  let q := push (N.land (byte_val c0) 7) c1 in
  (16 <=? q)%N && (q <=? 271)%N.

(** The value of the field [Labels]. *)
Definition labels_value (labels : slice string) : json.value :=
  match labels with
  | nil_slice => json.Null
  | mk_slice l => json.Array (map json.Str l)
  end.

(** A ProcessMessage whose image identifier is the single byte [0xFF],
    which is not valid UTF-8. *)
Definition message_with_bad_byte : processMessage :=
  {| ImageID := String (ascii_of_nat 255) EmptyString; pm_ReplyToken := "r1" |}.

(** Every string of a message is valid UTF-8. *)
Definition valid_processMessage (m : processMessage) : Prop :=
  utf8.ValidString (ImageID m) = true /\ utf8.ValidString (pm_ReplyToken m) = true.

Definition valid_sendMessage (m : sendMessage) : Prop :=
  utf8.ValidString (sm_ReplyToken m) = true
  /\ Forall (fun l => utf8.ValidString l = true) (elems_of (Labels m)).

(** The bytes [utf8.EncodeRune] writes are a well-formed encoding: checked
    on every value of the bits that go into a byte, given as the byte that
    has this value. *)
Definition cont_of (c : ascii) : ascii := byte_of (N.lor 128 (byte_val c)).

Definition six_bits (c : ascii) : bool := (byte_val c <=? 63)%N.

Definition cont_formed (cy : ascii) : bool := negb (cont_bad (cont_of cy)).

Definition in_range2 (cx : ascii) : bool :=
  (2 <=? byte_val cx)%N && (byte_val cx <=? 31)%N.

Definition formed2 (cx cy : ascii) : bool :=
  lead2 (byte_of (N.lor 192 (byte_val cx)))
  && negb (second_bad (byte_of (N.lor 192 (byte_val cx))) (cont_of cy)).

Definition in_range3 (cx cy : ascii) : bool :=
  let q := (64 * byte_val cx + byte_val cy)%N in
  (byte_val cx <=? 15)%N && six_bits cy
  && (32 <=? q)%N && ((q <? 864)%N || (895 <? q)%N).

Definition formed3 (cx cy : ascii) : bool :=
  lead3 (byte_of (N.lor 224 (byte_val cx)))
  && negb (second_bad (byte_of (N.lor 224 (byte_val cx))) (cont_of cy)).

Definition in_range4 (cx cy : ascii) : bool :=
  let q := (64 * byte_val cx + byte_val cy)%N in
  (byte_val cx <=? 4)%N && six_bits cy && (16 <=? q)%N && (q <=? 271)%N.

Definition formed4 (cx cy : ascii) : bool :=
  lead4 (byte_of (N.lor 240 (byte_val cx)))
  && negb (second_bad (byte_of (N.lor 240 (byte_val cx))) (cont_of cy)).

(** [f] holds of every pair of bytes that [keep] retains. *)
Definition guarded2 (keep f : ascii -> ascii -> bool) : bool :=
  forall_ascii (fun cx => forall_ascii (fun cy => if keep cx cy then f cx cy else true)).

(** Every string in a JSON value is valid UTF-8. *)
Inductive valid_value : json.value -> Prop :=
| valid_Null : valid_value json.Null
| valid_Bool b : valid_value (json.Bool b)
| valid_Number lit : valid_value (json.Number lit)
| valid_Str s : utf8.ValidString s = true -> valid_value (json.Str s)
| valid_Array vs : Forall valid_value vs -> valid_value (json.Array vs)
| valid_Object ms :
    Forall (fun kv => valid_value (snd kv)) ms -> valid_value (json.Object ms).

Definition valid_lineEvent (evt : lineEvent) : Prop :=
  utf8.ValidString (ev_ReplyToken evt) = true
  /\ utf8.ValidString (ID (LineEventMessage evt)) = true.

(** The shape of a string on which [utf8.DecodeRune] finds a rune of more
    than one byte. *)
Inductive decoded : string -> N -> nat -> Prop :=
| decoded2 c0 c1 t :
    lead_single c0 = false -> (lead_size c0 <=? 2)%N = true ->
    second_bad c0 c1 = false ->
    decoded (String c0 (String c1 t)) (rune2 c0 c1) 2
| decoded3 c0 c1 c2 t :
    lead_single c0 = false -> (lead_size c0 <=? 2)%N = false ->
    (lead_size c0 <=? 3)%N = true ->
    second_bad c0 c1 = false -> cont_bad c2 = false ->
    decoded (String c0 (String c1 (String c2 t))) (rune3 c0 c1 c2) 3
| decoded4 c0 c1 c2 c3 t :
    lead_single c0 = false -> (lead_size c0 <=? 3)%N = false ->
    second_bad c0 c1 = false -> cont_bad c2 = false -> cont_bad c3 = false ->
    decoded (String c0 (String c1 (String c2 (String c3 t)))) (rune4 c0 c1 c2 c3) 4.

(** ** More of what can be seen of a run *)

(** The calls of the classifier, in order: the image and the number of
    labels asked for. *)
Fixpoint detections (t : list effect) : list (string * nat) :=
  match t with
  | [] => []
  | DetectLabels image n :: t' => (image, n) :: detections t'
  | _ :: t' => detections t'
  end.

(** The secrets asked of Secret Manager, in order. *)
Fixpoint secrets (t : list effect) : list string :=
  match t with
  | [] => []
  | AccessSecret name :: t' => name :: secrets t'
  | _ :: t' => secrets t'
  end.

(** The lines of the log, in order. *)
Fixpoint logged (t : list effect) : list string :=
  match t with
  | [] => []
  | Log line :: t' => line :: logged t'
  | _ :: t' => logged t'
  end.

(** The broker, holding [st], acknowledges the messages [msgs] published
    on [topic] one after the other. *)
Fixpoint acknowledges (sv : services) (topic : string) (st : broker_state)
    (msgs : list string) : Prop :=
  match msgs with
  | [] => True
  | data :: rest =>
    (exists id, publish_Get sv st topic data = Ok id)
    /\ acknowledges sv topic (st ++ [(topic, data)])%list rest
  end.

(** The data [receive] publishes for a list of events. *)
Definition data_for (events : list lineEvent) : list string :=
  map (fun evt => Marshal_processMessage (message_of evt)) events.

(** ** Services that fail, for the examples *)

(** [sv] with a broker that holds at most [n] messages: a publish is
    refused once it holds [n]. *)
Definition with_full_broker (sv : services) (n : nat) : services :=
  {| Getenv := Getenv sv;
     json_error := json_error sv;
     equalFold := equalFold sv;
     write_error := write_error sv;
     new_request_error := new_request_error sv;
     client_Do := client_Do sv;
     secretmanager_NewClient := secretmanager_NewClient sv;
     secret_AccessSecretVersion := secret_AccessSecretVersion sv;
     vision_NewImageAnnotatorClient := vision_NewImageAnnotatorClient sv;
     vision_DetectLabels := vision_DetectLabels sv;
     pubsub_NewClient := pubsub_NewClient sv;
     publish_Get := fun st topic data =>
       if (List.length st <? n)%nat then publish_Get sv st topic data
       else Err "deadline exceeded" |}.

(** [sv] without access to Pub/Sub. *)
Definition without_pubsub (sv : services) : services :=
  {| Getenv := Getenv sv;
     json_error := json_error sv;
     equalFold := equalFold sv;
     write_error := write_error sv;
     new_request_error := new_request_error sv;
     client_Do := client_Do sv;
     secretmanager_NewClient := secretmanager_NewClient sv;
     secret_AccessSecretVersion := secret_AccessSecretVersion sv;
     vision_NewImageAnnotatorClient := vision_NewImageAnnotatorClient sv;
     vision_DetectLabels := vision_DetectLabels sv;
     pubsub_NewClient := fun _ => Some "no credentials";
     publish_Get := publish_Get sv |}.

(** [sv] with a secret that cannot be read. *)
Definition without_secret (sv : services) : services :=
  {| Getenv := Getenv sv;
     json_error := json_error sv;
     equalFold := equalFold sv;
     write_error := write_error sv;
     new_request_error := new_request_error sv;
     client_Do := client_Do sv;
     secretmanager_NewClient := secretmanager_NewClient sv;
     secret_AccessSecretVersion := fun _ => Err "permission denied";
     vision_NewImageAnnotatorClient := vision_NewImageAnnotatorClient sv;
     vision_DetectLabels := vision_DetectLabels sv;
     pubsub_NewClient := pubsub_NewClient sv;
     publish_Get := publish_Get sv |}.

(** [sv] with a classifier that refuses the image. *)
Definition without_labels (sv : services) : services :=
  {| Getenv := Getenv sv;
     json_error := json_error sv;
     equalFold := equalFold sv;
     write_error := write_error sv;
     new_request_error := new_request_error sv;
     client_Do := client_Do sv;
     secretmanager_NewClient := secretmanager_NewClient sv;
     secret_AccessSecretVersion := secret_AccessSecretVersion sv;
     vision_NewImageAnnotatorClient := vision_NewImageAnnotatorClient sv;
     vision_DetectLabels := fun _ _ => Err "bad image data";
     pubsub_NewClient := pubsub_NewClient sv;
     publish_Get := publish_Get sv |}.

(** A webhook body with two events. *)
Definition two_events_body : string :=
  "{" ++ quoted "events" ++ ":[{" ++ quoted "replyToken" ++ ":" ++ quoted "r1" ++ ","
      ++ quoted "message" ++ ":{" ++ quoted "id" ++ ":" ++ quoted "img1" ++ "}},{"
      ++ quoted "replyToken" ++ ":" ++ quoted "r2" ++ ","
      ++ quoted "message" ++ ":{" ++ quoted "id" ++ ":" ++ quoted "img2" ++ "}}]}".

(** The value the body of a reply request is to be read as. *)
Definition reply_value (replyToken text : string) : json.value :=
  json.Object
    [("replyToken", json.Str replyToken);
     ("messages",
      json.Array [json.Object [("type", json.Str "text"); ("text", json.Str text)]])].

(** What a string is read back as after [json.Marshal] and
    [json.Unmarshal]: the string with each byte that is not part of a
    well-formed encoding replaced by the encoding of [U+FFFD]. *)
Fixpoint coerced (s : string) : string :=
  match s with
  | EmptyString => EmptyString
  | String c0 t0 =>
    if (byte_val c0 <? utf8.RuneSelf)%N then String c0 (coerced t0)
    else
      match utf8.DecodeRune s, t0 with
      | (_, 2), String c1 t1 => String c0 (String c1 (coerced t1))
      | (_, 3), String c1 (String c2 t2) =>
        String c0 (String c1 (String c2 (coerced t2)))
      | (_, 4), String c1 (String c2 (String c3 t3)) =>
        String c0 (String c1 (String c2 (String c3 (coerced t3))))
      | _, _ => utf8.EncodeRune utf8.RuneError ++ coerced t0
      end
  end.

(** The labels read back. *)
Definition coerced_labels (labels : slice string) : slice string :=
  match labels with
  | nil_slice => nil_slice
  | mk_slice l => mk_slice (map coerced l)
  end.

(** ** Fields that are absent or empty *)

(** The value [v] gives a string nothing but the empty string: it is the
    empty string, or [null], which leaves the string as it was. *)
Definition blank (v : json.value) : bool :=
  match v with
  | json.Null => true
  | json.Str EmptyString => true
  | _ => false
  end.

(** The field of index [i] among [names] is absent or empty in the object
    [ms]: every member that selects the field is [blank].  This holds in
    particular when no member selects it. *)
Definition field_blank (fold : string -> string -> bool) (names : list string)
    (i : nat) (ms : list (string * json.value)) : bool :=
  forallb
    (fun kv =>
       match json.find_field fold names (fst kv) with
       | Some j => if Nat.eqb i j then blank (snd kv) else true
       | None => true
       end) ms.





(** * Properties *)

(** ** UTF-8: a rune that decodes is encoded back to the same bytes *)

Lemma forall_bool_spec f : forall_bool f = true -> forall b, f b = true.
Proof.
  unfold forall_bool. intros H b. apply andb_true_iff in H. now destruct b.
Qed.

Lemma forall_ascii_spec f : forall_ascii f = true -> forall c, f c = true.
Proof.
  unfold forall_ascii. intros H [b0 b1 b2 b3 b4 b5 b6 b7].
  apply (forall_bool_spec _ (forall_bool_spec _ (forall_bool_spec _
          (forall_bool_spec _ (forall_bool_spec _ (forall_bool_spec _
          (forall_bool_spec _ (forall_bool_spec _ H b0) b1) b2) b3) b4) b5) b6) b7).
Qed.

Lemma guarded_spec skip f :
  guarded skip f = true -> forall c, skip c = false -> f c = true.
Proof.
  unfold guarded. intros H c Hs.
  pose proof (forall_ascii_spec _ H c) as H'. cbv beta in H'.
  now rewrite Hs in H'.
Qed.

Lemma cont_written_ok : guarded cont_bad cont_written = true.
Proof. vm_compute. reflexivity. Qed.

Lemma lead2_written_ok : guarded (fun c => negb (lead2 c)) lead2_written = true.
Proof. vm_compute. reflexivity. Qed.

Lemma lead3_written_ok : guarded (fun c => negb (lead3 c)) lead3_written = true.
Proof. vm_compute. reflexivity. Qed.

Lemma lead4_written_ok : guarded (fun c => negb (lead4 c)) lead4_written = true.
Proof. vm_compute. reflexivity. Qed.

Lemma second_is_cont_ok :
  guarded lead_single (fun c0 =>
    guarded (second_bad c0) (fun c1 => negb (cont_bad c1))) = true.
Proof. vm_compute. reflexivity. Qed.

Lemma second3_range_ok :
  guarded (fun c => negb (lead3 c)) (fun c0 =>
    guarded (second_bad c0) (second3_range c0)) = true.
Proof. vm_compute. reflexivity. Qed.

Lemma second4_range_ok :
  guarded (fun c => negb (lead4 c)) (fun c0 =>
    guarded (second_bad c0) (second4_range c0)) = true.
Proof. vm_compute. reflexivity. Qed.

Lemma cont_written_spec c :
  cont_bad c = false -> byte_of (N.lor 128 (N.land (byte_val c) 63)) = c.
Proof.
  intros H. apply Ascii.eqb_eq. exact (guarded_spec _ _ cont_written_ok c H).
Qed.

Lemma second_is_cont c0 c1 :
  lead_single c0 = false -> second_bad c0 c1 = false -> cont_bad c1 = false.
Proof.
  intros H0 H1.
  pose proof (guarded_spec _ _ (guarded_spec _ _ second_is_cont_ok c0 H0) c1 H1) as H.
  now apply negb_true_iff in H.
Qed.

(** The bits of [push]. *)
Lemma push_low a c : N.land (push a c) 63 = N.land (byte_val c) 63.
Proof.
  unfold push, utf8.maskx. rewrite N.land_lor_distr_l.
  replace (N.land (N.shiftl a 6) 63) with 0%N.
  - rewrite N.lor_0_l, <- N.land_assoc. reflexivity.
  - change 63%N with (N.ones 6). rewrite N.land_ones, N.shiftl_mul_pow2.
    symmetry. apply N.Div0.mod_mul.
Qed.

Lemma land_63_small b : (N.land b 63 < 64)%N.
Proof.
  change 63%N with (N.ones 6). rewrite N.land_ones. now apply N.mod_lt.
Qed.

Lemma push_high a c : N.shiftr (push a c) 6 = a.
Proof.
  unfold push, utf8.maskx. rewrite N.shiftr_lor.
  rewrite N.shiftr_shiftl_l by reflexivity. cbn [N.sub]. rewrite N.shiftl_0_r.
  replace (N.shiftr (N.land (byte_val c) 63) 6) with 0%N.
  - apply N.lor_0_r.
  - rewrite N.shiftr_div_pow2. symmetry. apply N.div_small. apply land_63_small.
Qed.

Lemma shiftr6_bounds r q :
  N.shiftr r 6 = q -> (64 * q <= r < 64 * q + 64)%N.
Proof.
  intros H. rewrite N.shiftr_div_pow2 in H. change (2 ^ 6)%N with 64%N in H.
  assert (H64 : (64 <> 0)%N) by discriminate.
  pose proof (N.div_mod r 64 H64) as A. pose proof (N.mod_lt r 64 H64) as B.
  rewrite H in A. generalize dependent (r mod 64)%N. intros m A B. lia.
Qed.

Lemma rune3_push c0 c1 c2 :
  rune3 c0 c1 c2 = push (push (N.land (byte_val c0) utf8.mask3) c1) c2.
Proof.
  unfold rune3, push. rewrite N.shiftl_lor, N.shiftl_shiftl. reflexivity.
Qed.

Lemma rune4_push c0 c1 c2 c3 :
  rune4 c0 c1 c2 c3
  = push (push (push (N.land (byte_val c0) utf8.mask4) c1) c2) c3.
Proof.
  unfold rune4, push. rewrite !N.shiftl_lor, !N.shiftl_shiftl. reflexivity.
Qed.

Lemma encode_rune2 c0 c1 :
  lead_single c0 = false ->
  (lead_size c0 <=? 2)%N = true ->
  second_bad c0 c1 = false ->
  utf8.EncodeRune (rune2 c0 c1) = String c0 (String c1 EmptyString).
Proof.
  intros H0 Hs H1.
  assert (Hl : negb (lead2 c0) = false) by (unfold lead2; now rewrite H0, Hs).
  pose proof (guarded_spec _ _ lead2_written_ok c0 Hl) as Hw.
  unfold lead2_written in Hw.
  apply andb_true_iff in Hw. destruct Hw as [Hw Hhi].
  apply andb_true_iff in Hw. destruct Hw as [Hw Hlo].
  apply Ascii.eqb_eq in Hw. apply N.leb_le in Hlo, Hhi.
  change (rune2 c0 c1) with (push (N.land (byte_val c0) 31) c1).
  set (r := push (N.land (byte_val c0) 31) c1).
  pose proof (push_high (N.land (byte_val c0) 31) c1) as Hh. fold r in Hh.
  pose proof (push_low (N.land (byte_val c0) 31) c1) as Hlw. fold r in Hlw.
  pose proof (shiftr6_bounds _ _ Hh) as Hb.
  unfold utf8.EncodeRune, utf8.maskx.
  replace (r <=? 127)%N with false by (symmetry; apply N.leb_gt; lia).
  replace (r <=? 2047)%N with true by (symmetry; apply N.leb_le; lia).
  rewrite Hh, Hlw, Hw.
  now rewrite (cont_written_spec _ (second_is_cont _ _ H0 H1)).
Qed.

Lemma encode_rune3 c0 c1 c2 :
  lead_single c0 = false ->
  (lead_size c0 <=? 2)%N = false ->
  (lead_size c0 <=? 3)%N = true ->
  second_bad c0 c1 = false ->
  cont_bad c2 = false ->
  utf8.EncodeRune (rune3 c0 c1 c2) = String c0 (String c1 (String c2 EmptyString)).
Proof.
  intros H0 Hs2 Hs3 H1 H2.
  assert (Hl : negb (lead3 c0) = false) by (unfold lead3; now rewrite H0, Hs2, Hs3).
  pose proof (guarded_spec _ _ lead3_written_ok c0 Hl) as Hw.
  apply Ascii.eqb_eq in Hw.
  pose proof (guarded_spec _ _ (guarded_spec _ _ second3_range_ok c0 Hl) c1 H1) as Hq.
  unfold second3_range in Hq. cbv zeta in Hq.
  rewrite rune3_push. unfold utf8.mask3.
  set (q := push (N.land (byte_val c0) 15) c1) in *.
  set (r := push q c2).
  apply andb_true_iff in Hq. destruct Hq as [Hq Hsur].
  apply andb_true_iff in Hq. destruct Hq as [Hqlo Hqhi].
  apply N.leb_le in Hqlo, Hqhi.
  pose proof (push_high q c2) as Hh. fold r in Hh.
  pose proof (push_low q c2) as Hlw. fold r in Hlw.
  pose proof (shiftr6_bounds _ _ Hh) as Hb.
  assert (Hh2 : N.shiftr r 12 = N.land (byte_val c0) 15).
  { change 12%N with (6 + 6)%N. rewrite <- N.shiftr_shiftr, Hh. apply push_high. }
  unfold utf8.EncodeRune, utf8.enc3, utf8.maskx, utf8.MaxRune.
  replace (r <=? 127)%N with false by (symmetry; apply N.leb_gt; lia).
  replace (r <=? 2047)%N with false by (symmetry; apply N.leb_gt; lia).
  replace (1114111 <? r)%N with false by (symmetry; apply N.ltb_ge; lia).
  replace ((55296 <=? r)%N && (r <=? 57343)%N) with false.
  2:{ symmetry. apply andb_false_iff. apply orb_true_iff in Hsur.
      destruct Hsur as [Hs|Hs].
      - left. apply N.ltb_lt in Hs. apply N.leb_gt. lia.
      - right. apply N.ltb_lt in Hs. apply N.leb_gt. lia. }
  replace (r <=? 65535)%N with true by (symmetry; apply N.leb_le; lia).
  cbn [orb]. rewrite Hh2, Hh, Hlw, Hw.
  unfold q at 1. rewrite push_low.
  rewrite (cont_written_spec _ (second_is_cont _ _ H0 H1)).
  now rewrite (cont_written_spec _ H2).
Qed.

Lemma encode_rune4 c0 c1 c2 c3 :
  lead_single c0 = false ->
  (lead_size c0 <=? 3)%N = false ->
  second_bad c0 c1 = false ->
  cont_bad c2 = false ->
  cont_bad c3 = false ->
  utf8.EncodeRune (rune4 c0 c1 c2 c3)
  = String c0 (String c1 (String c2 (String c3 EmptyString))).
Proof.
  intros H0 Hs3 H1 H2 H3.
  assert (Hl : negb (lead4 c0) = false) by (unfold lead4; now rewrite H0, Hs3).
  pose proof (guarded_spec _ _ lead4_written_ok c0 Hl) as Hw.
  apply Ascii.eqb_eq in Hw.
  pose proof (guarded_spec _ _ (guarded_spec _ _ second4_range_ok c0 Hl) c1 H1) as Hq.
  unfold second4_range in Hq. cbv zeta in Hq.
  rewrite rune4_push. unfold utf8.mask4.
  set (q := push (N.land (byte_val c0) 7) c1) in *.
  set (q' := push q c2).
  set (r := push q' c3).
  apply andb_true_iff in Hq. destruct Hq as [Hqlo Hqhi].
  apply N.leb_le in Hqlo, Hqhi.
  pose proof (push_high q' c3) as Hh. fold r in Hh.
  pose proof (push_low q' c3) as Hlw. fold r in Hlw.
  pose proof (push_high q c2) as Hh'. fold q' in Hh'.
  pose proof (shiftr6_bounds _ _ Hh) as Hb.
  pose proof (shiftr6_bounds _ _ Hh') as Hb'.
  assert (Hh2 : N.shiftr r 12 = q).
  { change 12%N with (6 + 6)%N. now rewrite <- N.shiftr_shiftr, Hh. }
  assert (Hh3 : N.shiftr r 18 = N.land (byte_val c0) 7).
  { change 18%N with (12 + 6)%N. rewrite <- N.shiftr_shiftr, Hh2. apply push_high. }
  unfold utf8.EncodeRune, utf8.maskx, utf8.MaxRune.
  replace (r <=? 127)%N with false by (symmetry; apply N.leb_gt; lia).
  replace (r <=? 2047)%N with false by (symmetry; apply N.leb_gt; lia).
  replace (1114111 <? r)%N with false by (symmetry; apply N.ltb_ge; lia).
  replace (r <=? 57343)%N with false by (symmetry; apply N.leb_gt; lia).
  replace (r <=? 65535)%N with false by (symmetry; apply N.leb_gt; lia).
  rewrite andb_false_r. cbn [orb].
  rewrite Hh3, Hh2, Hh, Hlw, Hw.
  unfold q' at 1. rewrite push_low. unfold q at 1. rewrite push_low.
  rewrite (cont_written_spec _ (second_is_cont _ _ H0 H1)).
  rewrite (cont_written_spec _ H2).
  now rewrite (cont_written_spec _ H3).
Qed.

Lemma DecodeRune_cases s :
  (exists r, utf8.DecodeRune s = (r, 0)) \/
  (exists r, utf8.DecodeRune s = (r, 1)) \/
  (exists r n, utf8.DecodeRune s = (r, n) /\ decoded s r n).
Proof.
  destruct s as [|c0 t0]; [left; now eexists|].
  unfold utf8.DecodeRune.
  fold (lead_single c0). destruct (lead_single c0) eqn:H0;
    [right; left; now eexists|].
  destruct t0 as [|c1 t1]; [right; left; now eexists|].
  fold (second_bad c0 c1). destruct (second_bad c0 c1) eqn:H1;
    [right; left; now eexists|].
  fold (lead_size c0). destruct (lead_size c0 <=? 2)%N eqn:Hs2.
  { right; right. do 2 eexists. split; [reflexivity|]. now constructor. }
  destruct t1 as [|c2 t2]; [right; left; now eexists|].
  fold (cont_bad c2). destruct (cont_bad c2) eqn:H2;
    [right; left; now eexists|].
  destruct (lead_size c0 <=? 3)%N eqn:Hs3.
  { right; right. do 2 eexists. split; [reflexivity|]. now constructor. }
  destruct t2 as [|c3 t3]; [right; left; now eexists|].
  fold (cont_bad c3). destruct (cont_bad c3) eqn:H3;
    [right; left; now eexists|].
  right; right. do 2 eexists. split; [reflexivity|]. now constructor.
Qed.

(** ** Strings: appending *)

Lemma append_assoc (a b c : string) : ((a ++ b) ++ c = a ++ (b ++ c))%string.
Proof. induction a as [|x a IH]; cbn; [reflexivity|now rewrite IH]. Qed.

Lemma append_nil_r (a : string) : (a ++ EmptyString)%string = a.
Proof. induction a as [|x a IH]; cbn; [reflexivity|now rewrite IH]. Qed.

Lemma length_append (a b : string) :
  String.length (a ++ b) = String.length a + String.length b.
Proof. induction a as [|x a IH]; cbn; [reflexivity|now rewrite IH]. Qed.

(** ** A string that is valid UTF-8 is read back as it was written *)

Lemma decoded_DecodeRune s r n : decoded s r n -> utf8.DecodeRune s = (r, n).
Proof.
  intros H. destruct H; unfold utf8.DecodeRune.
  - fold (lead_single c0). rewrite H. fold (second_bad c0 c1). rewrite H1.
    fold (lead_size c0). rewrite H0. reflexivity.
  - fold (lead_single c0). rewrite H. fold (second_bad c0 c1). rewrite H2.
    fold (lead_size c0). rewrite H0. fold (cont_bad c2). rewrite H3, H1.
    reflexivity.
  - fold (lead_single c0). rewrite H. fold (second_bad c0 c1). rewrite H1.
    fold (lead_size c0).
    assert (Hs2 : (lead_size c0 <=? 2)%N = false).
    { apply N.leb_gt. apply N.leb_gt in H0. lia. }
    rewrite Hs2. fold (cont_bad c2). rewrite H2, H0.
    fold (cont_bad c3). rewrite H3. reflexivity.
Qed.

(** An ASCII byte, written as itself or as its escape, is read back. *)
Lemma scan_ascii c0 X :
  (byte_val c0 <? utf8.RuneSelf)%N = true ->
  json.scan_string
    ((if json.htmlSafeSet (byte_val c0) then String c0 EmptyString
      else json.escape_byte c0) ++ X)
  = json.prepend (String c0 EmptyString) (json.scan_string X).
Proof.
  destruct c0 as [[] [] [] [] [] [] [] []]; intros H;
    first [ discriminate H | reflexivity ].
Qed.

Lemma string_body_ascii c0 t0 :
  (byte_val c0 <? utf8.RuneSelf)%N = true ->
  json.string_body (String c0 t0)
  = ((if json.htmlSafeSet (byte_val c0) then String c0 EmptyString
      else json.escape_byte c0) ++ json.string_body t0)%string.
Proof.
  intros H. cbn [json.string_body]. rewrite H. reflexivity.
Qed.

Lemma scan_string_multi c0 t0 :
  (byte_val c0 <? utf8.RuneSelf)%N = false ->
  json.scan_string (String c0 t0)
  = match utf8.DecodeRune (String c0 t0), t0 with
    | (rr, 2), String _ t1 => json.prepend (utf8.EncodeRune rr) (json.scan_string t1)
    | (rr, 3), String _ (String _ t2) =>
      json.prepend (utf8.EncodeRune rr) (json.scan_string t2)
    | (rr, 4), String _ (String _ (String _ t3)) =>
      json.prepend (utf8.EncodeRune rr) (json.scan_string t3)
    | (rr, _), _ => json.prepend (utf8.EncodeRune rr) (json.scan_string t0)
    end.
Proof.
  intros H. cbn [json.scan_string]. rewrite H.
  unfold utf8.RuneSelf in H. apply N.ltb_ge in H.
  assert (H34 : (byte_val c0 =? 34)%N = false) by (apply N.eqb_neq; lia).
  assert (H92 : (byte_val c0 =? 92)%N = false) by (apply N.eqb_neq; lia).
  assert (H32 : (byte_val c0 <? 32)%N = false) by (apply N.ltb_ge; lia).
  rewrite H34, H92, H32. reflexivity.
Qed.

(** The escape of [U+2028] and of [U+2029] is read back as the rune. *)
Lemma scan_u202 r X :
  r = 8232%N \/ r = 8233%N ->
  json.scan_string
    (json.escaped_u202 ++ String (json.hex_digit (N.land r 15)) X)
  = json.prepend (utf8.EncodeRune r) (json.scan_string X).
Proof. intros [-> | ->]; reflexivity. Qed.

Lemma scan_string_written s :
  utf8.ValidString s = true ->
  forall rest,
    json.scan_string (json.string_body s ++ String dquote rest) = Some (s, rest).
Proof.
  remember (String.length s) as n eqn:Hn.
  assert (Hle : String.length s <= n) by lia. clear Hn.
  revert s Hle. induction n as [|n IH]; intros s Hle Hv rest.
  - destruct s; [reflexivity|cbn in Hle; lia].
  - destruct s as [|c0 t0]; [reflexivity|].
    cbn [String.length] in Hle.
    destruct (byte_val c0 <? utf8.RuneSelf)%N eqn:Hb.
    + rewrite (string_body_ascii _ _ Hb), append_assoc, (scan_ascii _ _ Hb).
      cbn [utf8.ValidString] in Hv. rewrite Hb in Hv.
      rewrite (IH t0); [reflexivity|lia|exact Hv].
    + cbn [utf8.ValidString json.string_body] in *. rewrite Hb in *.
      destruct (DecodeRune_cases (String c0 t0))
        as [[r Hd]|[[r Hd]|(r & k & Hd & Hdec)]].
      * rewrite Hd in Hv. discriminate Hv.
      * rewrite Hd in Hv. discriminate Hv.
      * rewrite Hd in *. inversion Hdec; subst; clear Hdec.
        -- (* two bytes *)
           cbn [String.append String.length] in *.
           rewrite (scan_string_multi _ _ Hb).
           match goal with
           | A : lead_single ?a = false, B : (lead_size ?a <=? 2)%N = true,
             C : second_bad ?a ?b = false |- _ =>
             rewrite (decoded_DecodeRune _ _ _
                        (decoded2 a b (json.string_body t ++ String dquote rest) A B C));
             rewrite (encode_rune2 _ _ A B C)
           end.
           rewrite (IH t); [reflexivity|lia|exact Hv].
        -- (* three bytes *)
           cbn [String.length] in *.
           match goal with
           | A : lead_single ?a = false, B : (lead_size ?a <=? 2)%N = false,
             C : (lead_size ?a <=? 3)%N = true,
             D : second_bad ?a ?b = false, E : cont_bad ?c = false |- _ =>
             pose proof (encode_rune3 _ _ _ A B C D E) as Henc;
             pose proof (decoded_DecodeRune _ _ _
                           (decoded3 a b c (json.string_body t ++ String dquote rest)
                              A B C D E)) as Hd';
             destruct ((rune3 a b c =? 8232) || (rune3 a b c =? 8233))%N eqn:Hsep
           end.
           ++ rewrite append_assoc. cbn [String.append].
              rewrite scan_u202.
              ** rewrite Henc.
                 rewrite (IH t); [reflexivity|lia|exact Hv].
              ** apply orb_true_iff in Hsep.
                 destruct Hsep as [Hs|Hs]; apply N.eqb_eq in Hs; auto.
           ++ cbn [String.append].
              rewrite (scan_string_multi _ _ Hb), Hd', Henc.
              rewrite (IH t); [reflexivity|lia|exact Hv].
        -- (* four bytes *)
           cbn [String.append String.length] in *.
           rewrite (scan_string_multi _ _ Hb).
           match goal with
           | A : lead_single ?a = false, B : (lead_size ?a <=? 3)%N = false,
             D : second_bad ?a ?b = false, E : cont_bad ?c = false,
             F : cont_bad ?d = false |- _ =>
             rewrite (decoded_DecodeRune _ _ _
                        (decoded4 a b c d (json.string_body t ++ String dquote rest)
                           A B D E F));
             rewrite (encode_rune4 _ _ _ _ A B D E F)
           end.
           rewrite (IH t); [reflexivity|lia|exact Hv].
Qed.

(** ** A message is decoded as it was encoded *)

Lemma Valid_from_scan data v k :
  (forall fuel, k <= fuel -> json.scan_value fuel 0 data = Some (v, EmptyString)) ->
  k <= 2 * String.length data + 2 ->
  json.Valid data = Some v.
Proof.
  intros H Hk. unfold json.Valid. now rewrite (H _ Hk).
Qed.

Lemma encode_string_app s rest :
  (json.encode_string s ++ rest)%string
  = String dquote (json.string_body s ++ String dquote rest).
Proof.
  unfold json.encode_string. cbn [String.append]. now rewrite append_assoc.
Qed.

(** A string value. *)
Lemma scan_value_string fuel depth s rest :
  utf8.ValidString s = true ->
  json.scan_value (S fuel) depth (json.encode_string s ++ rest)
  = Some (json.Str s, rest).
Proof.
  intros Hv. rewrite encode_string_app.
  cbn [json.scan_value]. cbn. now rewrite (scan_string_written _ Hv).
Qed.

(** A member followed by another, and the last member of an object. *)
Lemma scan_members_cons fuel depth key text v text' ms rest :
  utf8.ValidString key = true ->
  json.scan_value fuel depth text = Some (v, String "," text') ->
  json.scan_members fuel depth text' = Some (ms, rest) ->
  json.scan_members (S fuel) depth (json.encode_string key ++ String ":" text)
  = Some ((key, v) :: ms, rest).
Proof.
  intros Hk Hv Hm. rewrite encode_string_app.
  cbn [json.scan_members]. cbn. rewrite (scan_string_written _ Hk). cbn.
  rewrite Hv. cbn. now rewrite Hm.
Qed.

Lemma scan_members_last fuel depth key text v rest :
  utf8.ValidString key = true ->
  json.scan_value fuel depth text = Some (v, String "}" rest) ->
  json.scan_members (S fuel) depth (json.encode_string key ++ String ":" text)
  = Some ([(key, v)], rest).
Proof.
  intros Hk Hv. rewrite encode_string_app.
  cbn [json.scan_members]. cbn. rewrite (scan_string_written _ Hk). cbn.
  now rewrite Hv.
Qed.

(** An object that has members: its text starts with the quote of a key. *)
Lemma scan_value_object fuel key text ms rest :
  json.scan_members fuel 1 (json.encode_string key ++ text) = Some (ms, rest) ->
  json.scan_value (S fuel) 0 (String "{" (json.encode_string key ++ text))
  = Some (json.Object ms, rest).
Proof.
  intros Hm. cbn [json.scan_value]. rewrite encode_string_app in *.
  cbn in *. now rewrite Hm.
Qed.

Lemma Marshal_processMessage_text id rt :
  Marshal_processMessage {| ImageID := id; pm_ReplyToken := rt |}
  = String "{"
      (json.encode_string "ImageID" ++ String ":"
         (json.encode_string id ++ String ","
            (json.encode_string "ReplyToken" ++ String ":"
               (json.encode_string rt ++ String "}" EmptyString)))).
Proof.
  unfold Marshal_processMessage, json.encode_struct, json.encode_field.
  cbn [map fst snd json.comma_separated ImageID pm_ReplyToken].
  rewrite !append_assoc. reflexivity.
Qed.

Lemma Valid_processMessage id rt :
  utf8.ValidString id = true ->
  utf8.ValidString rt = true ->
  json.Valid (Marshal_processMessage {| ImageID := id; pm_ReplyToken := rt |})
  = Some (json.Object [("ImageID", json.Str id); ("ReplyToken", json.Str rt)]).
Proof.
  intros Hi Hr. rewrite Marshal_processMessage_text.
  apply (Valid_from_scan _ _ 4).
  - intros fuel Hf. do 4 (destruct fuel as [|fuel]; [lia|]).
    apply scan_value_object.
    apply (scan_members_cons _ _ _ _ (json.Str id)
             (json.encode_string "ReplyToken" ++ String ":"
                (json.encode_string rt ++ String "}" EmptyString))).
    + reflexivity.
    + now apply scan_value_string.
    + apply scan_members_last; [reflexivity|now apply scan_value_string].
  - cbn [String.length]. lia.
Qed.

(** The elements of an array of strings. *)
Lemma scan_elements_strings labels :
  labels <> [] ->
  Forall (fun l => utf8.ValidString l = true) labels ->
  forall fuel depth rest,
    List.length labels + 1 <= fuel ->
    json.scan_elements fuel depth
      (json.comma_separated (map json.encode_string labels) ++ String "]" rest)
    = Some (map json.Str labels, rest).
Proof.
  induction labels as [|x [|y l] IH]; intros Hne Hv fuel depth rest Hf.
  - now elim Hne.
  - cbn [List.length] in Hf. do 2 (destruct fuel as [|fuel]; [lia|]).
    inversion_clear Hv as [|? ? Hx _].
    cbn [map json.comma_separated json.scan_elements].
    rewrite (scan_value_string _ _ _ _ Hx). reflexivity.
  - cbn [List.length] in Hf. do 2 (destruct fuel as [|fuel]; [lia|]).
    inversion_clear Hv as [|? ? Hx Hl].
    change (json.comma_separated (map json.encode_string (x :: y :: l)))
      with (json.encode_string x ++ "," ++ json.comma_separated (map json.encode_string (y :: l)))%string.
    rewrite !append_assoc.
    pose proof (scan_value_string fuel depth x
                  ("," ++ json.comma_separated (map json.encode_string (y :: l))
                       ++ String "]" rest) Hx) as Hsv.
    pose proof (IH ltac:(discriminate) Hl (S fuel) depth rest
                  ltac:(cbn [List.length]; lia)) as Hrest.
    remember (S fuel) as f1 eqn:Hf1.
    cbn [json.scan_elements]. rewrite Hsv.
    cbn -[json.comma_separated json.scan_elements json.encode_string map].
    rewrite Hrest. reflexivity.
Qed.

Lemma comma_separated_head x l :
  exists t,
    json.comma_separated (map json.encode_string (x :: l)) = String dquote t.
Proof.
  destruct l as [|y l]; cbn [map json.comma_separated]; unfold json.encode_string;
    cbn [String.append]; eexists; reflexivity.
Qed.

Lemma scan_value_labels labels fuel rest :
  Forall (fun l => utf8.ValidString l = true) (elems_of labels) ->
  List.length (elems_of labels) + 2 <= fuel ->
  json.scan_value fuel 1
    (json.encode_slice json.encode_string labels ++ String "}" rest)
  = Some (labels_value labels, String "}" rest).
Proof.
  intros Hv Hf. destruct labels as [|[|x l]].
  - destruct fuel as [|fuel]; [cbn in Hf; lia|]. reflexivity.
  - destruct fuel as [|fuel]; [cbn in Hf; lia|]. reflexivity.
  - cbn [elems_of] in *. destruct fuel as [|fuel]; [lia|].
    unfold json.encode_slice, labels_value.
    rewrite !append_assoc. cbn [String.append].
    pose proof (scan_elements_strings (x :: l) ltac:(discriminate) Hv
                  fuel 2%N (String "}" rest) ltac:(lia)) as He.
    destruct (comma_separated_head x l) as [t Hc]. rewrite Hc in *.
    cbn [json.scan_value]. cbn. cbn in He. now rewrite He.
Qed.

Lemma Marshal_sendMessage_text rt labels :
  Marshal_sendMessage {| sm_ReplyToken := rt; Labels := labels |}
  = String "{"
      (json.encode_string "ReplyToken" ++ String ":"
         (json.encode_string rt ++ String ","
            (json.encode_string "Labels" ++ String ":"
               (json.encode_slice json.encode_string labels ++ String "}" EmptyString)))).
Proof.
  unfold Marshal_sendMessage, json.encode_struct, json.encode_field.
  cbn [map fst snd json.comma_separated sm_ReplyToken Labels].
  rewrite !append_assoc. reflexivity.
Qed.

Lemma length_comma_separated labels :
  List.length labels
  <= String.length (json.comma_separated (map json.encode_string labels)).
Proof.
  induction labels as [|x [|y l] IH].
  - cbn. lia.
  - cbn. lia.
  - change (json.comma_separated (map json.encode_string (x :: y :: l)))
      with (json.encode_string x ++ "," ++ json.comma_separated (map json.encode_string (y :: l)))%string.
    rewrite !length_append. cbn [List.length] in *. unfold json.encode_string at 1.
    cbn [String.length]. lia.
Qed.

Lemma Valid_sendMessage rt labels :
  utf8.ValidString rt = true ->
  Forall (fun l => utf8.ValidString l = true) (elems_of labels) ->
  json.Valid (Marshal_sendMessage {| sm_ReplyToken := rt; Labels := labels |})
  = Some (json.Object [("ReplyToken", json.Str rt); ("Labels", labels_value labels)]).
Proof.
  intros Hr Hl. rewrite Marshal_sendMessage_text.
  apply (Valid_from_scan _ _ (List.length (elems_of labels) + 5)).
  - intros fuel Hf. do 3 (destruct fuel as [|fuel]; [lia|]).
    apply scan_value_object.
    apply (scan_members_cons _ _ _ _ (json.Str rt)
             (json.encode_string "Labels" ++ String ":"
                (json.encode_slice json.encode_string labels ++ String "}" EmptyString))).
    + reflexivity.
    + now apply scan_value_string.
    + apply scan_members_last; [reflexivity|].
      apply scan_value_labels; [exact Hl|lia].
  - rewrite !encode_string_app. cbn [String.length]. rewrite !length_append.
    cbn [String.length]. rewrite !length_append. cbn [String.length].
    destruct labels as [|l]; cbn [elems_of List.length json.encode_slice String.length].
    + lia.
    + repeat first [rewrite length_append | progress cbn [String.length]].
      pose proof (length_comma_separated l). lia.
Qed.

Lemma store_elements_strings zero labels :
  json.store_elements json.store_string zero (map json.Str labels) [] = Some labels.
Proof.
  induction labels as [|x l IH]; [reflexivity|].
  cbn [map json.store_elements json.store_string tl]. now rewrite IH.
Qed.

Lemma Unmarshal_Marshal_processMessage fold m :
  valid_processMessage m ->
  Unmarshal_processMessage fold (Marshal_processMessage m) = inl m.
Proof.
  destruct m as [id rt]. intros [Hi Hr]. cbn in Hi, Hr.
  unfold Unmarshal_processMessage, json.Unmarshal.
  rewrite (Valid_processMessage _ _ Hi Hr). reflexivity.
Qed.

Lemma Unmarshal_Marshal_sendMessage fold m :
  valid_sendMessage m ->
  Unmarshal_sendMessage fold (Marshal_sendMessage m) = inl m.
Proof.
  destruct m as [rt labels]. intros [Hr Hl]. cbn in Hr, Hl.
  unfold Unmarshal_sendMessage, json.Unmarshal.
  rewrite (Valid_sendMessage _ _ Hr Hl).
  destruct labels as [|[|x l]]; try reflexivity.
  unfold store_sendMessage, json.store_struct, labels_value.
  cbn -[json.store_elements map]. 
  rewrite (store_elements_strings EmptyString (x :: l)). reflexivity.
Qed.

(** C7 fails as stated: a ProcessMessage whose image identifier is not
    valid UTF-8 is not decoded as it was: the encoder writes the byte as
    the escape of [U+FFFD], and the decoder reads the three bytes of that
    rune. *)
Lemma invalid_utf8_is_not_preserved :
  Unmarshal_processMessage ascii_equalFold (Marshal_processMessage message_with_bad_byte)
  = inl {| ImageID := utf8.EncodeRune utf8.RuneError; pm_ReplyToken := "r1" |}
  /\ Unmarshal_processMessage ascii_equalFold
       (Marshal_processMessage message_with_bad_byte)
     <> inl message_with_bad_byte.
Proof.
  split; [reflexivity|]. vm_compute. discriminate.
Qed.

(** C7 (amended).  A ProcessMessage and a SendMessage whose strings are
    valid UTF-8 are decoded from their JSON serialization as the values
    that were serialized: the image identifier, the reply token and the
    labels are the same, a nil list of labels stays nil and an empty one
    stays empty. *)
Theorem message_round_trip fold (pm : processMessage) (sm : sendMessage) :
  valid_processMessage pm ->
  valid_sendMessage sm ->
  Unmarshal_processMessage fold (Marshal_processMessage pm) = inl pm
  /\ Unmarshal_sendMessage fold (Marshal_sendMessage sm) = inl sm.
Proof.
  intros Hp Hs. split.
  - now apply Unmarshal_Marshal_processMessage.
  - now apply Unmarshal_Marshal_sendMessage.
Qed.

Lemma message_round_trip_witness :
  Unmarshal_processMessage ascii_equalFold
    (Marshal_processMessage {| ImageID := "img1"; pm_ReplyToken := "r1" |})
  = inl {| ImageID := "img1"; pm_ReplyToken := "r1" |}
  /\ Unmarshal_sendMessage ascii_equalFold
       (Marshal_sendMessage
          {| sm_ReplyToken := "r1"; Labels := mk_slice ["cat"; "outdoor"] |})
     = inl {| sm_ReplyToken := "r1"; Labels := mk_slice ["cat"; "outdoor"] |}.
Proof.
  apply (message_round_trip ascii_equalFold
           {| ImageID := "img1"; pm_ReplyToken := "r1" |}
           {| sm_ReplyToken := "r1"; Labels := mk_slice ["cat"; "outdoor"] |}).
  - split; reflexivity.
  - split; [reflexivity|]. repeat constructor.
Defined.

(** ** The bytes written for a rune are valid UTF-8 *)

Lemma guarded2_spec keep f :
  guarded2 keep f = true -> forall cx cy, keep cx cy = true -> f cx cy = true.
Proof.
  unfold guarded2. intros H cx cy Hk.
  pose proof (forall_ascii_spec _ (forall_ascii_spec _ H cx) cy) as H'.
  cbv beta in H'. now rewrite Hk in H'.
Qed.

Lemma cont_formed_ok : guarded (fun c => negb (six_bits c)) cont_formed = true.
Proof. vm_compute. reflexivity. Qed.

Lemma formed2_ok :
  guarded2 (fun cx cy => in_range2 cx && six_bits cy) formed2 = true.
Proof. vm_compute. reflexivity. Qed.

Lemma formed3_ok : guarded2 in_range3 formed3 = true.
Proof. vm_compute. reflexivity. Qed.

Lemma formed4_ok : guarded2 in_range4 formed4 = true.
Proof. vm_compute. reflexivity. Qed.

Lemma byte_val_of n : (n < 256)%N -> byte_val (byte_of n) = n.
Proof.
  intros H. unfold byte_val, byte_of. rewrite N.mod_small by exact H.
  now apply N_ascii_embedding.
Qed.

Lemma split6 q :
  q = (64 * N.shiftr q 6 + N.land q 63)%N /\ (N.land q 63 < 64)%N.
Proof.
  rewrite N.shiftr_div_pow2. change 63%N with (N.ones 6). rewrite N.land_ones.
  change (2 ^ 6)%N with 64%N.
  assert (H64 : (64 <> 0)%N) by discriminate.
  split; [now apply N.div_mod|now apply N.mod_lt].
Qed.

Lemma lead_single_not_ascii c :
  lead_single c = false -> (byte_val c <? utf8.RuneSelf)%N = false.
Proof.
  unfold lead_single, utf8.first, utf8.RuneSelf.
  destruct (byte_val c <? 128)%N; [discriminate|reflexivity].
Qed.

(** A well-formed encoding at the head of a string is skipped by
    [utf8.ValidString]. *)
Lemma ValidString_decoded s r n :
  decoded s r n ->
  match n, s with
  | 2, String _ (String _ t) => utf8.ValidString s = utf8.ValidString t
  | 3, String _ (String _ (String _ t)) => utf8.ValidString s = utf8.ValidString t
  | 4, String _ (String _ (String _ (String _ t))) =>
    utf8.ValidString s = utf8.ValidString t
  | _, _ => False
  end.
Proof.
  intros H. pose proof (decoded_DecodeRune _ _ _ H) as Hd.
  destruct H as [c0 c1 t H0|c0 c1 c2 t H0|c0 c1 c2 c3 t H0];
    cbn [utf8.ValidString]; rewrite (lead_single_not_ascii _ H0), Hd; reflexivity.
Qed.

Ltac to_arith :=
  repeat match goal with
  | H : (_ <=? _)%N = true |- _ => apply N.leb_le in H
  | H : (_ <=? _)%N = false |- _ => apply N.leb_gt in H
  | H : (_ <? _)%N = true |- _ => apply N.ltb_lt in H
  | H : (_ <? _)%N = false |- _ => apply N.ltb_ge in H
  | H : (_ || _) = false |- _ => apply orb_false_iff in H; destruct H
  | H : (_ && _) = true |- _ => apply andb_true_iff in H; destruct H
  end.

Ltac to_bool :=
  repeat match goal with
  | |- (_ && _) = true => apply andb_true_iff; split
  | |- (_ <=? _)%N = true => apply N.leb_le
  | |- (_ <? _)%N = true => apply N.ltb_lt
  end.

Lemma cont_valid y : (y < 64)%N -> cont_bad (byte_of (N.lor 128 y)) = false.
Proof.
  intros Hy.
  assert (Hs : negb (six_bits (byte_of y)) = false).
  { unfold six_bits. rewrite byte_val_of by lia.
    apply negb_false_iff. apply N.leb_le. lia. }
  pose proof (guarded_spec _ _ cont_formed_ok (byte_of y) Hs) as H.
  unfold cont_formed, cont_of in H. rewrite byte_val_of in H by lia.
  now apply negb_true_iff in H.
Qed.

Lemma EncodeRune_valid r t :
  utf8.ValidString (utf8.EncodeRune r ++ t) = utf8.ValidString t.
Proof.
  unfold utf8.EncodeRune, utf8.maskx, utf8.MaxRune.
  destruct (r <=? 127)%N eqn:H1.
  { to_arith. cbn [String.append utf8.ValidString].
    rewrite byte_val_of by lia.
    replace (r <? utf8.RuneSelf)%N with true; [reflexivity|].
    symmetry. apply N.ltb_lt. unfold utf8.RuneSelf. lia. }
  destruct (r <=? 2047)%N eqn:H2.
  { to_arith. destruct (split6 r) as [Hr Hy].
    set (x := N.shiftr r 6) in *. set (y := N.land r 63) in *.
    assert (Hk : in_range2 (byte_of x) && six_bits (byte_of y) = true).
    { unfold in_range2, six_bits. rewrite !byte_val_of by lia. to_bool; lia. }
    pose proof (guarded2_spec _ _ formed2_ok _ _ Hk) as Hf.
    unfold formed2, cont_of in Hf. rewrite !byte_val_of in Hf by lia.
    apply andb_true_iff in Hf. destruct Hf as [Hl Hs].
    apply negb_true_iff in Hs. unfold lead2 in Hl.
    apply andb_true_iff in Hl. destruct Hl as [Hl0 Hl2].
    apply negb_true_iff in Hl0.
    cbn [String.append].
    exact (ValidString_decoded _ _ _ (decoded2 _ _ t Hl0 Hl2 Hs)). }
  destruct ((1114111 <? r)%N || (55296 <=? r)%N && (r <=? 57343)%N) eqn:H3.
  { reflexivity. }
  destruct (r <=? 65535)%N eqn:H4.
  { unfold utf8.enc3, utf8.maskx.
    apply orb_false_iff in H3. destruct H3 as [_ Hsur].
    destruct (split6 r) as [Hr Hz].
    destruct (split6 (N.shiftr r 6)) as [Hq Hy].
    rewrite N.shiftr_shiftr in Hq. change (6 + 6)%N with 12%N in Hq.
    set (q := N.shiftr r 6) in *. set (x := N.shiftr r 12) in *.
    set (y := N.land q 63) in *. set (z := N.land r 63) in *.
    to_arith.
    assert (Hk : in_range3 (byte_of x) (byte_of y) = true).
    { unfold in_range3, six_bits. cbv zeta. rewrite !byte_val_of by lia.
      to_bool; try lia.
      apply andb_false_iff in Hsur. apply orb_true_iff.
      destruct Hsur as [Hs|Hs]; to_arith; [left|right]; apply N.ltb_lt; lia. }
    pose proof (guarded2_spec _ _ formed3_ok _ _ Hk) as Hf.
    unfold formed3, cont_of in Hf. rewrite !byte_val_of in Hf by lia.
    apply andb_true_iff in Hf. destruct Hf as [Hl Hs].
    apply negb_true_iff in Hs. unfold lead3 in Hl.
    apply andb_true_iff in Hl. destruct Hl as [Hl Hl3].
    apply andb_true_iff in Hl. destruct Hl as [Hl0 Hl2].
    apply negb_true_iff in Hl0, Hl2.
    cbn [String.append].
    exact (ValidString_decoded _ _ _
             (decoded3 _ _ _ t Hl0 Hl2 Hl3 Hs (cont_valid z Hz))). }
  { apply orb_false_iff in H3. destruct H3 as [Hmax _].
    destruct (split6 r) as [Hr Hz].
    destruct (split6 (N.shiftr r 6)) as [Hq1 Hy2].
    destruct (split6 (N.shiftr r 12)) as [Hq2 Hy].
    rewrite N.shiftr_shiftr in Hq1. change (6 + 6)%N with 12%N in Hq1.
    rewrite N.shiftr_shiftr in Hq2. change (12 + 6)%N with 18%N in Hq2.
    set (q1 := N.shiftr r 6) in *. set (q2 := N.shiftr r 12) in *.
    set (x := N.shiftr r 18) in *.
    set (y := N.land q2 63) in *. set (y2 := N.land q1 63) in *.
    set (z := N.land r 63) in *.
    to_arith.
    assert (Hk : in_range4 (byte_of x) (byte_of y) = true).
    { unfold in_range4, six_bits. cbv zeta. rewrite !byte_val_of by lia.
      to_bool; lia. }
    pose proof (guarded2_spec _ _ formed4_ok _ _ Hk) as Hf.
    unfold formed4, cont_of in Hf. rewrite !byte_val_of in Hf by lia.
    apply andb_true_iff in Hf. destruct Hf as [Hl Hs].
    apply negb_true_iff in Hs. unfold lead4 in Hl.
    apply andb_true_iff in Hl. destruct Hl as [Hl0 Hl3].
    apply negb_true_iff in Hl0, Hl3.
    cbn [String.append].
    exact (ValidString_decoded _ _ _
             (decoded4 _ _ _ _ t Hl0 Hl3 Hs (cont_valid y2 Hy2) (cont_valid z Hz))). }
Qed.

(** ** The strings the decoder reads are valid UTF-8 *)

Lemma prepend_inv p r str rest :
  json.prepend p r = Some (str, rest) ->
  exists s', r = Some (s', rest) /\ str = (p ++ s')%string.
Proof.
  destruct r as [[s' rest']|]; cbn; [|discriminate].
  intros H. injection H as <- <-. now exists s'.
Qed.

Lemma ValidString_ascii c t :
  (byte_val c <? utf8.RuneSelf)%N = true ->
  utf8.ValidString (String c t) = utf8.ValidString t.
Proof. intros H. cbn [utf8.ValidString]. now rewrite H. Qed.

Lemma simple_escape_ascii e ch :
  json.simple_escape e = Some ch -> (byte_val ch <? utf8.RuneSelf)%N = true.
Proof.
  unfold json.simple_escape.
  destruct ((byte_val e =? 34) || (byte_val e =? 92) || (byte_val e =? 47))%N eqn:H.
  - intros Hc. injection Hc as <-. apply N.ltb_lt. unfold utf8.RuneSelf.
    apply orb_true_iff in H. destruct H as [H|H].
    + apply orb_true_iff in H. destruct H as [H|H]; apply N.eqb_eq in H; lia.
    + apply N.eqb_eq in H. lia.
  - repeat match goal with
           | |- context [if ?b then _ else _] => destruct b
           end; intros Hc; try discriminate Hc; injection Hc as <-; reflexivity.
Qed.

Lemma scan_string_valid s str rest :
  json.scan_string s = Some (str, rest) -> utf8.ValidString str = true.
Proof.
  remember (String.length s) as n eqn:Hn.
  assert (Hle : String.length s <= n) by lia. clear Hn.
  revert s str rest Hle. induction n as [|n IH]; intros s str rest Hle Hs.
  - destruct s; [discriminate Hs|cbn in Hle; lia].
  - destruct s as [|c0 t0]; [discriminate Hs|].
    cbn [String.length] in Hle. cbn [json.scan_string] in Hs.
    assert (Hstep : forall p t,
               String.length t <= n ->
               (forall x, utf8.ValidString (p ++ x) = utf8.ValidString x) ->
               json.prepend p (json.scan_string t) = Some (str, rest) ->
               utf8.ValidString str = true).
    { intros p t Ht Hp Hpre. apply prepend_inv in Hpre.
      destruct Hpre as (s' & Hs' & ->). rewrite Hp. exact (IH _ _ _ Ht Hs'). }
    assert (Hrune : forall r x,
               utf8.ValidString (utf8.EncodeRune r ++ x) = utf8.ValidString x)
      by apply EncodeRune_valid.
    destruct (byte_val c0 =? 34)%N; [injection Hs as <- _; reflexivity|].
    destruct (byte_val c0 =? 92)%N.
    { destruct t0 as [|e t1]; [discriminate Hs|]. cbn [String.length] in Hle.
      destruct (json.simple_escape e) as [ch|] eqn:He.
      { eapply Hstep; [| |exact Hs]; [lia|intro x; apply ValidString_ascii, (simple_escape_ascii _ _ He)]. }
      destruct (byte_val e =? 117)%N; [|discriminate Hs].
      destruct t1 as [|h1 [|h2 [|h3 [|h4 t5]]]]; try discriminate Hs.
      cbn [String.length] in Hle.
      destruct (json.getu4 h1 h2 h3 h4) as [rr|]; [|discriminate Hs].
      destruct (utf16.IsSurrogate rr).
      - destruct t5 as [|e0 [|e1 [|g1 [|g2 [|g3 [|g4 t11]]]]]];
          try (eapply Hstep; [| |exact Hs]; [cbn [String.length]; lia|apply Hrune]).
        cbn [String.length] in Hle.
        destruct (json.next_u4 _) as [[rr1 ?]|].
        + destruct (utf16.DecodeRune rr rr1 =? utf8.RuneError)%N.
          * (eapply Hstep; [| |exact Hs]; [cbn [String.length]; lia|apply Hrune]).
          * (eapply Hstep; [| |exact Hs]; [cbn [String.length]; lia|apply Hrune]).
        + (eapply Hstep; [| |exact Hs]; [cbn [String.length]; lia|apply Hrune]).
      - (eapply Hstep; [| |exact Hs]; [cbn [String.length]; lia|apply Hrune]). }
    destruct (byte_val c0 <? 32)%N; [discriminate Hs|].
    destruct (byte_val c0 <? utf8.RuneSelf)%N eqn:Hb.
    { eapply Hstep; [| |exact Hs]; [lia|intro x; now apply ValidString_ascii]. }
    destruct (utf8.DecodeRune (String c0 t0)) as [rr [|[|[|[|[|k]]]]]];
      destruct t0 as [|c1 [|c2 [|c3 t3]]]; cbn [String.length] in Hle;
      (eapply Hstep; [| |exact Hs]; [cbn [String.length]; lia|apply Hrune]).
Qed.

Ltac case_in H :=
  match type of H with
  | context [match ?x with _ => _ end] =>
    lazymatch x with
    | context [match _ with _ => _ end] => fail
    | _ => destruct x eqn:?
    end
  | context [if ?x then _ else _] =>
    lazymatch x with
    | context [if _ then _ else _] => fail
    | _ => destruct x eqn:?
    end
  end.

Lemma scan_valid fuel :
  (forall depth s v rest,
      json.scan_value fuel depth s = Some (v, rest) -> valid_value v)
  /\ (forall depth s vs rest,
         json.scan_elements fuel depth s = Some (vs, rest) ->
         Forall valid_value vs)
  /\ (forall depth s ms rest,
         json.scan_members fuel depth s = Some (ms, rest) ->
         Forall (fun kv => valid_value (snd kv)) ms).
Proof.
  induction fuel as [|fuel (IHv & IHe & IHm)].
  - repeat split; intros; discriminate.
  - repeat split.
    + intros depth s v rest Hs. cbn [json.scan_value] in Hs.
      repeat (case_in Hs; try discriminate Hs);
        injection Hs as <- _; try constructor; eauto using scan_string_valid.
    + intros depth s vs rest Hs. cbn [json.scan_elements] in Hs.
      repeat (case_in Hs; try discriminate Hs); subst;
        injection Hs as <- _; constructor; eauto.
    + intros depth s ms rest Hs. cbn [json.scan_members] in Hs.
      repeat (case_in Hs; try discriminate Hs); subst;
        injection Hs as <- _; constructor; cbn [snd]; eauto.
Qed.

Lemma Valid_valid data v : json.Valid data = Some v -> valid_value v.
Proof.
  unfold json.Valid. intros H.
  destruct (json.scan_value _ 0 data) as [[v' rest]|] eqn:Hs; [|discriminate H].
  destruct (json.skip_space rest); [|discriminate H].
  injection H as <-. exact (proj1 (scan_valid _) _ _ _ _ Hs).
Qed.

(** ** What the decoder stores is valid UTF-8 *)

Lemma store_string_valid v old s :
  json.store_string v old = Some s ->
  valid_value v -> utf8.ValidString old = true -> utf8.ValidString s = true.
Proof.
  destruct v; cbn; intros H Hv Ho; try discriminate H; injection H as <-.
  - exact Ho.
  - now inversion Hv.
Qed.

Lemma store_members_keeps {T} (P : T -> Prop) fold names
    (set : nat -> json.value -> T -> option T) :
  (forall i v x y, set i v x = Some y -> valid_value v -> P x -> P y) ->
  forall ms old t,
    Forall (fun kv => valid_value (snd kv)) ms ->
    P old ->
    json.store_members fold names set ms old = Some t -> P t.
Proof.
  intros Hset. induction ms as [|[k v] ms IH]; intros old t Hms Ho Hs.
  - cbn in Hs. now injection Hs as <-.
  - inversion_clear Hms as [|? ? Hv Hrest]. cbn [snd] in Hv.
    cbn [json.store_members] in Hs.
    destruct (json.find_field fold names k) as [i|].
    + destruct (set i v old) as [x|] eqn:Hx; [|discriminate Hs].
      exact (IH _ _ Hrest (Hset _ _ _ _ Hx Hv Ho) Hs).
    + exact (IH _ _ Hrest Ho Hs).
Qed.

Lemma store_struct_keeps {T} (P : T -> Prop) fold names
    (set : nat -> json.value -> T -> option T) :
  (forall i v x y, set i v x = Some y -> valid_value v -> P x -> P y) ->
  forall v old t,
    valid_value v -> P old ->
    json.store_struct fold names set v old = Some t -> P t.
Proof.
  intros Hset v old t Hv Ho Hs. destruct v; cbn in Hs; try discriminate Hs.
  - now injection Hs as <-.
  - inversion_clear Hv as [| | | | |? Hms].
    exact (store_members_keeps P fold names set Hset _ _ _ Hms Ho Hs).
Qed.

Lemma store_elements_keeps {A} (P : A -> Prop)
    (store : json.value -> A -> option A) zero :
  (forall v x y, store v x = Some y -> valid_value v -> P x -> P y) ->
  P zero ->
  forall vs backing xs,
    Forall valid_value vs -> Forall P backing ->
    json.store_elements store zero vs backing = Some xs -> Forall P xs.
Proof.
  intros Hstore Hz. induction vs as [|v vs IH]; intros backing xs Hvs Hb Hs.
  - cbn in Hs. injection Hs as <-. constructor.
  - inversion_clear Hvs as [|? ? Hv Hrest]. cbn [json.store_elements] in Hs.
    destruct (store v _) as [x|] eqn:Hx; [|discriminate Hs].
    destruct (json.store_elements store zero vs (tl backing)) as [xs'|] eqn:Hxs;
      [|discriminate Hs].
    injection Hs as <-. constructor.
    + apply (Hstore _ _ _ Hx Hv). destruct Hb; assumption.
    + apply (IH (tl backing) _ Hrest); [|exact Hxs]. destruct Hb; [constructor|assumption].
Qed.

Lemma Forall_skipn {A} (P : A -> Prop) n l : Forall P l -> Forall P (skipn n l).
Proof.
  revert l. induction n as [|n IH]; intros l H; [exact H|].
  destruct H; cbn; [constructor|now apply IH].
Qed.

Lemma store_slice_keeps {A} (P : A -> Prop)
    (store : json.value -> A -> option A) zero v (old b : json.buffer A) :
  (forall v x y, store v x = Some y -> valid_value v -> P x -> P y) ->
  P zero ->
  valid_value v ->
  Forall P (elems_of (fst old)) /\ Forall P (snd old) ->
  json.store_slice store zero v old = Some b ->
  Forall P (elems_of (fst b)) /\ Forall P (snd b).
Proof.
  intros Hstore Hz Hv [Ho1 Ho2] Hs.
  destruct v as [| | | |vs|]; cbn [json.store_slice] in Hs; try discriminate Hs.
  - injection Hs as <-. split; constructor.
  - destruct vs as [|v vs]; [injection Hs as <-; split; constructor|].
    inversion_clear Hv as [| | | |? Hvs|].
    assert (Hb : Forall P (elems_of (fst old) ++ snd old)%list)
      by (apply Forall_app; now split).
    destruct (json.store_elements store zero (v :: vs) _) as [xs|] eqn:Hx;
      [|discriminate Hs].
    injection Hs as <-. cbn [fst snd elems_of]. split.
    + exact (store_elements_keeps P store zero Hstore Hz _ _ _ Hvs Hb Hx).
    + exact (Forall_skipn P (S (List.length vs)) _ Hb).
Qed.

Lemma store_lineEvent_valid fold v old evt :
  store_lineEvent fold v old = Some evt ->
  valid_value v -> valid_lineEvent old -> valid_lineEvent evt.
Proof.
  intros Hs Hv Ho. unfold store_lineEvent in Hs.
  refine (store_struct_keeps valid_lineEvent _ _ _ _ _ _ _ Hv Ho Hs).
  intros [|[|i]] v' x y Hset Hv' [Hx1 Hx2].
  - destruct (json.store_string v' (ev_ReplyToken x)) as [s|] eqn:Hstr;
      [|discriminate Hset].
    injection Hset as <-. split; cbn; [|exact Hx2].
    exact (store_string_valid _ _ _ Hstr Hv' Hx1).
  - destruct (store_lineEventMessage fold v' (LineEventMessage x)) as [m|] eqn:Hm;
      [|discriminate Hset].
    injection Hset as <-. split; cbn; [exact Hx1|].
    unfold store_lineEventMessage in Hm.
    refine (store_struct_keeps (fun m => utf8.ValidString (ID m) = true)
              _ _ _ _ _ _ _ Hv' Hx2 Hm).
    intros [|j] v'' a b Hset' Hv'' Ha.
    + destruct (json.store_string v'' (ID a)) as [s|] eqn:Hstr; [|discriminate Hset'].
      injection Hset' as <-. cbn. exact (store_string_valid _ _ _ Hstr Hv'' Ha).
    + now injection Hset' as <-.
  - injection Hset as <-. now split.
Qed.

(** The events decoded from a request body hold valid UTF-8 only. *)
Lemma Unmarshal_lineWebHook_valid fold body hook :
  Unmarshal_lineWebHook fold body = inl hook ->
  Forall valid_lineEvent (elems_of (Events hook)).
Proof.
  unfold Unmarshal_lineWebHook, json.Unmarshal. intros Hu.
  destruct (json.Valid body) as [v|] eqn:Hv; [|discriminate Hu].
  apply Valid_valid in Hv.
  destruct (store_lineWebHook fold v json.empty_buffer) as [b|] eqn:Hs;
    [|discriminate Hu].
  injection Hu as <-. cbn [Events].
  unfold store_lineWebHook in Hs.
  refine (proj1 (store_struct_keeps
            (fun b : json.buffer lineEvent =>
               Forall valid_lineEvent (elems_of (fst b))
               /\ Forall valid_lineEvent (snd b))
            _ _ _ _ _ _ _ Hv _ Hs)).
  - intros [|i] v' x y Hset Hv' Hx.
    + refine (store_slice_keeps valid_lineEvent _ _ _ _ _ _ _ Hv' Hx Hset).
      * intros v0 x0 y0 H0 Hv0 Hx0. exact (store_lineEvent_valid _ _ _ _ H0 Hv0 Hx0).
      * split; reflexivity.
    + now injection Hset as <-.
  - split; constructor.
Qed.

(** The message of an event decoded from a request body is read back by
    the process stage as it was built. *)
Lemma published_message_round_trip fold fold' body hook evt :
  Unmarshal_lineWebHook fold body = inl hook ->
  In evt (elems_of (Events hook)) ->
  Unmarshal_processMessage fold' (Marshal_processMessage (message_of evt))
  = inl (message_of evt).
Proof.
  intros Hu Hin. apply Unmarshal_Marshal_processMessage.
  pose proof (Unmarshal_lineWebHook_valid _ _ _ Hu) as Hall.
  rewrite Forall_forall in Hall. destruct (Hall _ Hin) as [H1 H2].
  split; assumption.
Qed.
(** ** What the process and send stages decode is valid UTF-8 *)

Lemma ValidString_app a b :
  utf8.ValidString a = true -> utf8.ValidString (a ++ b) = utf8.ValidString b.
Proof.
  remember (String.length a) as n eqn:Hn.
  assert (Hle : String.length a <= n) by lia. clear Hn.
  revert a Hle. induction n as [|n IH]; intros a Hle Hv.
  - destruct a; [reflexivity|cbn in Hle; lia].
  - destruct a as [|c0 t0]; [reflexivity|].
    cbn [String.length] in Hle.
    destruct (byte_val c0 <? utf8.RuneSelf)%N eqn:Hb.
    + cbn [String.append]. rewrite (ValidString_ascii _ _ Hb).
      rewrite (ValidString_ascii _ _ Hb) in Hv.
      apply IH; [lia|exact Hv].
    + destruct (DecodeRune_cases (String c0 t0))
        as [[r Hd]|[[r Hd]|(r & k & Hd & Hdec)]].
      * cbn [utf8.ValidString] in Hv. rewrite Hb, Hd in Hv. discriminate Hv.
      * cbn [utf8.ValidString] in Hv. rewrite Hb, Hd in Hv. discriminate Hv.
      * pose proof (ValidString_decoded _ _ _ Hdec) as Hskip.
        inversion Hdec; subst; clear Hdec; cbn [String.append String.length] in *.
        -- match goal with
           | A : lead_single ?x = false, B : (lead_size ?x <=? 2)%N = true,
             C : second_bad ?x ?y = false |- _ =>
             rewrite (ValidString_decoded _ _ _ (decoded2 x y (t ++ b) A B C))
           end.
           apply IH; [lia|]. now rewrite <- Hskip.
        -- match goal with
           | A : lead_single ?x = false, B : (lead_size ?x <=? 2)%N = false,
             C : (lead_size ?x <=? 3)%N = true,
             D : second_bad ?x ?y = false, E : cont_bad ?z = false |- _ =>
             rewrite (ValidString_decoded _ _ _ (decoded3 x y z (t ++ b) A B C D E))
           end.
           apply IH; [lia|]. now rewrite <- Hskip.
        -- match goal with
           | A : lead_single ?x = false, B : (lead_size ?x <=? 3)%N = false,
             D : second_bad ?x ?y = false, E : cont_bad ?z = false,
             F : cont_bad ?u = false |- _ =>
             rewrite (ValidString_decoded _ _ _ (decoded4 x y z u (t ++ b) A B D E F))
           end.
           apply IH; [lia|]. now rewrite <- Hskip.
Qed.

(** Labels that are valid UTF-8 are joined into a text that is. *)
Lemma ValidString_reply_text labels :
  Forall (fun l => utf8.ValidString l = true) labels ->
  utf8.ValidString (reply_text labels) = true.
Proof.
  induction labels as [|l [|x rest] IH]; intros Hv.
  - reflexivity.
  - now inversion_clear Hv.
  - inversion_clear Hv as [|? ? Hl Hrest].
    change (reply_text (l :: x :: rest)) with (l ++ newline ++ reply_text (x :: rest)).
    rewrite (ValidString_app _ _ Hl).
    rewrite (ValidString_app newline _ eq_refl). exact (IH Hrest).
Qed.

(** The strings of a message the process stage has decoded are valid
    UTF-8. *)
Lemma Unmarshal_processMessage_valid fold data m :
  Unmarshal_processMessage fold data = inl m -> valid_processMessage m.
Proof.
  unfold Unmarshal_processMessage, json.Unmarshal. intros Hu.
  destruct (json.Valid data) as [v|] eqn:Hv; [|discriminate Hu].
  apply Valid_valid in Hv.
  destruct (store_processMessage fold v zero_processMessage) as [m'|] eqn:Hs;
    [|discriminate Hu].
  injection Hu as <-. unfold store_processMessage in Hs.
  refine (store_struct_keeps valid_processMessage _ _ _ _ _ _ _ Hv _ Hs).
  - intros [|[|i]] v' x y Hset Hv' [Hx1 Hx2].
    + destruct (json.store_string v' (ImageID x)) as [s|] eqn:Hstr;
        [|discriminate Hset].
      injection Hset as <-. split; cbn; [|exact Hx2].
      exact (store_string_valid _ _ _ Hstr Hv' Hx1).
    + destruct (json.store_string v' (pm_ReplyToken x)) as [s|] eqn:Hstr;
        [|discriminate Hset].
      injection Hset as <-. split; cbn; [exact Hx1|].
      exact (store_string_valid _ _ _ Hstr Hv' Hx2).
    + injection Hset as <-. now split.
  - split; reflexivity.
Qed.

(** The strings of a message the send stage has decoded are valid UTF-8. *)
Lemma Unmarshal_sendMessage_valid fold data m :
  Unmarshal_sendMessage fold data = inl m -> valid_sendMessage m.
Proof.
  unfold Unmarshal_sendMessage, json.Unmarshal. intros Hu.
  destruct (json.Valid data) as [v|] eqn:Hv; [|discriminate Hu].
  apply Valid_valid in Hv.
  destruct (store_sendMessage fold v (EmptyString, json.empty_buffer))
    as [[tok buf]|] eqn:Hs; [|discriminate Hu].
  injection Hu as <-. unfold store_sendMessage in Hs.
  pose (P := fun p : string * json.buffer string =>
               utf8.ValidString (fst p) = true
               /\ Forall (fun l => utf8.ValidString l = true) (elems_of (fst (snd p)))
               /\ Forall (fun l => utf8.ValidString l = true) (snd (snd p))).
  assert (HP : P (tok, buf)).
  { refine (store_struct_keeps P _ _ _ _ _ _ _ Hv _ Hs).
    - intros [|[|i]] v' x y Hset Hv' (Hx1 & Hx2 & Hx3).
      + destruct (json.store_string v' (fst x)) as [s|] eqn:Hstr;
          [|discriminate Hset].
        injection Hset as <-. split; [|split]; cbn; try assumption.
        exact (store_string_valid _ _ _ Hstr Hv' Hx1).
      + destruct (json.store_slice json.store_string EmptyString v' (snd x))
          as [b'|] eqn:Hsl; [|discriminate Hset].
        injection Hset as <-. split; [exact Hx1|]. cbn [snd].
        refine (store_slice_keeps (fun l => utf8.ValidString l = true)
                  _ _ _ _ _ _ _ Hv' (conj Hx2 Hx3) Hsl).
        * intros v0 x0 y0 H0 Hv0 Hx0. exact (store_string_valid _ _ _ H0 Hv0 Hx0).
        * reflexivity.
      + injection Hset as <-. now repeat split.
    - repeat split; constructor. }
  destruct HP as (H1 & H2 & _). split; assumption.
Qed.

(** ** The body of the reply *)

Lemma scan_value_object_at fuel depth key text ms rest :
  (json.maxNestingDepth <=? depth)%N = false ->
  json.scan_members fuel (depth + 1) (json.encode_string key ++ text) = Some (ms, rest) ->
  json.scan_value (S fuel) depth (String "{" (json.encode_string key ++ text))
  = Some (json.Object ms, rest).
Proof.
  intros Hd Hm. cbn [json.scan_value]. rewrite Hd. rewrite encode_string_app in *.
  remember (depth + 1)%N as d1 eqn:Hd1.
  cbn in *. now rewrite Hm.
Qed.

(** An array of one object. *)
Lemma scan_value_array_of_object fuel depth text v rest :
  (json.maxNestingDepth <=? depth)%N = false ->
  json.scan_value fuel (depth + 1) (String "{" text) = Some (v, String "]" rest) ->
  json.scan_value (S (S fuel)) depth (String "[" (String "{" text))
  = Some (json.Array [v], rest).
Proof.
  intros Hd Hv. remember (S fuel) as f eqn:Hf.
  cbn [json.scan_value]. rewrite Hd.
  remember (depth + 1)%N as d1 eqn:Hd1.
  cbn -[json.scan_elements].
  subst f. cbn [json.scan_elements]. rewrite Hv. reflexivity.
Qed.

Lemma Marshal_replyFormat_text rt text :
  Marshal_replyFormat
    {| rf_ReplyToken := rt;
       Messages := mk_slice [{| Type_ := "text"; Text := text |}] |}
  = String "{"
      (json.encode_string "replyToken" ++ String ":"
         (json.encode_string rt ++ String ","
            (json.encode_string "messages" ++ String ":"
               (String "[" (String "{"
                  (json.encode_string "type" ++ String ":"
                     (json.encode_string "text" ++ String ","
                        (json.encode_string "text" ++ String ":"
                           (json.encode_string text
                              ++ String "}" (String "]" (String "}" EmptyString))))))))))).
Proof.
  unfold Marshal_replyFormat, Marshal_replyFormatMessage, json.encode_struct,
    json.encode_field, json.encode_slice.
  cbn [map fst snd json.comma_separated rf_ReplyToken Messages Type_ Text].
  rewrite !append_assoc. reflexivity.
Qed.

(** The body [sendReply] posts for a reply token and a text that are valid
    UTF-8 is one JSON object; read back, it gives the token and one
    message of type [text] with the text. *)
Lemma Valid_replyFormat rt text :
  utf8.ValidString rt = true ->
  utf8.ValidString text = true ->
  json.Valid
    (Marshal_replyFormat
       {| rf_ReplyToken := rt;
          Messages := mk_slice [{| Type_ := "text"; Text := text |}] |})
  = Some (reply_value rt text).
Proof.
  intros Hr Ht. rewrite Marshal_replyFormat_text.
  apply (Valid_from_scan _ _ 12).
  - intros fuel Hf. do 12 (destruct fuel as [|fuel]; [lia|]).
    apply scan_value_object.
    apply (scan_members_cons _ _ _ _ (json.Str rt)
             (json.encode_string "messages" ++ String ":"
               (String "[" (String "{"
                  (json.encode_string "type" ++ String ":"
                     (json.encode_string "text" ++ String ","
                        (json.encode_string "text" ++ String ":"
                           (json.encode_string text
                              ++ String "}" (String "]" (String "}" EmptyString)))))))))).
    + reflexivity.
    + now apply scan_value_string.
    + apply scan_members_last; [reflexivity|].
      apply scan_value_array_of_object; [reflexivity|].
      apply scan_value_object_at; [reflexivity|].
      apply (scan_members_cons _ _ _ _ (json.Str "text")
               (json.encode_string "text" ++ String ":"
                  (json.encode_string text
                     ++ String "}" (String "]" (String "}" EmptyString))))).
      * reflexivity.
      * now apply scan_value_string.
      * apply scan_members_last; [reflexivity|now apply scan_value_string].
  - rewrite encode_string_app.
    change (json.string_body "replyToken") with "replyToken".
    cbn [String.length String.append]. lia.
Qed.
(** ** The SendMessage of the earlier version *)

Lemma Valid_earlier_sendMessage tok :
  utf8.ValidString tok = true ->
  json.Valid (earlier.Marshal_sendMessage {| earlier.ReplyToken := tok |})
  = Some (json.Object [("ReplyToken", json.Str tok)]).
Proof.
  intros Ht.
  assert (Htext : earlier.Marshal_sendMessage {| earlier.ReplyToken := tok |}
                  = String "{"
                      (json.encode_string "ReplyToken" ++ String ":"
                         (json.encode_string tok ++ String "}" EmptyString))).
  { unfold earlier.Marshal_sendMessage, json.encode_struct, json.encode_field.
    cbn [map fst snd json.comma_separated earlier.ReplyToken].
    rewrite !append_assoc. reflexivity. }
  rewrite Htext. apply (Valid_from_scan _ _ 3).
  - intros fuel Hf. do 3 (destruct fuel as [|fuel]; [lia|]).
    apply scan_value_object.
    apply scan_members_last; [reflexivity|now apply scan_value_string].
  - cbn [String.length]. lia.
Qed.

Lemma Unmarshal_Marshal_earlier_sendMessage fold m :
  utf8.ValidString (earlier.ReplyToken m) = true ->
  earlier.Unmarshal_sendMessage fold (earlier.Marshal_sendMessage m) = inl m.
Proof.
  destruct m as [tok]. cbn [earlier.ReplyToken]. intros Ht.
  unfold earlier.Unmarshal_sendMessage, json.Unmarshal.
  rewrite (Valid_earlier_sendMessage _ Ht). reflexivity.
Qed.
(** ** Every string is read back, with the bytes that are not UTF-8 replaced *)

Lemma scan_ufffd X :
  json.scan_string (json.escaped_ufffd ++ X)
  = json.prepend (utf8.EncodeRune utf8.RuneError) (json.scan_string X).
Proof. reflexivity. Qed.

Lemma scan_string_coerced s :
  forall rest,
    json.scan_string (json.string_body s ++ String dquote rest)
    = Some (coerced s, rest).
Proof.
  remember (String.length s) as n eqn:Hn.
  assert (Hle : String.length s <= n) by lia. clear Hn.
  revert s Hle. induction n as [|n IH]; intros s Hle rest.
  - destruct s; [reflexivity|cbn in Hle; lia].
  - destruct s as [|c0 t0]; [reflexivity|].
    cbn [String.length] in Hle.
    destruct (byte_val c0 <? utf8.RuneSelf)%N eqn:Hb.
    + rewrite (string_body_ascii _ _ Hb), append_assoc, (scan_ascii _ _ Hb).
      cbn [coerced]. rewrite Hb.
      rewrite (IH t0); [reflexivity|lia].
    + cbn [coerced json.string_body]. rewrite Hb.
      destruct (DecodeRune_cases (String c0 t0))
        as [[r Hd]|[[r Hd]|(r & k & Hd & Hdec)]].
      * rewrite Hd. rewrite append_assoc, scan_ufffd.
        rewrite (IH t0); [reflexivity|lia].
      * rewrite Hd. rewrite append_assoc, scan_ufffd.
        rewrite (IH t0); [reflexivity|lia].
      * rewrite Hd. inversion Hdec; subst; clear Hdec.
        -- cbn [String.append String.length] in *.
           rewrite (scan_string_multi _ _ Hb).
           match goal with
           | A : lead_single ?a = false, B : (lead_size ?a <=? 2)%N = true,
             C : second_bad ?a ?b = false |- _ =>
             rewrite (decoded_DecodeRune _ _ _
                        (decoded2 a b (json.string_body t ++ String dquote rest) A B C));
             rewrite (encode_rune2 _ _ A B C)
           end.
           rewrite (IH t); [reflexivity|lia].
        -- cbn [String.length] in *.
           match goal with
           | A : lead_single ?a = false, B : (lead_size ?a <=? 2)%N = false,
             C : (lead_size ?a <=? 3)%N = true,
             D : second_bad ?a ?b = false, E : cont_bad ?c = false |- _ =>
             pose proof (encode_rune3 _ _ _ A B C D E) as Henc;
             pose proof (decoded_DecodeRune _ _ _
                           (decoded3 a b c (json.string_body t ++ String dquote rest)
                              A B C D E)) as Hd';
             destruct ((rune3 a b c =? 8232) || (rune3 a b c =? 8233))%N eqn:Hsep
           end.
           ++ rewrite append_assoc. cbn [String.append].
              rewrite scan_u202.
              ** rewrite Henc.
                 rewrite (IH t); [reflexivity|lia].
              ** apply orb_true_iff in Hsep.
                 destruct Hsep as [Hs|Hs]; apply N.eqb_eq in Hs; auto.
           ++ cbn [String.append].
              rewrite (scan_string_multi _ _ Hb), Hd', Henc.
              rewrite (IH t); [reflexivity|lia].
        -- cbn [String.append String.length] in *.
           rewrite (scan_string_multi _ _ Hb).
           match goal with
           | A : lead_single ?a = false, B : (lead_size ?a <=? 3)%N = false,
             D : second_bad ?a ?b = false, E : cont_bad ?c = false,
             F : cont_bad ?d = false |- _ =>
             rewrite (decoded_DecodeRune _ _ _
                        (decoded4 a b c d (json.string_body t ++ String dquote rest)
                           A B D E F));
             rewrite (encode_rune4 _ _ _ _ A B D E F)
           end.
           rewrite (IH t); [reflexivity|lia].
Qed.

Lemma coerced_ValidString s : utf8.ValidString (coerced s) = true.
Proof.
  exact (scan_string_valid _ _ _ (scan_string_coerced s EmptyString)).
Qed.

Lemma coerced_valid s : utf8.ValidString s = true -> coerced s = s.
Proof.
  intros Hv.
  pose proof (scan_string_written s Hv EmptyString) as H1.
  rewrite scan_string_coerced in H1. now injection H1.
Qed.

Lemma scan_value_coerced fuel depth s rest :
  json.scan_value (S fuel) depth (json.encode_string s ++ rest)
  = Some (json.Str (coerced s), rest).
Proof.
  rewrite encode_string_app.
  cbn [json.scan_value]. cbn. now rewrite scan_string_coerced.
Qed.

Lemma Valid_processMessage_coerced id rt :
  json.Valid (Marshal_processMessage {| ImageID := id; pm_ReplyToken := rt |})
  = Some (json.Object [("ImageID", json.Str (coerced id));
                       ("ReplyToken", json.Str (coerced rt))]).
Proof.
  rewrite Marshal_processMessage_text.
  apply (Valid_from_scan _ _ 4).
  - intros fuel Hf. do 4 (destruct fuel as [|fuel]; [lia|]).
    apply scan_value_object.
    apply (scan_members_cons _ _ _ _ (json.Str (coerced id))
             (json.encode_string "ReplyToken" ++ String ":"
                (json.encode_string rt ++ String "}" EmptyString))).
    + reflexivity.
    + apply scan_value_coerced.
    + apply scan_members_last; [reflexivity|apply scan_value_coerced].
  - cbn [String.length]. lia.
Qed.

Lemma scan_elements_coerced labels :
  labels <> [] ->
  forall fuel depth rest,
    List.length labels + 1 <= fuel ->
    json.scan_elements fuel depth
      (json.comma_separated (map json.encode_string labels) ++ String "]" rest)
    = Some (map json.Str (map coerced labels), rest).
Proof.
  induction labels as [|x [|y l] IH]; intros Hne fuel depth rest Hf.
  - now elim Hne.
  - cbn [List.length] in Hf. do 2 (destruct fuel as [|fuel]; [lia|]).
    cbn [map json.comma_separated json.scan_elements].
    rewrite scan_value_coerced. reflexivity.
  - cbn [List.length] in Hf. do 2 (destruct fuel as [|fuel]; [lia|]).
    change (json.comma_separated (map json.encode_string (x :: y :: l)))
      with (json.encode_string x ++ "," ++ json.comma_separated (map json.encode_string (y :: l)))%string.
    rewrite !append_assoc.
    pose proof (scan_value_coerced fuel depth x
                  ("," ++ json.comma_separated (map json.encode_string (y :: l))
                       ++ String "]" rest)) as Hsv.
    pose proof (IH ltac:(discriminate) (S fuel) depth rest
                  ltac:(cbn [List.length]; lia)) as Hrest.
    remember (S fuel) as f1 eqn:Hf1.
    cbn [json.scan_elements]. rewrite Hsv.
    cbn -[json.comma_separated json.scan_elements json.encode_string map coerced].
    rewrite Hrest. reflexivity.
Qed.

Lemma scan_value_labels_coerced labels fuel rest :
  List.length (elems_of labels) + 2 <= fuel ->
  json.scan_value fuel 1
    (json.encode_slice json.encode_string labels ++ String "}" rest)
  = Some (labels_value (coerced_labels labels), String "}" rest).
Proof.
  intros Hf. destruct labels as [|[|x l]].
  - destruct fuel as [|fuel]; [cbn in Hf; lia|]. reflexivity.
  - destruct fuel as [|fuel]; [cbn in Hf; lia|]. reflexivity.
  - cbn [elems_of] in *. destruct fuel as [|fuel]; [lia|].
    unfold json.encode_slice, labels_value, coerced_labels.
    rewrite !append_assoc. cbn [String.append].
    pose proof (scan_elements_coerced (x :: l) ltac:(discriminate)
                  fuel 2%N (String "}" rest) ltac:(lia)) as He.
    destruct (comma_separated_head x l) as [t Hc]. rewrite Hc in *.
    cbn [json.scan_value]. cbn -[coerced]. cbn -[coerced] in He. now rewrite He.
Qed.

Lemma Valid_sendMessage_coerced rt labels :
  json.Valid (Marshal_sendMessage {| sm_ReplyToken := rt; Labels := labels |})
  = Some (json.Object [("ReplyToken", json.Str (coerced rt));
                       ("Labels", labels_value (coerced_labels labels))]).
Proof.
  rewrite Marshal_sendMessage_text.
  apply (Valid_from_scan _ _ (List.length (elems_of labels) + 5)).
  - intros fuel Hf. do 3 (destruct fuel as [|fuel]; [lia|]).
    apply scan_value_object.
    apply (scan_members_cons _ _ _ _ (json.Str (coerced rt))
             (json.encode_string "Labels" ++ String ":"
                (json.encode_slice json.encode_string labels ++ String "}" EmptyString))).
    + reflexivity.
    + apply scan_value_coerced.
    + apply scan_members_last; [reflexivity|].
      apply scan_value_labels_coerced. lia.
  - rewrite !encode_string_app. cbn [String.length]. rewrite !length_append.
    cbn [String.length]. rewrite !length_append. cbn [String.length].
    destruct labels as [|l]; cbn [elems_of List.length json.encode_slice String.length].
    + lia.
    + repeat first [rewrite length_append | progress cbn [String.length]].
      pose proof (length_comma_separated l). lia.
Qed.

(** X22.  A message is always decoded from its JSON serialization, whatever
    bytes its strings hold: the decoder does not fail on what the encoder
    wrote.  Each string is read back with the bytes that are not part of a
    well-formed UTF-8 encoding replaced by [U+FFFD]; what is read back is
    valid UTF-8, and a string that was valid is read back unchanged.  A
    nil list of labels stays nil. *)
Theorem marshalled_messages_always_decode fold (pm : processMessage) (sm : sendMessage) :
  Unmarshal_processMessage fold (Marshal_processMessage pm)
  = inl {| ImageID := coerced (ImageID pm);
           pm_ReplyToken := coerced (pm_ReplyToken pm) |}
  /\ Unmarshal_sendMessage fold (Marshal_sendMessage sm)
     = inl {| sm_ReplyToken := coerced (sm_ReplyToken sm);
              Labels := coerced_labels (Labels sm) |}
  /\ (forall s, utf8.ValidString (coerced s) = true)
  /\ (forall s, utf8.ValidString s = true -> coerced s = s).
Proof.
  split; [|split; [|split]].
  - destruct pm as [id rt]. unfold Unmarshal_processMessage, json.Unmarshal.
    rewrite Valid_processMessage_coerced. reflexivity.
  - destruct sm as [rt labels]. unfold Unmarshal_sendMessage, json.Unmarshal.
    rewrite Valid_sendMessage_coerced.
    destruct labels as [|[|x l]]; try reflexivity.
    unfold store_sendMessage, json.store_struct, labels_value, coerced_labels.
    cbn -[json.store_elements map coerced].
    rewrite (store_elements_strings EmptyString (map coerced (x :: l))). reflexivity.
  - exact coerced_ValidString.
  - exact coerced_valid.
Qed.

#[local] Arguments String.append : simpl never.

(** ** [strings.Join] and the reply text *)

Lemma join_rest_reply_text (e : string) (rest : list string) :
  e ++ strings.join_rest newline rest = reply_text (e :: rest).
Proof.
  revert e; induction rest as [|x rest IH]; intro e.
  - simpl. destruct e; simpl; [reflexivity|].
    unfold String.append; fold String.append.
    f_equal. clear. induction e; simpl; [reflexivity|].
    unfold String.append; fold String.append. now f_equal.
  - change (strings.join_rest newline (x :: rest))
      with (newline ++ x ++ strings.join_rest newline rest).
    rewrite IH. reflexivity.
Qed.

Lemma Join_reply_text (labels : slice string) :
  strings.Join labels newline = reply_text (elems_of labels).
Proof.
  unfold strings.Join.
  destruct (elems_of labels) as [|e [|x rest]]; try reflexivity.
  apply join_rest_reply_text.
Qed.

(** ** Runs of the helpers *)

Lemma after_nil w : after w [] = w.
Proof. destruct w; unfold after; simpl. now rewrite app_nil_r. Qed.

Lemma after_after w es1 es2 : after (after w es1) es2 = after w (es1 ++ es2).
Proof. unfold after; simpl. now rewrite app_assoc. Qed.

Lemma getSecret_ok sv projectID tok w :
  secretmanager_NewClient sv = None ->
  secret_AccessSecretVersion sv (token_resource projectID) = Ok tok ->
  getSecret sv projectID "channel-access-token" w
  = (Ok tok, after w [AccessSecret (token_resource projectID)]).
Proof.
  intros Hc Hs. unfold getSecret, bind, check, wrap, emit, ret.
  rewrite Hc. cbn. fold (token_resource projectID). rewrite Hs. reflexivity.
Qed.

Lemma sendReply_run sv tok replyToken text w :
  new_request_error sv "POST" reply_url = None ->
  sendReply sv tok replyToken text w
  = (match client_Do sv (reply_request tok replyToken text) with
     | Ok _ => Ok tt
     | Err e => Err ("http.DefaultClient.Get failed; " ++ e)
     | Panic => Panic
     end,
     after w [HttpDo (reply_request tok replyToken text)]).
Proof.
  intros Hn. unfold sendReply, bind, wrap, http_NewRequest, client_do, bind, emit, lift, ret.
  fold reply_url. rewrite Hn. cbn.
  change (Header_Add _ "Content-Type" "application/json")
    with (reply_request tok replyToken text).
  destruct (client_Do sv (reply_request tok replyToken text)); reflexivity.
Qed.

Lemma downloadImage_run sv tok imageID w :
  new_request_error sv "GET" (URL (content_request tok imageID)) = None ->
  downloadImage sv tok imageID w
  = (match client_Do sv (content_request tok imageID) with
     | Ok _ => Panic
     | Err e => Err ("http.DefaultClient.Get failed; " ++ e)
     | Panic => Panic
     end,
     after w [HttpDo (content_request tok imageID)]).
Proof.
  intros Hn. unfold downloadImage, bind, wrap, http_NewRequest, client_do, bind, emit, lift, ret.
  cbn in Hn. rewrite Hn. cbn.
  change (Header_Add _ "Authorization" ("Bearer " ++ tok))
    with (content_request tok imageID).
  destruct (client_Do sv (content_request tok imageID)); reflexivity.
Qed.

Lemma downloadImage_refused sv tok imageID w e :
  new_request_error sv "GET" (URL (content_request tok imageID)) = Some e ->
  downloadImage sv tok imageID w = (Err ("http.NewRequest failed; " ++ e), w).
Proof.
  intros Hn. unfold downloadImage, bind, wrap, http_NewRequest.
  cbn in Hn. rewrite Hn. reflexivity.
Qed.

(** [downloadImage] never returns bytes. *)
Lemma downloadImage_not_Ok sv tok imageID w bytes w' :
  downloadImage sv tok imageID w <> (Ok bytes, w').
Proof.
  destruct (new_request_error sv "GET" (URL (content_request tok imageID))) eqn:Hn.
  - rewrite (downloadImage_refused _ _ _ _ _ Hn). discriminate.
  - rewrite (downloadImage_run _ _ _ _ Hn).
    destruct (client_Do sv (content_request tok imageID)); discriminate.
Qed.

Lemma collect_descriptions_app (acc : list string) (labels : list EntityAnnotation) :
  collect_descriptions (mk_slice acc) labels
  = mk_slice (acc ++ map Description labels).
Proof.
  revert acc; induction labels as [|l rest IH]; intro acc; simpl.
  - now rewrite app_nil_r.
  - unfold append. simpl. rewrite IH. now rewrite <- app_assoc.
Qed.

Lemma analyzeImage_run sv imageBytes w :
  vision_NewImageAnnotatorClient sv = None ->
  analyzeImage sv imageBytes w
  = (match vision_DetectLabels sv imageBytes 10 with
     | Ok labels => Ok (mk_slice (map Description labels))
     | Err e => Err ("vision.ImageAnnotatorClient.DetectLabels failed; " ++ e)
     | Panic => Panic
     end,
     after w [DetectLabels imageBytes 10]).
Proof.
  intros Hc. unfold analyzeImage, bind, check, wrap, vision_NewImageFromReader, emit, ret.
  rewrite Hc. cbn.
  destruct (vision_DetectLabels sv imageBytes 10); try reflexivity.
  cbn. now rewrite (collect_descriptions_app []).
Qed.

Lemma published_app t1 t2 : published (t1 ++ t2) = (published t1 ++ published t2)%list.
Proof.
  induction t1 as [|e t1 IH]; [reflexivity|].
  destruct e; simpl; rewrite ?IH; reflexivity.
Qed.

(** [process_image] on a downloaded image, when the classifier and the
    broker answer: exactly one message is published, on the topic of the
    send stage; it carries the reply token of the ProcessMessage and the
    descriptions of the labels in the order of the classifier, which was
    asked for 10 labels. *)
Lemma process_image_run sv procMsg image anns id w :
  vision_NewImageAnnotatorClient sv = None ->
  vision_DetectLabels sv image 10 = Ok anns ->
  pubsub_NewClient sv (Getenv sv "PROJECT_ID") = None ->
  let topic := Getenv sv "WAIT_SEND_TOPIC" in
  let labels := mk_slice (map Description anns) in
  let data :=
    Marshal_sendMessage
      {| sm_ReplyToken := pm_ReplyToken procMsg; Labels := labels |} in
  publish_Get sv (broker w) topic data = Ok id ->
  process_image sv procMsg image w
  = (Ok tt,
     {| trace := (trace w ++ [Log "download image"; DetectLabels image 10;
                              Log ("labels: " ++ fmt_strings labels);
                              Publish topic data; Log ("publish: " ++ id)])%list;
        broker := (broker w ++ [(topic, data)])%list |}).
Proof.
  intros Hc Hd Hp topic labels data Hg.
  unfold process_image, bind, log_Printf, emit, ret.
  rewrite (analyzeImage_run _ _ _ Hc), Hd.
  unfold check. rewrite Hp. unfold ret, publish, after. cbn.
  fold labels. fold data. fold topic. rewrite Hg. cbn.
  rewrite <- !app_assoc. reflexivity.
Qed.

(** Whatever the broker answers, [process_image] hands to it at most the
    one message built from the labels of [analyzeImage]. *)
Lemma process_image_published sv procMsg image anns w :
  vision_NewImageAnnotatorClient sv = None ->
  vision_DetectLabels sv image 10 = Ok anns ->
  let msg :=
    {| sm_ReplyToken := pm_ReplyToken procMsg;
       Labels := mk_slice (map Description anns) |} in
  let t := trace (snd (process_image sv procMsg image w)) in
  published t = published (trace w)
  \/ published t
     = (published (trace w)
          ++ [(Getenv sv "WAIT_SEND_TOPIC", Marshal_sendMessage msg)])%list.
Proof.
  intros Hc Hd msg t. subst t.
  unfold process_image, bind, log_Printf, emit, ret.
  rewrite (analyzeImage_run _ _ _ Hc), Hd.
  unfold check, fail, ret, publish, after. cbn.
  destruct (pubsub_NewClient sv (Getenv sv "PROJECT_ID")).
  - left. cbn. rewrite <- !app_assoc, !published_app. cbn.
    now rewrite app_nil_r.
  - right. cbn. fold msg.
    destruct (publish_Get sv (broker w) (Getenv sv "WAIT_SEND_TOPIC")
                (Marshal_sendMessage msg));
      cbn; rewrite <- !app_assoc, !published_app; reflexivity.
Qed.

(** ** The send stage *)

(** C3.  For a SendMessage the send stage has decoded, once the credential
    is resolved, [sendReply] is called with the reply token of the message
    and with the labels joined by single newlines; the text is empty when
    there is no label, and the call is made all the same: the request to
    the reply endpoint carries that text. *)
Theorem send_reply_text sv evt subMsg sendMsg tok b :
  event_DataAs evt = Ok subMsg ->
  Unmarshal_sendMessage (equalFold sv) (Data (Message subMsg)) = inl sendMsg ->
  secretmanager_NewClient sv = None ->
  secret_AccessSecretVersion sv (token_resource (Getenv sv "PROJECT_ID")) = Ok tok ->
  new_request_error sv "POST" reply_url = None ->
  let text := reply_text (elems_of (Labels sendMsg)) in
  let w1 :=
    after (start b)
      [Log "send"; Log ("request: " ++ event_String evt);
       Log ("reply token: " ++ sm_ReplyToken sendMsg);
       Log ("labels: " ++ fmt_strings (Labels sendMsg));
       AccessSecret (token_resource (Getenv sv "PROJECT_ID"));
       Log "get secret"] in
  send sv evt (start b)
  = (sendReply sv tok (sm_ReplyToken sendMsg) text ;;;
     log_Printf "send reply" ;;; ret tt) w1
  /\ requests (trace (snd (send sv evt (start b))))
     = [reply_request tok (sm_ReplyToken sendMsg) text]
  /\ (elems_of (Labels sendMsg) = [] -> text = EmptyString).
Proof.
  intros Hd Hu Hc Hs Hn text w1.
  assert (Hrun : send sv evt (start b)
                 = (sendReply sv tok (sm_ReplyToken sendMsg) text ;;;
                    log_Printf "send reply" ;;; ret tt) w1).
  { unfold send. unfold bind at 1 2 3 4 5 6 7.
    unfold log_Printf at 1 2 3 4, emit, wrap, Unmarshal_error, ret.
    rewrite Hd. cbn. rewrite Hu. cbn.
    rewrite (getSecret_ok _ _ tok _ Hc Hs). cbn.
    rewrite Join_reply_text. reflexivity. }
  split; [exact Hrun|]. split.
  - rewrite Hrun. unfold bind. rewrite (sendReply_run _ _ _ _ _ Hn).
    destruct (client_Do sv (reply_request tok (sm_ReplyToken sendMsg) text));
      reflexivity.
  - intros He. unfold text. now rewrite He.
Qed.

Lemma send_reply_text_witness :
  requests
    (trace
       (snd
          (send (example_services "token" (Ok ok_response) [])
             (event_of
                (Marshal_sendMessage
                   {| sm_ReplyToken := "r1"; Labels := mk_slice ["cat"; "outdoor"] |}))
             (start []))))
  = [reply_request "token" "r1" ("cat" ++ newline ++ "outdoor")].
Proof.
  exact (proj1 (proj2
    (send_reply_text (example_services "token" (Ok ok_response) [])
       (event_of
          (Marshal_sendMessage
             {| sm_ReplyToken := "r1"; Labels := mk_slice ["cat"; "outdoor"] |}))
       {| Message :=
            {| Data := Marshal_sendMessage
                         {| sm_ReplyToken := "r1";
                            Labels := mk_slice ["cat"; "outdoor"] |} |} |}
       {| sm_ReplyToken := "r1"; Labels := mk_slice ["cat"; "outdoor"] |}
       "token" [] eq_refl eq_refl eq_refl eq_refl eq_refl))).
Defined.

(** ** The receive stage: a body that is not a webhook envelope *)

(** C4.  When the body of the request is not valid JSON for the webhook
    envelope, [receive] answers with status 500 and the text of the error,
    and hands no message to the broker. *)
Theorem receive_malformed_body sv r body k b :
  in_Body r = Ok body ->
  Unmarshal_lineWebHook (equalFold sv) body = inr k ->
  let w := snd (receive sv r (start b)) in
  response (trace w)
  = [WriteHeader StatusInternalServerError; Write (json_error sv k body)]
  /\ published (trace w) = []
  /\ broker w = b.
Proof.
  intros Hb Hu w. subst w.
  unfold receive, receive_steps, httputil_DumpRequest.
  unfold bind, log_Printf, emit, lift, Unmarshal_error, returnError.
  rewrite Hb. cbn. rewrite Hb. cbn. rewrite Hu. cbn.
  unfold bind, log_Printf, emit, ret.
  destruct (write_error sv (json_error sv k body)); cbn; auto.
Qed.

Lemma receive_malformed_body_witness :
  let w :=
    snd (receive (example_services "token" (Ok ok_response) [])
           {| in_Body := Ok "{"; in_Dump := "POST / HTTP/1.1" |} (start [])) in
  response (trace w)
  = [WriteHeader StatusInternalServerError; Write "json: syntax error"]
  /\ published (trace w) = []
  /\ broker w = [].
Proof.
  exact (receive_malformed_body (example_services "token" (Ok ok_response) [])
           {| in_Body := Ok "{"; in_Dump := "POST / HTTP/1.1" |}
           "{" json.SyntaxError [] eq_refl eq_refl).
Defined.

(** ** The image fetcher and the reply sender *)

(** C5 (what the code does).  [downloadImage] sends a GET to the content
    URL of the image with the bearer credential; when the endpoint answers,
    whatever the response, the function does not return the bytes of the
    response body: it reads the body of the request, which is nil, and the
    read panics. *)
Theorem downloadImage_reads_request_body sv tok imageID resp w :
  new_request_error sv "GET" (URL (content_request tok imageID)) = None ->
  client_Do sv (content_request tok imageID) = Ok resp ->
  downloadImage sv tok imageID w
  = (Panic, after w [HttpDo (content_request tok imageID)]).
Proof.
  intros Hn Hd. rewrite (downloadImage_run _ _ _ _ Hn). now rewrite Hd.
Qed.

Lemma downloadImage_reads_request_body_witness :
  downloadImage
    (example_services "token" (Ok {| StatusCode := 200; resp_Body := "JFIF" |}) [])
    "token" "img1" (start [])
  = (Panic, after (start []) [HttpDo (content_request "token" "img1")]).
Proof.
  exact (downloadImage_reads_request_body
           (example_services "token" (Ok {| StatusCode := 200; resp_Body := "JFIF" |}) [])
           "token" "img1" {| StatusCode := 200; resp_Body := "JFIF" |} (start [])
           eq_refl eq_refl).
Defined.

(** C6 fails as stated: a response with status 500 from the reply
    endpoint does not make [sendReply] return an error. *)
Lemma non_2xx_reply_is_not_a_failure :
  ~ non_2xx_is_failure (example_services "token" (Ok error_response) []).
Proof.
  intros H.
  destruct (H "token" "r1" "cat" error_response (start []) eq_refl eq_refl)
    as (e & w' & Heq).
  rewrite sendReply_run in Heq by reflexivity. discriminate Heq.
Qed.

(** C6 (amended).  The image fetcher and the reply sender return an error
    when the HTTP client itself fails, with the text of that failure; the
    status of a response is not looked at, and the reply sender returns
    without error on every response. *)
Theorem transport_failures_are_surfaced sv tok imageID replyToken text w :
  new_request_error sv "GET" (URL (content_request tok imageID)) = None ->
  new_request_error sv "POST" reply_url = None ->
  (forall e, client_Do sv (content_request tok imageID) = Err e ->
             fst (downloadImage sv tok imageID w)
             = Err ("http.DefaultClient.Get failed; " ++ e))
  /\ (forall e, client_Do sv (reply_request tok replyToken text) = Err e ->
                fst (sendReply sv tok replyToken text w)
                = Err ("http.DefaultClient.Get failed; " ++ e))
  /\ (forall resp, client_Do sv (reply_request tok replyToken text) = Ok resp ->
                   fst (sendReply sv tok replyToken text w) = Ok tt).
Proof.
  intros Hg Hp. repeat split.
  - intros e He. rewrite (downloadImage_run _ _ _ _ Hg). now rewrite He.
  - intros e He. rewrite (sendReply_run _ _ _ _ _ Hp). now rewrite He.
  - intros resp He. rewrite (sendReply_run _ _ _ _ _ Hp). now rewrite He.
Qed.

Lemma transport_failures_are_surfaced_witness :
  fst (downloadImage (example_services "token" (Err "timeout") [])
         "token" "img1" (start []))
  = Err ("http.DefaultClient.Get failed; " ++ "timeout")
  /\ fst (sendReply (example_services "token" (Ok error_response) [])
            "token" "r1" "cat" (start []))
     = Ok tt.
Proof.
  split.
  - exact (proj1
      (transport_failures_are_surfaced (example_services "token" (Err "timeout") [])
         "token" "img1" "r1" "cat" (start []) eq_refl eq_refl)
      "timeout" eq_refl).
  - exact (proj2 (proj2
      (transport_failures_are_surfaced (example_services "token" (Ok error_response) [])
         "token" "img1" "r1" "cat" (start []) eq_refl eq_refl))
      error_response eq_refl).
Defined.

(** ** The classifier *)

(** C9.  The labels [analyzeImage] returns are never a nil slice: they are
    the descriptions of the labels of the classifier, in its order, in a
    slice that exists even when there is no label; in the SendMessage built
    from them the field [Labels] is encoded as an array, not as [null]; and
    the only message the rest of [process] hands to the broker for an image
    is the SendMessage with these labels. *)
Theorem analyzeImage_labels_never_nil sv imageBytes w labels w' :
  analyzeImage sv imageBytes w = (Ok labels, w') ->
  is_nil labels = false
  /\ (exists anns,
         vision_DetectLabels sv imageBytes 10 = Ok anns
         /\ labels = mk_slice (map Description anns))
  /\ json.encode_slice json.encode_string labels
     = "[" ++ json.comma_separated (map json.encode_string (elems_of labels)) ++ "]"
  /\ (forall procMsg w0,
         let msg := {| sm_ReplyToken := pm_ReplyToken procMsg; Labels := labels |} in
         let t := trace (snd (process_image sv procMsg imageBytes w0)) in
         published t = published (trace w0)
         \/ published t
            = (published (trace w0)
                 ++ [(Getenv sv "WAIT_SEND_TOPIC", Marshal_sendMessage msg)])%list).
Proof.
  intros Hrun.
  destruct (vision_NewImageAnnotatorClient sv) eqn:Hc.
  - unfold analyzeImage, bind, check in Hrun. rewrite Hc in Hrun. discriminate Hrun.
  - rewrite (analyzeImage_run _ _ _ Hc) in Hrun.
    destruct (vision_DetectLabels sv imageBytes 10) as [anns|e|] eqn:Hd;
      try discriminate Hrun.
    injection Hrun as Hl _. subst labels.
    split; [reflexivity|]. split; [|split; [reflexivity|]].
    + exists anns. split; reflexivity.
    + intros procMsg w0. exact (process_image_published sv procMsg imageBytes anns w0 Hc Hd).
Qed.

Lemma analyzeImage_labels_never_nil_witness :
  is_nil (A := string) (mk_slice []) = false
  /\ Marshal_sendMessage {| sm_ReplyToken := "r1"; Labels := mk_slice [] |}
     = "{" ++ quoted "ReplyToken" ++ ":" ++ quoted "r1" ++ ","
           ++ quoted "Labels" ++ ":[]}".
Proof.
  split.
  - exact (proj1
      (analyzeImage_labels_never_nil (example_services "token" (Ok ok_response) [])
         "JFIF" (start []) (mk_slice [])
         (after (start []) [DetectLabels "JFIF" 10]) eq_refl)).
  - reflexivity.
Defined.

(** ** The process stage *)

Ltac case_scrutinee :=
  match goal with
  | |- context [match ?x with _ => _ end] =>
    lazymatch x with
    | context [match _ with _ => _ end] => fail
    | _ =>
      match type of x with
      | outcome _ => destruct x eqn:?
      | option _ => destruct x eqn:?
      | sum _ _ => destruct x eqn:?
      end
    end
  end.

Ltac close_run :=
  unfold after; cbn; rewrite <- ?app_assoc; reflexivity.

(** Two runs of [process] on events that carry the same data, in any two
    worlds: the outcome is the same and never a success, the same requests
    are sent, and nothing is published, because [downloadImage] never
    returns. *)
Lemma process_runs sv evt1 evt2 w1 w2 :
  event_DataAs evt1 = event_DataAs evt2 ->
  exists o es1 es2,
    process sv evt1 w1 = (o, after w1 es1)
    /\ process sv evt2 w2 = (o, after w2 es2)
    /\ o <> Ok tt
    /\ published es1 = [] /\ published es2 = []
    /\ requests es1 = requests es2.
Proof.
  intros Hd.
  unfold process, process_image, getSecret, downloadImage, analyzeImage, client_do,
    http_NewRequest, io_ReadAll, vision_NewImageFromReader.
  unfold bind, log_Printf, emit, wrap, check, Unmarshal_error, ret, fail, lift.
  rewrite Hd. cbn.
  repeat (case_scrutinee; cbn).
  all: do 3 eexists; split; [close_run|]; split; [close_run|];
       repeat split; try reflexivity; discriminate.
Qed.

(** C2 (what the code does).  [process] never publishes a SendMessage and
    never ends without error: whatever the services answer, the broker is
    left as it was and nothing is handed to [topic.Publish], because
    [downloadImage] does not return the image when the download succeeds. *)
Theorem process_publishes_nothing sv evt b :
  let r := process sv evt (start b) in
  fst r <> Ok tt
  /\ published (trace (snd r)) = []
  /\ broker (snd r) = b.
Proof.
  destruct (process_runs sv evt evt (start b) (start b) eq_refl)
    as (o & es1 & es2 & H1 & _ & Ho & Hp & _).
  cbv zeta. rewrite H1. cbn. auto.
Qed.

(** The scenario of the spec: every service succeeds and the classifier
    answers [cat] and [outdoor]; [process] panics after the download. *)
Example process_scenario :
  process (example_services "token" (Ok jpeg_response) cat_outdoor)
    (event_of (Marshal_processMessage {| ImageID := "img1"; pm_ReplyToken := "r1" |}))
    (start [])
  = (Panic,
     after (start [])
       [Log "process"; Log "request: event"; Log "image ID: img1";
        Log "reply token: r1";
        AccessSecret (token_resource "ubiquitous-couscous");
        Log "get secret";
        HttpDo (content_request "token" "img1")]).
Proof. reflexivity. Qed.

(** X16.  The [process] of [function/function.go] publishes the same fixed
    message for every input it can decode. *)
Lemma earlier_process_publishes_fixed_token sv evt subMsg procMsg id b :
  event_DataAs evt = Ok subMsg ->
  Unmarshal_processMessage (equalFold sv) (Data (Message subMsg)) = inl procMsg ->
  pubsub_NewClient sv (Getenv sv "PROJECT_ID") = None ->
  publish_Get sv b (Getenv sv "WAIT_SEND_TOPIC")
    (earlier.Marshal_sendMessage {| earlier.ReplyToken := "dummy" |}) = Ok id ->
  let r := earlier.process sv evt (start b) in
  fst r = Ok tt
  /\ published (trace (snd r))
     = [(Getenv sv "WAIT_SEND_TOPIC",
         earlier.Marshal_sendMessage {| earlier.ReplyToken := "dummy" |})].
Proof.
  intros Hd Hu Hc Hp. cbv zeta.
  unfold earlier.process.
  unfold bind, log_Printf, emit, wrap, check, Unmarshal_error, ret, fail, lift, publish.
  rewrite Hd. cbn. rewrite Hu. cbn. rewrite Hc. cbn. rewrite Hp. cbn. auto.
Qed.

(** The statements of [process] after the download, started in two
    worlds: the messages handed to the broker are the same, whatever the
    broker holds and answers; when the classifier answers and the Pub/Sub
    client is created, it is the one SendMessage of the reply token and
    the labels. *)
Lemma process_image_handed sv procMsg image w1 w2 :
  exists l,
    published (trace (snd (process_image sv procMsg image w1)))
    = (published (trace w1) ++ l)%list
    /\ published (trace (snd (process_image sv procMsg image w2)))
       = (published (trace w2) ++ l)%list
    /\ (forall anns,
           vision_NewImageAnnotatorClient sv = None ->
           vision_DetectLabels sv image 10 = Ok anns ->
           pubsub_NewClient sv (Getenv sv "PROJECT_ID") = None ->
           l = [(Getenv sv "WAIT_SEND_TOPIC",
                 Marshal_sendMessage
                   {| sm_ReplyToken := pm_ReplyToken procMsg;
                      Labels := mk_slice (map Description anns) |})]).
Proof.
  unfold process_image, bind, log_Printf, emit, ret.
  destruct (vision_NewImageAnnotatorClient sv) as [e|] eqn:Hc.
  { exists []. unfold analyzeImage, bind, check, fail, lift. rewrite Hc. cbn.
    rewrite !published_app. cbn. rewrite ?app_nil_r.
    split; [reflexivity|split; [reflexivity|]]. intros anns' Hc'. discriminate Hc'. }
  rewrite !(analyzeImage_run _ _ _ Hc).
  destruct (vision_DetectLabels sv image 10) as [anns|e|] eqn:Hd.
  2,3: exists []; unfold after; cbn; rewrite !published_app; cbn;
       rewrite ?app_nil_r;
       split; [reflexivity|split; [reflexivity|]];
       intros anns' _ Hd' _; discriminate Hd'.
  unfold check, fail, lift, ret, publish, after. cbn.
  destruct (pubsub_NewClient sv (Getenv sv "PROJECT_ID")) as [e|] eqn:Hp.
  { exists []. cbn. rewrite !published_app. cbn. rewrite ?app_nil_r.
    split; [reflexivity|split; [reflexivity|]]. intros anns' _ _ Hp'. discriminate Hp'. }
  cbn.
  exists [(Getenv sv "WAIT_SEND_TOPIC",
           Marshal_sendMessage
             {| sm_ReplyToken := pm_ReplyToken procMsg;
                Labels := mk_slice (map Description anns) |})].
  split; [|split].
  - destruct (publish_Get sv (broker w1) _ _); cbn; rewrite !published_app; cbn;
      rewrite ?app_nil_r; reflexivity.
  - destruct (publish_Get sv (broker w2) _ _); cbn; rewrite !published_app; cbn;
      rewrite ?app_nil_r; reflexivity.
  - intros anns' _ Hd' _. now injection Hd' as <-.
Qed.

(** C8 (what the code does).  Two invocations of [process] on events that
    carry the same ProcessMessage, with the same services, in any two
    worlds (the second may be the world the first has left): neither
    publishes a SendMessage and neither ends without error, because
    [downloadImage] does not return the image; their outcome is the same
    and they send the same requests.  The statements after the download
    keep no state either: started twice on the same message and image,
    they hand the same messages to the broker, which is both times the one
    SendMessage of the reply token and the labels when the classifier
    answers and the Pub/Sub client is created. *)
Theorem process_twice_publishes_nothing sv evt1 evt2 w1 w2 :
  event_DataAs evt1 = event_DataAs evt2 ->
  (exists o es1 es2,
      process sv evt1 w1 = (o, after w1 es1)
      /\ process sv evt2 w2 = (o, after w2 es2)
      /\ o <> Ok tt
      /\ published es1 = [] /\ published es2 = []
      /\ requests es1 = requests es2)
  /\ (forall procMsg image,
         exists l,
           published (trace (snd (process_image sv procMsg image w1)))
           = (published (trace w1) ++ l)%list
           /\ published (trace (snd (process_image sv procMsg image w2)))
              = (published (trace w2) ++ l)%list
           /\ (forall anns,
                  vision_NewImageAnnotatorClient sv = None ->
                  vision_DetectLabels sv image 10 = Ok anns ->
                  pubsub_NewClient sv (Getenv sv "PROJECT_ID") = None ->
                  l = [(Getenv sv "WAIT_SEND_TOPIC",
                        Marshal_sendMessage
                          {| sm_ReplyToken := pm_ReplyToken procMsg;
                             Labels := mk_slice (map Description anns) |})])).
Proof.
  intros Hd. split.
  - exact (process_runs sv evt1 evt2 w1 w2 Hd).
  - intros procMsg image. apply process_image_handed.
Qed.

(** The scenario of the spec delivered twice, every service succeeding:
    both invocations panic after the download and publish nothing. *)
Lemma process_twice_publishes_nothing_witness :
  let sv := example_services "token" (Ok jpeg_response) cat_outdoor in
  let data := Marshal_processMessage {| ImageID := "img1"; pm_ReplyToken := "r1" |} in
  let w1 := start [] in
  let w2 := snd (process sv (event_of data) w1) in
  exists o es1 es2,
    process sv (event_of data) w1 = (o, after w1 es1)
    /\ process sv (redelivery_of data) w2 = (o, after w2 es2)
    /\ o <> Ok tt
    /\ published es1 = [] /\ published es2 = []
    /\ requests es1 = requests es2.
Proof.
  intros sv data w1 w2.
  exact (proj1 (process_twice_publishes_nothing sv (event_of data) (redelivery_of data)
                  w1 w2 eq_refl)).
Defined.

(** ** The receive stage: the batch of publishes *)

Lemma response_app t1 t2 : response (t1 ++ t2) = (response t1 ++ response t2)%list.
Proof.
  induction t1 as [|e t1 IH]; [reflexivity|].
  destruct e; simpl; rewrite ?IH; reflexivity.
Qed.

(** The loop of [receive], whatever the broker answers: the messages of a
    prefix of the events are acknowledged; the loop ends without error
    only when that prefix is the whole batch, and otherwise the publish
    that failed is the last one tried.  Nothing is written to the
    response. *)
Lemma publish_events_run sv topic events w :
  exists o ext k,
    publish_events sv topic events w
    = (o, {| trace := (trace w ++ ext)%list;
             broker := (broker w ++ firstn k (messages_for topic events))%list |})
    /\ response ext = []
    /\ (o = Ok tt ->
        k = List.length events /\ published ext = messages_for topic events)
    /\ (o <> Ok tt ->
        k < List.length events
        /\ published ext = firstn (S k) (messages_for topic events)).
Proof.
  revert w. induction events as [|evt rest IH]; intro w.
  - exists (Ok tt), [], 0. cbn. rewrite !app_nil_r. destruct w.
    split; [reflexivity|]. split; [reflexivity|]. split.
    + intros _. split; reflexivity.
    + intros Hne. now elim Hne.
  - cbn [publish_events]. unfold bind at 1. unfold publish.
    destruct (publish_Get sv (broker w) topic
                (Marshal_processMessage
                   {| ImageID := ID (LineEventMessage evt);
                      pm_ReplyToken := ev_ReplyToken evt |})) as [id|e|] eqn:Hg.
    + unfold bind at 1. unfold log_Printf, emit. cbn [trace broker].
      match goal with |- context [publish_events sv topic rest ?w0] =>
        destruct (IH w0) as (o & ext & k & Hrun & Hresp & Hok & Hko)
      end.
      rewrite Hrun. cbn [trace broker].
      exists o, (Publish topic (Marshal_processMessage (message_of evt))
                 :: Log ("publish: " ++ id) :: ext), (S k).
      split.
      { f_equal. f_equal.
        - rewrite <- !app_assoc. reflexivity.
        - rewrite <- app_assoc. reflexivity. }
      split; [exact Hresp|]. split.
      * intros Ho. destruct (Hok Ho) as [Hk Hp]. cbn. rewrite Hk, Hp. auto.
      * intros Ho. destruct (Hko Ho) as [Hk Hp]. cbn. split; [lia|].
        cbn in Hp. now rewrite Hp.
    + exists (Err e), [Publish topic (Marshal_processMessage (message_of evt))], 0.
      cbn. rewrite app_nil_r.
      split; [reflexivity|]. split; [reflexivity|]. split.
      * discriminate.
      * intros _. split; [lia|reflexivity].
    + exists Panic, [Publish topic (Marshal_processMessage (message_of evt))], 0.
      cbn. rewrite app_nil_r.
      split; [reflexivity|]. split; [reflexivity|]. split.
      * discriminate.
      * intros _. split; [lia|reflexivity].
Qed.

(** When the broker acknowledges every message, the loop ends without
    error. *)
Lemma publish_events_acked sv topic events w :
  (forall st data, exists id, publish_Get sv st topic data = Ok id) ->
  fst (publish_events sv topic events w) = Ok tt.
Proof.
  intros Hack. revert w. induction events as [|evt rest IH]; intro w.
  - reflexivity.
  - cbn [publish_events]. unfold bind at 1. unfold publish.
    destruct (Hack (broker w)
                (Marshal_processMessage
                   {| ImageID := ID (LineEventMessage evt);
                      pm_ReplyToken := ev_ReplyToken evt |})) as [id Hid].
    rewrite Hid. unfold bind at 1. unfold log_Printf, emit. apply IH.
Qed.

Lemma returnError_run sv code e w :
  returnError sv code e w
  = (Ok tt,
     after w
       ([Log ("error: " ++ e); WriteHeader code; Write e]
          ++ match write_error sv e with
             | Some e' => [Log ("http.ResponseWriter.Write failed; " ++ e')]
             | None => []
             end)%list).
Proof.
  unfold returnError, bind, log_Printf, emit, ret, after. cbn.
  destruct (write_error sv e); cbn; rewrite <- ?app_assoc; reflexivity.
Qed.

Lemma receive_run sv r body hook b :
  in_Body r = Ok body ->
  Unmarshal_lineWebHook (equalFold sv) body = inl hook ->
  receive sv r (start b)
  = let w0 := after (start b) [Log "receive"; Log ("request: " ++ in_Dump r)] in
    match pubsub_NewClient sv (Getenv sv "PROJECT_ID") with
    | Some e => returnError sv StatusInternalServerError e w0
    | None =>
      match publish_events sv (Getenv sv "WAIT_PROCESS_TOPIC")
              (elems_of (Events hook)) w0 with
      | (Ok _, w') => (Ok tt, after w' [WriteHeader StatusOK; Write "receive"])
      | (Err e, w') => returnError sv StatusInternalServerError e w'
      | (Panic, w') => (Panic, w')
      end
    end.
Proof.
  intros Hb Hu.
  unfold receive, receive_steps, httputil_DumpRequest.
  unfold bind at 1 2 3 4 5 6. unfold log_Printf, emit, lift, Unmarshal_error, check.
  rewrite Hb. cbn. rewrite Hb. cbn. rewrite Hu. cbn.
  destruct (pubsub_NewClient sv (Getenv sv "PROJECT_ID")) as [e|]; cbn.
  - reflexivity.
  - unfold after, start. cbn.
    destruct (publish_events sv _ _ _) as [[[]|e|] w']; try reflexivity.
    unfold bind, emit, after. cbn. rewrite <- app_assoc. reflexivity.
Qed.

Lemma response_split pre c post :
  response (pre ++ WriteHeader c :: post)
  = (response pre ++ WriteHeader c :: response post)%list.
Proof. now rewrite response_app. Qed.

(** In a trace that ends with the first write of a status, that write is
    the only place where a status is written. *)
Lemma status_written_once l c s pre c' post :
  response l = [] ->
  (l ++ [WriteHeader c; Write s])%list = (pre ++ WriteHeader c' :: post)%list ->
  pre = l /\ post = [Write s].
Proof.
  revert pre. induction l as [|a l IH]; intros pre Hr Heq.
  - destruct pre as [|x pre]; cbn in Heq.
    + injection Heq as _ Hp. now subst post.
    + injection Heq as _ Hp.
      destruct pre as [|y pre]; cbn in Hp; [discriminate Hp|].
      injection Hp as _ Hp. destruct pre; discriminate Hp.
  - destruct pre as [|x pre]; cbn in Heq.
    + injection Heq as Ha _. subst a. discriminate Hr.
    + injection Heq as Ha Heq. subst x.
      assert (Hr' : response l = []) by (destruct a; cbn in Hr; congruence).
      destruct (IH pre Hr' Heq) as [Hp Hpost]. subst. auto.
Qed.

(** A run of [receive] in which the client is created and the broker
    acknowledges every publish. *)
Lemma receive_acked sv r body hook b :
  in_Body r = Ok body ->
  Unmarshal_lineWebHook (equalFold sv) body = inl hook ->
  pubsub_NewClient sv (Getenv sv "PROJECT_ID") = None ->
  (forall st data,
      exists id, publish_Get sv st (Getenv sv "WAIT_PROCESS_TOPIC") data = Ok id) ->
  let msgs := messages_for (Getenv sv "WAIT_PROCESS_TOPIC") (elems_of (Events hook)) in
  let w := snd (receive sv r (start b)) in
  published (trace w) = msgs
  /\ broker w = (b ++ msgs)%list
  /\ response (trace w) = [WriteHeader StatusOK; Write "receive"].
Proof.
  intros Hb Hu Hc Hack msgs w.
  pose proof (receive_run sv r body hook b Hb Hu) as Hrun. cbv zeta in Hrun.
  set (topic := Getenv sv "WAIT_PROCESS_TOPIC") in *.
  set (events := elems_of (Events hook)) in *.
  set (w0 := after (start b) [Log "receive"; Log ("request: " ++ in_Dump r)]) in *.
  destruct (publish_events_run sv topic events w0)
    as (o & ext & k & Hloop & Hresp & Hok & Hko).
  subst w. rewrite Hrun, Hc, Hloop.
  pose proof (publish_events_acked sv topic events w0 Hack) as Ho.
  rewrite Hloop in Ho. cbn in Ho. subst o.
  destruct (Hok eq_refl) as [Hk Hp]. cbn.
  rewrite !published_app, !response_app, Hp, Hresp. cbn.
  rewrite app_nil_r. subst k.
  unfold msgs, messages_for. rewrite firstn_all2.
  - auto.
  - rewrite length_map. lia.
Qed.

(** C1.  For a request whose body decodes to a webhook envelope with N
    events: when the Pub/Sub client is created and the broker acknowledges
    every publish, [receive] publishes exactly the N messages of the
    events, in order, each with the image identifier and the reply token of
    its event, and answers 200 with the body [receive]; in every run,
    status 200 is written only after each of the N messages has been
    published and acknowledged, with nothing written to the response
    before it and only the body after it; and the message of each event is
    decoded by the process stage with the identifier and the token of the
    event unchanged. *)
Theorem receive_publishes_batch sv r body hook b :
  in_Body r = Ok body ->
  Unmarshal_lineWebHook (equalFold sv) body = inl hook ->
  let topic := Getenv sv "WAIT_PROCESS_TOPIC" in
  let events := elems_of (Events hook) in
  let msgs := messages_for topic events in
  let w := snd (receive sv r (start b)) in
  (pubsub_NewClient sv (Getenv sv "PROJECT_ID") = None ->
   (forall st data, exists id, publish_Get sv st topic data = Ok id) ->
   published (trace w) = msgs
   /\ broker w = (b ++ msgs)%list
   /\ List.length msgs = List.length events
   /\ response (trace w) = [WriteHeader StatusOK; Write "receive"])
  /\ (forall pre post,
         trace w = (pre ++ WriteHeader StatusOK :: post)%list ->
         post = [Write "receive"]
         /\ response pre = []
         /\ published pre = msgs
         /\ broker w = (b ++ msgs)%list)
  /\ (forall evt,
         In evt events ->
         Unmarshal_processMessage (equalFold sv)
           (Marshal_processMessage (message_of evt))
         = inl {| ImageID := ID (LineEventMessage evt);
                  pm_ReplyToken := ev_ReplyToken evt |}).
Proof.
  intros Hb Hu topic events msgs w.
  pose proof (receive_run sv r body hook b Hb Hu) as Hrun. cbv zeta in Hrun.
  fold topic in Hrun. fold events in Hrun.
  set (w0 := after (start b) [Log "receive"; Log ("request: " ++ in_Dump r)]) in *.
  destruct (publish_events_run sv topic events w0)
    as (o & ext & k & Hloop & Hresp & Hok & Hko).
  split; [|split].
  3:{ intros evt Hin. exact (published_message_round_trip _ _ _ _ _ Hu Hin). }
  - intros Hc Hack.
    destruct (receive_acked sv r body hook b Hb Hu Hc Hack) as (Hp & Hbr & Hr).
    repeat split; try assumption.
    unfold msgs, messages_for. now rewrite length_map.
  - intros pre post Htr. subst w. rewrite Hrun in Htr.
    destruct (pubsub_NewClient sv (Getenv sv "PROJECT_ID")) as [e|].
    { exfalso. rewrite returnError_run in Htr. cbn in Htr.
      apply (f_equal response) in Htr. rewrite response_split in Htr.
      cbn in Htr. unfold StatusOK, StatusInternalServerError in Htr.
      destruct (response pre) as [|x [|y [|z l]]]; cbn in Htr;
        destruct (write_error sv e); cbn in Htr; discriminate Htr. }
    rewrite Hrun. rewrite Hloop in *.
    destruct o as [[]|e|].
    + destruct (Hok eq_refl) as [Hk Hp]. cbn in Htr. cbn.
      apply (status_written_once
               (Log "receive" :: Log ("request: " ++ in_Dump r) :: ext)) in Htr.
      * destruct Htr as [Hpre Hpost]. subst pre post. cbn.
        rewrite Hp, Hresp. subst k.
        unfold msgs, messages_for. rewrite firstn_all2; [auto|].
        rewrite length_map. lia.
      * cbn. exact Hresp.
    + exfalso. rewrite returnError_run in Htr. cbn in Htr.
      apply (f_equal response) in Htr. rewrite response_split in Htr.
      rewrite ?response_app, ?Hresp in Htr. cbn in Htr.
      rewrite ?response_app, ?Hresp in Htr. cbn in Htr.
      unfold StatusOK, StatusInternalServerError in Htr.
      destruct (response pre) as [|x [|y [|z l]]]; cbn in Htr;
        destruct (write_error sv e); cbn in Htr; discriminate Htr.
    + exfalso. cbn in Htr.
      apply (f_equal response) in Htr. rewrite response_split in Htr.
      rewrite ?response_app, ?Hresp in Htr. cbn in Htr.
      rewrite ?response_app, ?Hresp in Htr. cbn in Htr.
      destruct (response pre); discriminate Htr.
Qed.

Lemma receive_publishes_batch_witness :
  let w :=
    snd (receive (example_services "token" (Ok ok_response) [])
           (request_with scenario_body) (start [])) in
  published (trace w)
  = [("wait-process",
      Marshal_processMessage {| ImageID := "img1"; pm_ReplyToken := "r1" |})]
  /\ broker w
     = [("wait-process",
         Marshal_processMessage {| ImageID := "img1"; pm_ReplyToken := "r1" |})]
  /\ response (trace w) = [WriteHeader StatusOK; Write "receive"].
Proof.
  pose proof
    (proj1
       (receive_publishes_batch (example_services "token" (Ok ok_response) [])
          (request_with scenario_body) scenario_body
          {| Events := mk_slice
               [{| ev_ReplyToken := "r1"; LineEventMessage := {| ID := "img1" |} |}] |}
          [] eq_refl eq_refl)
       eq_refl (fun _ _ => ex_intro _ "1" eq_refl)) as H.
  cbv zeta in H. cbv zeta.
  destruct H as (Hp & Hb & _ & Hr). split; [exact Hp|]. split; [exact Hb|exact Hr].
Defined.

(** ** The receive stage: events without fields *)







(** A field that no member selects is absent or empty. *)
Lemma absent_field_blank fold names i ms :
  names_field fold names i ms = false -> field_blank fold names i ms = true.
Proof.
  unfold names_field, field_blank.
  induction ms as [|[k v] ms IH]; intros Hn; [reflexivity|].
  cbn [existsb forallb fst snd] in *.
  apply orb_false_iff in Hn. destruct Hn as [Hk Hn].
  rewrite (IH Hn), andb_true_r.
  destruct (json.find_field fold names k) as [j|]; [|reflexivity].
  now rewrite Hk.
Qed.






(** ** The receive stage: failures *)

(** The loop of [receive] when the broker acknowledges the messages of the
    events [pre] and refuses the message of the next event: the loop ends
    with the error of the broker, the events after it are not tried. *)
Lemma publish_events_refused sv topic pre evt post e w :
  acknowledges sv topic (broker w) (data_for pre) ->
  publish_Get sv (broker w ++ messages_for topic pre)%list topic
    (Marshal_processMessage (message_of evt)) = Err e ->
  exists ext,
    publish_events sv topic (pre ++ evt :: post) w
    = (Err e, {| trace := (trace w ++ ext)%list;
                 broker := (broker w ++ messages_for topic pre)%list |})
    /\ published ext = messages_for topic (pre ++ [evt])
    /\ response ext = [].
Proof.
  revert w. induction pre as [|p pre IH]; intros w Hack Hget.
  - cbn [messages_for map] in Hget. rewrite app_nil_r in Hget.
    exists [Publish topic (Marshal_processMessage (message_of evt))].
    cbn [List.app publish_events]. unfold bind at 1. unfold publish.
    change {| ImageID := ID (LineEventMessage evt); pm_ReplyToken := ev_ReplyToken evt |}
      with (message_of evt).
    rewrite Hget. cbn [messages_for map]. rewrite app_nil_r. auto.
  - cbn [data_for map acknowledges] in Hack. destruct Hack as [[id Hid] Hack].
    cbn [List.app publish_events]. unfold bind at 1. unfold publish.
    change {| ImageID := ID (LineEventMessage p); pm_ReplyToken := ev_ReplyToken p |}
      with (message_of p).
    rewrite Hid. unfold bind at 1. unfold log_Printf, emit. cbn [trace broker].
    match goal with |- context [publish_events sv topic _ ?w0] =>
      destruct (IH w0) as (ext & Hrun & Hpub & Hresp)
    end.
    + exact Hack.
    + cbn [broker]. rewrite <- app_assoc. exact Hget.
    + rewrite Hrun. cbn [trace broker].
      exists (Publish topic (Marshal_processMessage (message_of p))
              :: Log ("publish: " ++ id) :: ext).
      split; [|split].
      * f_equal. f_equal; rewrite <- !app_assoc; reflexivity.
      * cbn. now rewrite Hpub.
      * exact Hresp.
Qed.

(** X1.  When the broker acknowledges the messages of the first events of a
    batch and refuses the next one, [receive] answers 500 with the text of
    the error of the broker; the messages acknowledged stay in the broker,
    the message refused is the last one handed to it, and the events after
    it are dropped. *)
Theorem receive_stops_at_failed_publish sv r body hook b pre evt post e :
  in_Body r = Ok body ->
  Unmarshal_lineWebHook (equalFold sv) body = inl hook ->
  pubsub_NewClient sv (Getenv sv "PROJECT_ID") = None ->
  elems_of (Events hook) = (pre ++ evt :: post)%list ->
  let topic := Getenv sv "WAIT_PROCESS_TOPIC" in
  acknowledges sv topic b (data_for pre) ->
  publish_Get sv (b ++ messages_for topic pre)%list topic
    (Marshal_processMessage (message_of evt)) = Err e ->
  let w := snd (receive sv r (start b)) in
  published (trace w) = messages_for topic (pre ++ [evt])
  /\ broker w = (b ++ messages_for topic pre)%list
  /\ response (trace w) = [WriteHeader StatusInternalServerError; Write e].
Proof.
  intros Hb Hu Hc Hev topic Hack Hget w. subst w.
  rewrite (receive_run sv r body hook b Hb Hu). cbv zeta. rewrite Hc, Hev.
  destruct (publish_events_refused sv topic pre evt post e
              (after (start b) [Log "receive"; Log ("request: " ++ in_Dump r)])
              Hack Hget) as (ext & Hrun & Hpub & Hresp).
  fold topic. rewrite Hrun, returnError_run. cbn [snd after trace broker start].
  rewrite !published_app, !response_app, Hpub, Hresp. cbn [List.app].
  split; [|split; [reflexivity|]].
  - destruct (write_error sv e); cbn; now rewrite app_nil_r.
  - destruct (write_error sv e); reflexivity.
Qed.

Lemma receive_stops_at_failed_publish_witness :
  let sv := with_full_broker (example_services "token" (Ok ok_response) []) 1 in
  let w := snd (receive sv (request_with two_events_body) (start [])) in
  published (trace w)
  = [("wait-process",
      Marshal_processMessage {| ImageID := "img1"; pm_ReplyToken := "r1" |});
     ("wait-process",
      Marshal_processMessage {| ImageID := "img2"; pm_ReplyToken := "r2" |})]
  /\ broker w
     = [("wait-process",
         Marshal_processMessage {| ImageID := "img1"; pm_ReplyToken := "r1" |})]
  /\ response (trace w)
     = [WriteHeader StatusInternalServerError; Write "deadline exceeded"].
Proof.
  exact (receive_stops_at_failed_publish
           (with_full_broker (example_services "token" (Ok ok_response) []) 1)
           (request_with two_events_body) two_events_body
           {| Events := mk_slice
                [{| ev_ReplyToken := "r1"; LineEventMessage := {| ID := "img1" |} |};
                 {| ev_ReplyToken := "r2"; LineEventMessage := {| ID := "img2" |} |}] |}
           []
           [{| ev_ReplyToken := "r1"; LineEventMessage := {| ID := "img1" |} |}]
           {| ev_ReplyToken := "r2"; LineEventMessage := {| ID := "img2" |} |}
           [] "deadline exceeded"
           eq_refl eq_refl eq_refl eq_refl
           (conj (ex_intro _ "1" eq_refl) I) eq_refl).
Defined.

(** [receive] writes nothing to the response before it has ended its
    steps. *)
Lemma receive_steps_silent sv r w :
  exists o ext bk,
    receive_steps sv r w = (o, {| trace := (trace w ++ ext)%list; broker := bk |})
    /\ response ext = [].
Proof.
  unfold receive_steps, httputil_DumpRequest.
  unfold bind at 1 2 3 4 5 6. unfold log_Printf, emit, lift, Unmarshal_error, check.
  cbn [trace broker].
  destruct (in_Body r) as [body|e|] eqn:Hb.
  2:{ exists (Err e), [Log "receive"], (broker w). auto. }
  2:{ exists Panic, [Log "receive"], (broker w). auto. }
  cbn [trace broker]. rewrite Hb.
  destruct (Unmarshal_lineWebHook (equalFold sv) body) as [hook|k].
  2:{ eexists _, [Log "receive"; Log ("request: " ++ in_Dump r)], (broker w).
      rewrite <- !app_assoc. auto. }
  destruct (pubsub_NewClient sv (Getenv sv "PROJECT_ID")) as [e|].
  { eexists _, [Log "receive"; Log ("request: " ++ in_Dump r)], (broker w).
    unfold fail, lift. rewrite <- !app_assoc. auto. }
  unfold ret.
  match goal with |- context [publish_events sv ?t ?evs ?w0] =>
    destruct (publish_events_run sv t evs w0) as (o & ext & k & Hrun & Hresp & _)
  end.
  rewrite Hrun. cbn [trace broker].
  eexists o, (Log "receive" :: Log ("request: " ++ in_Dump r) :: ext), _.
  rewrite <- !app_assoc. split; [reflexivity|exact Hresp].
Qed.

(** X2.  Every invocation of [receive] that comes to its end answers exactly
    once: the status is written once, followed by one body; it is 200 with
    the body [receive], or 500 with the text of an error.  An invocation
    that panics has written nothing. *)
Theorem receive_answers_once sv r b :
  let res := receive sv r (start b) in
  (fst res = Panic /\ response (trace (snd res)) = [])
  \/ (fst res = Ok tt
      /\ (response (trace (snd res)) = [WriteHeader StatusOK; Write "receive"]
          \/ exists e,
               response (trace (snd res))
               = [WriteHeader StatusInternalServerError; Write e])).
Proof.
  cbv zeta. unfold receive.
  destruct (receive_steps_silent sv r (start b)) as (o & ext & bk & Hrun & Hresp).
  rewrite Hrun. destruct o as [[]|e|].
  - right. unfold bind, emit. cbn. split; [reflexivity|]. left.
    rewrite !response_app, Hresp. reflexivity.
  - right. rewrite returnError_run. cbn. split; [reflexivity|]. right. exists e.
    rewrite !response_app, Hresp. destruct (write_error sv e); reflexivity.
  - left. cbn. auto.
Qed.

(** X3.  A body that decodes to an envelope without events, as the JSON [null]
    does, is answered 200 once the Pub/Sub client is created: nothing is
    handed to the broker, whatever it would answer. *)
Theorem receive_without_events sv r body hook b :
  in_Body r = Ok body ->
  Unmarshal_lineWebHook (equalFold sv) body = inl hook ->
  elems_of (Events hook) = [] ->
  pubsub_NewClient sv (Getenv sv "PROJECT_ID") = None ->
  receive sv r (start b)
  = (Ok tt,
     after (start b)
       [Log "receive"; Log ("request: " ++ in_Dump r);
        WriteHeader StatusOK; Write "receive"]).
Proof.
  intros Hb Hu He Hc.
  rewrite (receive_run sv r body hook b Hb Hu). cbv zeta. rewrite Hc, He.
  cbn [publish_events]. unfold ret. now rewrite after_after.
Qed.

Lemma receive_without_events_witness :
  let sv := with_full_broker (example_services "token" (Ok ok_response) []) 0 in
  receive sv (request_with "null") (start [])
  = (Ok tt,
     after (start [])
       [Log "receive"; Log "request: POST / HTTP/1.1";
        WriteHeader StatusOK; Write "receive"]).
Proof.
  exact (receive_without_events
           (with_full_broker (example_services "token" (Ok ok_response) []) 0)
           (request_with "null") "null" {| Events := nil_slice |} []
           eq_refl eq_refl eq_refl eq_refl).
Defined.

(** X4.  An error before the loop of [receive] is answered 500 with its text
    and nothing is handed to the broker: when the request cannot be read,
    which [httputil.DumpRequest] reports, and when the Pub/Sub client
    cannot be created, whatever the events of the body. *)
Theorem receive_fails_before_publishing sv r b e :
  in_Body r = Err e
  \/ (exists body hook,
         in_Body r = Ok body
         /\ Unmarshal_lineWebHook (equalFold sv) body = inl hook
         /\ pubsub_NewClient sv (Getenv sv "PROJECT_ID") = Some e) ->
  let w := snd (receive sv r (start b)) in
  response (trace w) = [WriteHeader StatusInternalServerError; Write e]
  /\ published (trace w) = []
  /\ broker w = b.
Proof.
  intros [Hb|(body & hook & Hb & Hu & Hc)] w; subst w.
  - unfold receive, receive_steps, httputil_DumpRequest.
    unfold bind at 1 2. unfold log_Printf, emit, lift. rewrite Hb.
    rewrite returnError_run. cbn.
    destruct (write_error sv e); auto.
  - rewrite (receive_run sv r body hook b Hb Hu). cbv zeta. rewrite Hc.
    rewrite returnError_run. cbn.
    destruct (write_error sv e); auto.
Qed.

Lemma receive_fails_before_publishing_witness :
  let sv := without_pubsub (example_services "token" (Ok ok_response) []) in
  let w := snd (receive sv (request_with scenario_body) (start [])) in
  response (trace w) = [WriteHeader StatusInternalServerError; Write "no credentials"]
  /\ published (trace w) = []
  /\ broker w = [].
Proof.
  refine (receive_fails_before_publishing
            (without_pubsub (example_services "token" (Ok ok_response) []))
            (request_with scenario_body) [] "no credentials" (or_intror _)).
  exists scenario_body,
    {| Events := mk_slice
         [{| ev_ReplyToken := "r1"; LineEventMessage := {| ID := "img1" |} |}] |}.
  repeat split.
Defined.

(** ** The send stage: what it does and what it never does *)

Lemma requests_app t1 t2 : requests (t1 ++ t2) = (requests t1 ++ requests t2)%list.
Proof.
  induction t1 as [|e t1 IH]; [reflexivity|].
  destruct e; simpl; rewrite ?IH; reflexivity.
Qed.

(** X5.  Whatever the event and whatever the services answer, [send] hands
    nothing to the broker and does not call the classifier; it asks for
    one secret at most, and sends one request at most, which is a POST to
    the reply endpoint. *)
Theorem send_effects sv evt w :
  exists es,
    snd (send sv evt w) = after w es
    /\ published es = []
    /\ detections es = []
    /\ (secrets es = []
        \/ secrets es = [token_resource (Getenv sv "PROJECT_ID")])
    /\ (requests es = []
        \/ exists tok replyToken text,
             requests es = [reply_request tok replyToken text]).
Proof.
  unfold send, getSecret, sendReply, client_do, http_NewRequest.
  unfold bind, log_Printf, emit, wrap, check, Unmarshal_error, ret, fail, lift.
  cbn.
  repeat (case_scrutinee; cbn).
  all: eexists; split; [close_run|]; cbn;
       repeat split; auto;
       right; do 3 eexists; reflexivity.
Qed.

(** [send] up to the reply, for an event whose data decodes and a secret
    that is read. *)
Lemma send_run sv evt subMsg sendMsg tok w :
  event_DataAs evt = Ok subMsg ->
  Unmarshal_sendMessage (equalFold sv) (Data (Message subMsg)) = inl sendMsg ->
  secretmanager_NewClient sv = None ->
  secret_AccessSecretVersion sv (token_resource (Getenv sv "PROJECT_ID")) = Ok tok ->
  send sv evt w
  = (sendReply sv tok (sm_ReplyToken sendMsg) (reply_text (elems_of (Labels sendMsg))) ;;;
     log_Printf "send reply" ;;; ret tt)
      (after w
         [Log "send"; Log ("request: " ++ event_String evt);
          Log ("reply token: " ++ sm_ReplyToken sendMsg);
          Log ("labels: " ++ fmt_strings (Labels sendMsg));
          AccessSecret (token_resource (Getenv sv "PROJECT_ID"));
          Log "get secret"]).
Proof.
  intros Hd Hu Hc Hs.
  unfold send. unfold bind at 1 2 3 4 5 6 7.
  unfold log_Printf at 1 2 3 4, emit, wrap, Unmarshal_error, ret.
  rewrite Hd. cbn. rewrite Hu. cbn.
  rewrite (getSecret_ok _ _ tok _ Hc Hs). cbn.
  rewrite Join_reply_text. unfold after. cbn. rewrite <- !app_assoc. reflexivity.
Qed.

(** X6.  [send] returns without a request to the reply endpoint when a step
    before the reply fails: the event cannot be read, its data is not a
    SendMessage, or the secret cannot be read.  The error names the step;
    when the message is not decoded the secret is not asked for. *)
Theorem send_stops_before_reply sv evt w :
  let r := send sv evt w in
  (forall e,
      event_DataAs evt = Err e ->
      r = (Err ("event.Event.DataAs failed; " ++ e),
           after w [Log "send"; Log ("request: " ++ event_String evt)]))
  /\ (forall subMsg k,
         event_DataAs evt = Ok subMsg ->
         Unmarshal_sendMessage (equalFold sv) (Data (Message subMsg)) = inr k ->
         r = (Err ("json.Unmarshal failed; " ++ json_error sv k (Data (Message subMsg))),
              after w [Log "send"; Log ("request: " ++ event_String evt)]))
  /\ (forall subMsg sendMsg e,
         event_DataAs evt = Ok subMsg ->
         Unmarshal_sendMessage (equalFold sv) (Data (Message subMsg)) = inl sendMsg ->
         secretmanager_NewClient sv = None ->
         secret_AccessSecretVersion sv (token_resource (Getenv sv "PROJECT_ID")) = Err e ->
         fst r = Err ("secretmanager.Client.AccessSecretVersion failed; " ++ e)
         /\ requests (trace (snd r)) = requests (trace w)).
Proof.
  cbv zeta. split; [|split].
  - intros e Hd. unfold send, bind, log_Printf, emit, wrap, fail, lift.
    rewrite Hd. unfold after. cbn. rewrite <- app_assoc. reflexivity.
  - intros subMsg k Hd Hu.
    unfold send, bind, log_Printf, emit, wrap, Unmarshal_error, fail, lift, ret.
    rewrite Hd. cbn. rewrite Hu. unfold after. cbn. rewrite <- app_assoc. reflexivity.
  - intros subMsg sendMsg e Hd Hu Hc Hs.
    unfold send, getSecret.
    unfold bind, log_Printf, emit, wrap, check, Unmarshal_error, fail, lift, ret.
    rewrite Hd. cbn. rewrite Hu. cbn. rewrite Hc. cbn.
    fold (token_resource (Getenv sv "PROJECT_ID")). rewrite Hs. cbn.
    split; [reflexivity|]. rewrite !requests_app. cbn. now rewrite !app_nil_r.
Qed.

Lemma send_stops_before_reply_witness :
  let sv := without_secret (example_services "token" (Ok ok_response) []) in
  let data := Marshal_sendMessage {| sm_ReplyToken := "r1"; Labels := mk_slice ["cat"] |} in
  send sv (event_of "{") (start [])
  = (Err ("json.Unmarshal failed; " ++ "json: syntax error"),
     after (start []) [Log "send"; Log ("request: " ++ "event")])
  /\ fst (send sv (event_of data) (start []))
     = Err ("secretmanager.Client.AccessSecretVersion failed; " ++ "permission denied")
  /\ requests (trace (snd (send sv (event_of data) (start [])))) = [].
Proof.
  intros sv data. split.
  - exact (proj1 (proj2 (send_stops_before_reply sv (event_of "{") (start [])))
             {| Message := {| Data := "{" |} |} json.SyntaxError eq_refl eq_refl).
  - exact (proj2 (proj2 (send_stops_before_reply sv (event_of data) (start [])))
             {| Message := {| Data := data |} |}
             {| sm_ReplyToken := "r1"; Labels := mk_slice ["cat"] |}
             "permission denied" eq_refl eq_refl eq_refl eq_refl).
Defined.

(** X7.  The body of the request [send] posts is one JSON object whatever the
    message decoded: read back, it gives the reply token of the message
    and one message of type [text] whose text is the labels joined by
    newlines.  The strings a decoded message holds are valid UTF-8, so
    nothing of them is replaced in the encoding. *)
Theorem send_reply_body_reads_back sv evt subMsg sendMsg tok b :
  event_DataAs evt = Ok subMsg ->
  Unmarshal_sendMessage (equalFold sv) (Data (Message subMsg)) = inl sendMsg ->
  secretmanager_NewClient sv = None ->
  secret_AccessSecretVersion sv (token_resource (Getenv sv "PROJECT_ID")) = Ok tok ->
  new_request_error sv "POST" reply_url = None ->
  exists body,
    requests (trace (snd (send sv evt (start b))))
    = [{| Method := "POST"; URL := reply_url;
          Header := [("Authorization", "Bearer " ++ tok);
                     ("Content-Type", "application/json")];
          Body := Some body |}]
    /\ json.Valid body
       = Some (reply_value (sm_ReplyToken sendMsg)
                 (reply_text (elems_of (Labels sendMsg)))).
Proof.
  intros Hd Hu Hc Hs Hn.
  destruct (Unmarshal_sendMessage_valid _ _ _ Hu) as [Htok Hlabels].
  eexists. split.
  - rewrite (send_run _ _ _ _ _ _ Hd Hu Hc Hs). unfold bind.
    rewrite (sendReply_run _ _ _ _ _ Hn).
    destruct (client_Do sv _); reflexivity.
  - apply Valid_replyFormat; [exact Htok|].
    now apply ValidString_reply_text.
Qed.

Lemma send_reply_body_reads_back_witness :
  let sv := example_services "token" (Ok ok_response) [] in
  let data :=
    Marshal_sendMessage {| sm_ReplyToken := "r1"; Labels := mk_slice ["cat"; "outdoor"] |} in
  exists body,
    requests (trace (snd (send sv (event_of data) (start []))))
    = [{| Method := "POST"; URL := reply_url;
          Header := [("Authorization", "Bearer " ++ "token");
                     ("Content-Type", "application/json")];
          Body := Some body |}]
    /\ json.Valid body = Some (reply_value "r1" ("cat" ++ newline ++ "outdoor")).
Proof.
  intros sv data.
  exact (send_reply_body_reads_back sv (event_of data)
           {| Message := {| Data := data |} |}
           {| sm_ReplyToken := "r1"; Labels := mk_slice ["cat"; "outdoor"] |}
           "token" [] eq_refl eq_refl eq_refl eq_refl eq_refl).
Defined.

(** ** Messages without fields *)

(** A SendMessage decoded from an object: a field that no member selects
    keeps its value. *)
Lemma store_sendMessage_absent fold ms old p :
  store_sendMessage fold (json.Object ms) old = Some p ->
  (names_field fold ["ReplyToken"; "Labels"] 0 ms = false -> fst p = fst old)
  /\ (names_field fold ["ReplyToken"; "Labels"] 1 ms = false -> snd p = snd old).
Proof.
  revert old. induction ms as [|[k v] ms IH]; intros old Hs.
  - cbn in Hs. injection Hs as <-. auto.
  - unfold store_sendMessage, json.store_struct in Hs.
    cbn [json.store_members] in Hs.
    unfold names_field. cbn [existsb fst].
    destruct (json.find_field fold ["ReplyToken"; "Labels"] k) as [[|[|i]]|].
    + destruct (json.store_string v (fst old)) as [s|]; [|discriminate Hs].
      cbn [option_map] in Hs. apply IH in Hs. cbn in Hs. destruct Hs as [_ Hl].
      split; [discriminate|]. intros Ha. cbn in Ha. exact (Hl Ha).
    + destruct (json.store_slice json.store_string EmptyString v (snd old)) as [b'|];
        [|discriminate Hs].
      cbn [option_map] in Hs. apply IH in Hs. cbn in Hs. destruct Hs as [Ht _].
      split; [|discriminate]. intros Ha. cbn in Ha. exact (Ht Ha).
    + apply IH in Hs. destruct Hs as [Ht Hl]. split; intros Ha; cbn in Ha; auto.
    + apply IH in Hs. destruct Hs as [Ht Hl]. split; intros Ha; cbn in Ha; auto.
Qed.

(** X8.  [send] does not check the message.  For data that is a JSON object,
    decoded without error: when no member gives the reply token the reply
    is posted with an empty reply token, and when no member gives the
    labels it is posted with an empty text. *)
Theorem send_does_not_validate sv evt subMsg ms sendMsg tok b :
  event_DataAs evt = Ok subMsg ->
  json.Valid (Data (Message subMsg)) = Some (json.Object ms) ->
  Unmarshal_sendMessage (equalFold sv) (Data (Message subMsg)) = inl sendMsg ->
  secretmanager_NewClient sv = None ->
  secret_AccessSecretVersion sv (token_resource (Getenv sv "PROJECT_ID")) = Ok tok ->
  new_request_error sv "POST" reply_url = None ->
  let absent i := names_field (equalFold sv) ["ReplyToken"; "Labels"] i ms = false in
  let sent := requests (trace (snd (send sv evt (start b)))) in
  (absent 0 ->
   sent = [reply_request tok EmptyString (reply_text (elems_of (Labels sendMsg)))])
  /\ (absent 1 ->
      sent = [reply_request tok (sm_ReplyToken sendMsg) EmptyString]
      /\ Labels sendMsg = nil_slice).
Proof.
  intros Hd Hv Hu Hc Hs Hn absent sent.
  assert (Hsent : sent
                  = [reply_request tok (sm_ReplyToken sendMsg)
                       (reply_text (elems_of (Labels sendMsg)))]).
  { unfold sent. rewrite (send_run _ _ _ _ _ _ Hd Hu Hc Hs). unfold bind.
    rewrite (sendReply_run _ _ _ _ _ Hn).
    destruct (client_Do sv _); reflexivity. }
  unfold Unmarshal_sendMessage, json.Unmarshal in Hu. rewrite Hv in Hu.
  destruct (store_sendMessage (equalFold sv) (json.Object ms)
              (EmptyString, json.empty_buffer)) as [[t buf]|] eqn:Hst;
    [|discriminate Hu].
  injection Hu as <-.
  destruct (store_sendMessage_absent _ _ _ _ Hst) as [Ht Hl].
  cbn [fst snd sm_ReplyToken Labels] in *. split.
  - intros Ha. rewrite Hsent. now rewrite (Ht Ha).
  - intros Ha. rewrite Hsent. rewrite (Hl Ha). auto.
Qed.

Lemma send_does_not_validate_witness :
  requests
    (trace (snd (send (example_services "token" (Ok ok_response) [])
                   (event_of "{}") (start []))))
  = [reply_request "token" EmptyString EmptyString].
Proof.
  exact (proj1
    (send_does_not_validate (example_services "token" (Ok ok_response) [])
       (event_of "{}") {| Message := {| Data := "{}" |} |} []
       {| sm_ReplyToken := EmptyString; Labels := nil_slice |}
       "token" [] eq_refl eq_refl eq_refl eq_refl eq_refl eq_refl) eq_refl).
Defined.

(** ** The process stage: what it does and what it never does *)

Lemma detections_app t1 t2 :
  detections (t1 ++ t2) = (detections t1 ++ detections t2)%list.
Proof.
  induction t1 as [|e t1 IH]; [reflexivity|].
  destruct e; simpl; rewrite ?IH; reflexivity.
Qed.

(** X9.  Whatever the event and whatever the services answer, [process] does
    not call the classifier; it asks for one secret at most and sends one
    request at most, which is a GET to the content endpoint. *)
Theorem process_effects sv evt w :
  exists es,
    snd (process sv evt w) = after w es
    /\ detections es = []
    /\ (secrets es = []
        \/ secrets es = [token_resource (Getenv sv "PROJECT_ID")])
    /\ (requests es = []
        \/ exists tok imageID, requests es = [content_request tok imageID]).
Proof.
  unfold process, process_image, getSecret, downloadImage, analyzeImage, client_do,
    http_NewRequest, io_ReadAll, vision_NewImageFromReader.
  unfold bind, log_Printf, emit, wrap, check, Unmarshal_error, ret, fail, lift.
  cbn.
  repeat (case_scrutinee; cbn).
  all: eexists; split; [close_run|]; cbn;
       repeat split; auto;
       right; do 2 eexists; reflexivity.
Qed.

(** [process] up to the download, for an event whose data decodes and a
    secret that is read. *)
Lemma process_run sv evt subMsg procMsg tok w :
  event_DataAs evt = Ok subMsg ->
  Unmarshal_processMessage (equalFold sv) (Data (Message subMsg)) = inl procMsg ->
  secretmanager_NewClient sv = None ->
  secret_AccessSecretVersion sv (token_resource (Getenv sv "PROJECT_ID")) = Ok tok ->
  process sv evt w
  = (image <- downloadImage sv tok (ImageID procMsg) ;;
     process_image sv procMsg image)
      (after w
         [Log "process"; Log ("request: " ++ event_String evt);
          Log ("image ID: " ++ ImageID procMsg);
          Log ("reply token: " ++ pm_ReplyToken procMsg);
          AccessSecret (token_resource (Getenv sv "PROJECT_ID"));
          Log "get secret"]).
Proof.
  intros Hd Hu Hc Hs.
  unfold process. unfold bind at 1 2 3 4 5 6 7 8.
  unfold log_Printf at 1 2 3 4 5, emit, wrap, Unmarshal_error, ret.
  rewrite Hd. cbn. rewrite Hu. cbn.
  rewrite (getSecret_ok _ _ tok _ Hc Hs). cbn.
  unfold after. cbn. rewrite <- !app_assoc. reflexivity.
Qed.

(** X10.  The errors [process] returns name the step that failed.  When the
    event cannot be read or its data is not a ProcessMessage, the secret
    is not asked for; when the secret cannot be read, no request is sent;
    when the HTTP client fails, the error is the one of the client. *)
Theorem process_error_paths sv evt w :
  let r := process sv evt w in
  (forall e,
      event_DataAs evt = Err e ->
      r = (Err ("event.Event.DataAs failed; " ++ e),
           after w [Log "process"; Log ("request: " ++ event_String evt)]))
  /\ (forall subMsg k,
         event_DataAs evt = Ok subMsg ->
         Unmarshal_processMessage (equalFold sv) (Data (Message subMsg)) = inr k ->
         r = (Err ("json.Unmarshal failed; " ++ json_error sv k (Data (Message subMsg))),
              after w [Log "process"; Log ("request: " ++ event_String evt)]))
  /\ (forall subMsg procMsg e,
         event_DataAs evt = Ok subMsg ->
         Unmarshal_processMessage (equalFold sv) (Data (Message subMsg)) = inl procMsg ->
         secretmanager_NewClient sv = None ->
         secret_AccessSecretVersion sv (token_resource (Getenv sv "PROJECT_ID")) = Err e ->
         fst r = Err ("secretmanager.Client.AccessSecretVersion failed; " ++ e)
         /\ requests (trace (snd r)) = requests (trace w))
  /\ (forall subMsg procMsg tok e,
         event_DataAs evt = Ok subMsg ->
         Unmarshal_processMessage (equalFold sv) (Data (Message subMsg)) = inl procMsg ->
         secretmanager_NewClient sv = None ->
         secret_AccessSecretVersion sv (token_resource (Getenv sv "PROJECT_ID")) = Ok tok ->
         new_request_error sv "GET" (URL (content_request tok (ImageID procMsg))) = None ->
         client_Do sv (content_request tok (ImageID procMsg)) = Err e ->
         fst r = Err ("http.DefaultClient.Get failed; " ++ e)
         /\ requests (trace (snd r))
            = (requests (trace w) ++ [content_request tok (ImageID procMsg)])%list).
Proof.
  cbv zeta. split; [|split; [|split]].
  - intros e Hd. unfold process, bind, log_Printf, emit, wrap, fail, lift.
    rewrite Hd. unfold after. cbn. rewrite <- app_assoc. reflexivity.
  - intros subMsg k Hd Hu.
    unfold process, bind, log_Printf, emit, wrap, Unmarshal_error, fail, lift, ret.
    rewrite Hd. cbn. rewrite Hu. unfold after. cbn. rewrite <- app_assoc. reflexivity.
  - intros subMsg procMsg e Hd Hu Hc Hs.
    unfold process, getSecret.
    unfold bind, log_Printf, emit, wrap, check, Unmarshal_error, fail, lift, ret.
    rewrite Hd. cbn. rewrite Hu. cbn. rewrite Hc. cbn.
    fold (token_resource (Getenv sv "PROJECT_ID")). rewrite Hs. cbn.
    split; [reflexivity|]. rewrite !requests_app. cbn. now rewrite !app_nil_r.
  - intros subMsg procMsg tok e Hd Hu Hc Hs Hn Hdo.
    rewrite (process_run _ _ _ _ _ _ Hd Hu Hc Hs). unfold bind.
    rewrite (downloadImage_run _ _ _ _ Hn), Hdo. cbn.
    split; [reflexivity|]. rewrite !requests_app. cbn. now rewrite app_nil_r.
Qed.

Lemma process_error_paths_witness :
  let data := Marshal_processMessage {| ImageID := "img1"; pm_ReplyToken := "r1" |} in
  process (example_services "token" (Err "timeout") []) (event_of "[]") (start [])
  = (Err ("json.Unmarshal failed; " ++ "json: cannot unmarshal"),
     after (start []) [Log "process"; Log ("request: " ++ "event")])
  /\ fst (process (without_secret (example_services "token" (Err "timeout") []))
            (event_of data) (start []))
     = Err ("secretmanager.Client.AccessSecretVersion failed; " ++ "permission denied")
  /\ fst (process (example_services "token" (Err "timeout") []) (event_of data) (start []))
     = Err ("http.DefaultClient.Get failed; " ++ "timeout").
Proof.
  intros data. split; [|split].
  - exact (proj1 (proj2
             (process_error_paths (example_services "token" (Err "timeout") [])
                (event_of "[]") (start [])))
             {| Message := {| Data := "[]" |} |} json.UnmarshalTypeError eq_refl eq_refl).
  - exact (proj1 (proj1 (proj2 (proj2
             (process_error_paths
                (without_secret (example_services "token" (Err "timeout") []))
                (event_of data) (start []))))
             {| Message := {| Data := data |} |}
             {| ImageID := "img1"; pm_ReplyToken := "r1" |}
             "permission denied" eq_refl eq_refl eq_refl eq_refl)).
  - exact (proj1 (proj2 (proj2 (proj2
             (process_error_paths (example_services "token" (Err "timeout") [])
                (event_of data) (start []))))
             {| Message := {| Data := data |} |}
             {| ImageID := "img1"; pm_ReplyToken := "r1" |}
             "token" "timeout" eq_refl eq_refl eq_refl eq_refl eq_refl eq_refl)).
Defined.

(** A ProcessMessage decoded from an object: a field that no member
    selects keeps its value. *)
Lemma store_processMessage_absent fold ms old m :
  store_processMessage fold (json.Object ms) old = Some m ->
  (names_field fold ["ImageID"; "ReplyToken"] 0 ms = false -> ImageID m = ImageID old)
  /\ (names_field fold ["ImageID"; "ReplyToken"] 1 ms = false ->
      pm_ReplyToken m = pm_ReplyToken old).
Proof.
  revert old. induction ms as [|[k v] ms IH]; intros old Hs.
  - cbn in Hs. injection Hs as <-. auto.
  - unfold store_processMessage, json.store_struct in Hs.
    cbn [json.store_members] in Hs.
    unfold names_field. cbn [existsb fst].
    destruct (json.find_field fold ["ImageID"; "ReplyToken"] k) as [[|[|i]]|].
    + destruct (json.store_string v (ImageID old)) as [s|]; [|discriminate Hs].
      cbn [option_map] in Hs. apply IH in Hs. cbn in Hs. destruct Hs as [_ Hl].
      split; [discriminate|]. intros Ha. cbn in Ha. exact (Hl Ha).
    + destruct (json.store_string v (pm_ReplyToken old)) as [s|]; [|discriminate Hs].
      cbn [option_map] in Hs. apply IH in Hs. cbn in Hs. destruct Hs as [Ht _].
      split; [|discriminate]. intros Ha. cbn in Ha. exact (Ht Ha).
    + apply IH in Hs. destruct Hs as [Ht Hl]. split; intros Ha; cbn in Ha; auto.
    + apply IH in Hs. destruct Hs as [Ht Hl]. split; intros Ha; cbn in Ha; auto.
Qed.

(** X11.  [process] does not check the message.  For data that is a JSON object
    in which no member gives the image identifier, decoded without error,
    the image is requested with an empty identifier: from the content URL
    that has nothing between [message/] and [/content]. *)
Theorem process_does_not_validate sv evt subMsg ms procMsg tok b :
  event_DataAs evt = Ok subMsg ->
  json.Valid (Data (Message subMsg)) = Some (json.Object ms) ->
  Unmarshal_processMessage (equalFold sv) (Data (Message subMsg)) = inl procMsg ->
  names_field (equalFold sv) ["ImageID"; "ReplyToken"] 0 ms = false ->
  secretmanager_NewClient sv = None ->
  secret_AccessSecretVersion sv (token_resource (Getenv sv "PROJECT_ID")) = Ok tok ->
  new_request_error sv "GET" "https://api-data.line.me/v2/bot/message//content" = None ->
  ImageID procMsg = EmptyString
  /\ requests (trace (snd (process sv evt (start b))))
     = [{| Method := "GET";
           URL := "https://api-data.line.me/v2/bot/message//content";
           Header := [("Authorization", "Bearer " ++ tok)];
           Body := None |}].
Proof.
  intros Hd Hv Hu Ha Hc Hs Hn.
  assert (Hid : ImageID procMsg = EmptyString).
  { unfold Unmarshal_processMessage, json.Unmarshal in Hu. rewrite Hv in Hu.
    destruct (store_processMessage (equalFold sv) (json.Object ms) zero_processMessage)
      as [m|] eqn:Hst; [|discriminate Hu].
    injection Hu as <-.
    exact (proj1 (store_processMessage_absent _ _ _ _ Hst) Ha). }
  split; [exact Hid|].
  rewrite (process_run _ _ _ _ _ _ Hd Hu Hc Hs). unfold bind. rewrite Hid.
  rewrite (downloadImage_run sv tok EmptyString _ Hn). cbn.
  destruct (client_Do sv (content_request tok EmptyString)); reflexivity.
Qed.

Lemma process_does_not_validate_witness :
  requests
    (trace (snd (process (example_services "token" (Ok jpeg_response) [])
                   (event_of "{}") (start []))))
  = [{| Method := "GET";
        URL := "https://api-data.line.me/v2/bot/message//content";
        Header := [("Authorization", "Bearer " ++ "token")];
        Body := None |}].
Proof.
  exact (proj2
    (process_does_not_validate (example_services "token" (Ok jpeg_response) [])
       (event_of "{}") {| Message := {| Data := "{}" |} |} []
       {| ImageID := EmptyString; pm_ReplyToken := EmptyString |}
       "token" [] eq_refl eq_refl eq_refl eq_refl eq_refl eq_refl eq_refl)).
Defined.

(** ** The helpers: failures *)

Lemma bind_run {A B} (m : M A) (k : A -> M B) w :
  bind m k w
  = match m w with
    | (Ok a, w') => k a w'
    | (Err e, w') => (Err e, w')
    | (Panic, w') => (Panic, w')
    end.
Proof. reflexivity. Qed.

(** X12.  [analyzeImage] returns no labels when the classifier fails: when its
    client cannot be created the classifier is not called, and when the
    call fails its error is returned under the name of the call. *)
Theorem analyzeImage_failures sv imageBytes w e :
  (vision_NewImageAnnotatorClient sv = Some e ->
   analyzeImage sv imageBytes w
   = (Err ("vision.NewImageAnnotatorClient failed; " ++ e), w))
  /\ (vision_NewImageAnnotatorClient sv = None ->
      vision_DetectLabels sv imageBytes 10 = Err e ->
      analyzeImage sv imageBytes w
      = (Err ("vision.ImageAnnotatorClient.DetectLabels failed; " ++ e),
         after w [DetectLabels imageBytes 10])).
Proof.
  split.
  - intros Hc. unfold analyzeImage, bind, check, fail, lift. now rewrite Hc.
  - intros Hc Hd. rewrite (analyzeImage_run _ _ _ Hc). now rewrite Hd.
Qed.

Lemma analyzeImage_failures_witness :
  analyzeImage (without_labels (example_services "token" (Ok ok_response) []))
    "JFIF" (start [])
  = (Err ("vision.ImageAnnotatorClient.DetectLabels failed; " ++ "bad image data"),
     after (start []) [DetectLabels "JFIF" 10]).
Proof.
  exact (proj2
    (analyzeImage_failures (without_labels (example_services "token" (Ok ok_response) []))
       "JFIF" (start []) "bad image data") eq_refl eq_refl).
Defined.

(** ** The rest of [process], after the download *)

(** X13.  The rest of [process] on a downloaded image, when the classifier and
    the broker answer: the classifier is asked once, for 10 labels of the
    image; exactly one message is published, on the topic of the send
    stage, and the broker holds it; the message is the SendMessage with the
    reply token of the ProcessMessage and the descriptions of the labels,
    in the order of the classifier. *)
Theorem process_image_publishes sv procMsg image anns id b :
  vision_NewImageAnnotatorClient sv = None ->
  vision_DetectLabels sv image 10 = Ok anns ->
  pubsub_NewClient sv (Getenv sv "PROJECT_ID") = None ->
  let topic := Getenv sv "WAIT_SEND_TOPIC" in
  let data :=
    Marshal_sendMessage
      {| sm_ReplyToken := pm_ReplyToken procMsg;
         Labels := mk_slice (map Description anns) |} in
  publish_Get sv b topic data = Ok id ->
  let r := process_image sv procMsg image (start b) in
  fst r = Ok tt
  /\ detections (trace (snd r)) = [(image, 10)]
  /\ published (trace (snd r)) = [(topic, data)]
  /\ broker (snd r) = (b ++ [(topic, data)])%list.
Proof.
  intros Hc Hd Hp topic data Hg r. subst r.
  rewrite (process_image_run sv procMsg image anns id (start b) Hc Hd Hp Hg).
  cbn. auto.
Qed.

Lemma process_image_publishes_witness :
  let r :=
    process_image (example_services "token" (Ok jpeg_response) cat_outdoor)
      {| ImageID := "img1"; pm_ReplyToken := "r1" |} "JFIF" (start []) in
  let data :=
    Marshal_sendMessage
      {| sm_ReplyToken := "r1"; Labels := mk_slice ["cat"; "outdoor"] |} in
  fst r = Ok tt
  /\ detections (trace (snd r)) = [("JFIF", 10)]
  /\ published (trace (snd r)) = [("wait-send", data)]
  /\ broker (snd r) = [("wait-send", data)].
Proof.
  exact (process_image_publishes (example_services "token" (Ok jpeg_response) cat_outdoor)
           {| ImageID := "img1"; pm_ReplyToken := "r1" |} "JFIF" cat_outdoor "1" []
           eq_refl eq_refl eq_refl eq_refl).
Defined.

(** X14.  The rest of [process] when a step fails.  The failure of the
    classifier and of the Pub/Sub client are returned before anything is
    handed to the broker.  When the broker refuses the message, the error
    returned has an empty text: the error of the broker is dropped. *)
Theorem process_image_failures sv procMsg image w :
  let r := process_image sv procMsg image w in
  (forall e,
      fst (analyzeImage sv image (after w [Log "download image"])) = Err e ->
      fst r = Err e /\ published (trace (snd r)) = published (trace w))
  /\ (forall anns e,
         vision_NewImageAnnotatorClient sv = None ->
         vision_DetectLabels sv image 10 = Ok anns ->
         pubsub_NewClient sv (Getenv sv "PROJECT_ID") = Some e ->
         fst r = Err ("pubsub.NewClient failed; " ++ e)
         /\ published (trace (snd r)) = published (trace w))
  /\ (forall anns e,
         vision_NewImageAnnotatorClient sv = None ->
         vision_DetectLabels sv image 10 = Ok anns ->
         pubsub_NewClient sv (Getenv sv "PROJECT_ID") = None ->
         let data :=
           Marshal_sendMessage
             {| sm_ReplyToken := pm_ReplyToken procMsg;
                Labels := mk_slice (map Description anns) |} in
         publish_Get sv (broker w) (Getenv sv "WAIT_SEND_TOPIC") data = Err e ->
         fst r = Err EmptyString
         /\ published (trace (snd r))
            = (published (trace w) ++ [(Getenv sv "WAIT_SEND_TOPIC", data)])%list
         /\ broker (snd r) = broker w).
Proof.
  cbv zeta. split; [|split].
  - intros e He. unfold process_image. cbv zeta. rewrite bind_run.
    change (log_Printf "download image" w)
      with (Ok tt, after w [Log "download image"]).
    cbv beta iota. rewrite bind_run.
    destruct (analyzeImage sv image (after w [Log "download image"]))
      as [[labels|e'|] w1] eqn:Hrun; cbn in He; try discriminate He.
    injection He as ->. cbn. split; [reflexivity|].
    destruct (vision_NewImageAnnotatorClient sv) eqn:Hc.
    + unfold analyzeImage, bind, check, fail, lift in Hrun. rewrite Hc in Hrun.
      injection Hrun as _ <-. unfold after. cbn.
      rewrite published_app. cbn. now rewrite app_nil_r.
    + rewrite (analyzeImage_run _ _ _ Hc) in Hrun. injection Hrun as _ <-.
      unfold after. cbn. rewrite !published_app. cbn. now rewrite !app_nil_r.
  - intros anns e Hc Hd Hp.
    unfold process_image, bind, log_Printf, emit, ret.
    rewrite (analyzeImage_run _ _ _ Hc), Hd.
    unfold check, fail, lift. rewrite Hp. cbn. split; [reflexivity|].
    rewrite !published_app. cbn. now rewrite !app_nil_r.
  - intros anns e Hc Hd Hp Hg.
    unfold process_image, bind, log_Printf, emit, ret.
    rewrite (analyzeImage_run _ _ _ Hc), Hd.
    unfold check. rewrite Hp. unfold ret, publish, after. cbn. rewrite Hg. cbn.
    split; [reflexivity|]. split; [|reflexivity].
    rewrite !published_app. cbn. now rewrite !app_nil_r.
Qed.

Lemma process_image_failures_witness :
  let sv := with_full_broker (example_services "token" (Ok jpeg_response) cat_outdoor) 0 in
  let r := process_image sv {| ImageID := "img1"; pm_ReplyToken := "r1" |} "JFIF" (start []) in
  fst r = Err EmptyString
  /\ published (trace (snd r))
     = [("wait-send",
         Marshal_sendMessage
           {| sm_ReplyToken := "r1"; Labels := mk_slice ["cat"; "outdoor"] |})]
  /\ broker (snd r) = [].
Proof.
  intros sv r.
  exact (proj2 (proj2
    (process_image_failures sv {| ImageID := "img1"; pm_ReplyToken := "r1" |}
       "JFIF" (start [])))
    cat_outdoor "deadline exceeded" eq_refl eq_refl eq_refl eq_refl).
Defined.

(** X15.  The SendMessage that the rest of [process] publishes is read by [send]
    as it was built: for a ProcessMessage that was decoded and labels that
    are valid UTF-8, [send] on an event carrying the published data posts
    the reply with the reply token of the ProcessMessage and the labels of
    the classifier joined by newlines. *)
Theorem process_image_then_send sv data procMsg image anns id tok b evt subMsg b' :
  Unmarshal_processMessage (equalFold sv) data = inl procMsg ->
  Forall (fun a => utf8.ValidString (Description a) = true) anns ->
  vision_NewImageAnnotatorClient sv = None ->
  vision_DetectLabels sv image 10 = Ok anns ->
  pubsub_NewClient sv (Getenv sv "PROJECT_ID") = None ->
  let msg :=
    Marshal_sendMessage
      {| sm_ReplyToken := pm_ReplyToken procMsg;
         Labels := mk_slice (map Description anns) |} in
  publish_Get sv b (Getenv sv "WAIT_SEND_TOPIC") msg = Ok id ->
  event_DataAs evt = Ok subMsg ->
  Data (Message subMsg) = msg ->
  secretmanager_NewClient sv = None ->
  secret_AccessSecretVersion sv (token_resource (Getenv sv "PROJECT_ID")) = Ok tok ->
  new_request_error sv "POST" reply_url = None ->
  published (trace (snd (process_image sv procMsg image (start b))))
  = [(Getenv sv "WAIT_SEND_TOPIC", msg)]
  /\ requests (trace (snd (send sv evt (start b'))))
     = [reply_request tok (pm_ReplyToken procMsg) (reply_text (map Description anns))].
Proof.
  intros Hu Hv Hc Hd Hp msg Hg He Hdata Hsc Hs Hn. split.
  - rewrite (process_image_run sv procMsg image anns id (start b) Hc Hd Hp Hg).
    reflexivity.
  - assert (Hdec : Unmarshal_sendMessage (equalFold sv) (Data (Message subMsg))
                   = inl {| sm_ReplyToken := pm_ReplyToken procMsg;
                            Labels := mk_slice (map Description anns) |}).
    { rewrite Hdata. apply Unmarshal_Marshal_sendMessage. split; cbn.
      - exact (proj2 (Unmarshal_processMessage_valid _ _ _ Hu)).
      - clear -Hv. induction Hv; constructor; assumption. }
    rewrite (send_run _ _ _ _ _ _ He Hdec Hsc Hs). unfold bind.
    rewrite (sendReply_run _ _ _ _ _ Hn). cbn.
    destruct (client_Do sv _); reflexivity.
Qed.

Lemma process_image_then_send_witness :
  let sv := example_services "token" (Ok ok_response) cat_outdoor in
  let msg :=
    Marshal_sendMessage
      {| sm_ReplyToken := "r1"; Labels := mk_slice ["cat"; "outdoor"] |} in
  published
    (trace (snd (process_image sv {| ImageID := "img1"; pm_ReplyToken := "r1" |}
                   "JFIF" (start []))))
  = [("wait-send", msg)]
  /\ requests (trace (snd (send sv (event_of msg) (start []))))
     = [reply_request "token" "r1" ("cat" ++ newline ++ "outdoor")].
Proof.
  intros sv msg.
  refine (process_image_then_send sv
            (Marshal_processMessage {| ImageID := "img1"; pm_ReplyToken := "r1" |})
            {| ImageID := "img1"; pm_ReplyToken := "r1" |} "JFIF" cat_outdoor "1" "token"
            [] (event_of msg) {| Message := {| Data := msg |} |} []
            eq_refl _
            eq_refl eq_refl eq_refl eq_refl eq_refl eq_refl eq_refl eq_refl eq_refl).
  repeat constructor.
Defined.

(** ** The earlier version of the functions *)

Lemma earlier_process_publishes_fixed_token_witness :
  let r :=
    earlier.process (example_services "token" (Ok ok_response) [])
      (event_of (Marshal_processMessage {| ImageID := "img1"; pm_ReplyToken := "r1" |}))
      (start []) in
  fst r = Ok tt
  /\ published (trace (snd r))
     = [("wait-send", earlier.Marshal_sendMessage {| earlier.ReplyToken := "dummy" |})].
Proof.
  exact (earlier_process_publishes_fixed_token
           (example_services "token" (Ok ok_response) [])
           (event_of (Marshal_processMessage {| ImageID := "img1"; pm_ReplyToken := "r1" |}))
           {| Message :=
                {| Data := Marshal_processMessage
                             {| ImageID := "img1"; pm_ReplyToken := "r1" |} |} |}
           {| ImageID := "img1"; pm_ReplyToken := "r1" |} "1" []
           eq_refl eq_refl eq_refl eq_refl).
Defined.

(** X17.  When the broker refuses the message, the earlier [process] returns an
    error whose text is empty: the error of the broker is dropped.  The
    message was handed to the broker, which does not hold it.  When the
    Pub/Sub client cannot be created its error is returned and nothing is
    handed to the broker. *)
Theorem earlier_process_failures sv evt subMsg procMsg e b :
  event_DataAs evt = Ok subMsg ->
  Unmarshal_processMessage (equalFold sv) (Data (Message subMsg)) = inl procMsg ->
  let topic := Getenv sv "WAIT_SEND_TOPIC" in
  let data := earlier.Marshal_sendMessage {| earlier.ReplyToken := "dummy" |} in
  let r := earlier.process sv evt (start b) in
  (pubsub_NewClient sv (Getenv sv "PROJECT_ID") = Some e ->
   fst r = Err ("pubsub.NewClient failed; " ++ e)
   /\ published (trace (snd r)) = [])
  /\ (pubsub_NewClient sv (Getenv sv "PROJECT_ID") = None ->
      publish_Get sv b topic data = Err e ->
      fst r = Err EmptyString
      /\ published (trace (snd r)) = [(topic, data)]
      /\ broker (snd r) = b).
Proof.
  intros Hd Hu topic data r. subst r. unfold earlier.process.
  unfold bind, log_Printf, emit, wrap, check, Unmarshal_error, ret, fail, lift, publish.
  rewrite Hd. cbn. rewrite Hu. cbn. split.
  - intros Hc. rewrite Hc. cbn. auto.
  - intros Hc Hp. rewrite Hc. cbn. fold data. fold topic. rewrite Hp. cbn. auto.
Qed.

Lemma earlier_process_failures_witness :
  let sv := with_full_broker (example_services "token" (Ok ok_response) []) 0 in
  let r :=
    earlier.process sv
      (event_of (Marshal_processMessage {| ImageID := "img1"; pm_ReplyToken := "r1" |}))
      (start []) in
  fst r = Err EmptyString
  /\ published (trace (snd r))
     = [("wait-send", earlier.Marshal_sendMessage {| earlier.ReplyToken := "dummy" |})]
  /\ broker (snd r) = [].
Proof.
  intros sv r.
  exact (proj2
    (earlier_process_failures sv
       (event_of (Marshal_processMessage {| ImageID := "img1"; pm_ReplyToken := "r1" |}))
       {| Message :=
            {| Data := Marshal_processMessage
                         {| ImageID := "img1"; pm_ReplyToken := "r1" |} |} |}
       {| ImageID := "img1"; pm_ReplyToken := "r1" |} "deadline exceeded" []
       eq_refl eq_refl) eq_refl eq_refl).
Defined.

(** X18.  The earlier [send] only reads the message: it asks for no secret,
    sends no request and hands nothing to the broker; it ends without
    error exactly when the event is read and its data decodes. *)
Theorem earlier_send_outcome sv evt w :
  exists es,
    snd (earlier.send sv evt w) = after w es
    /\ secrets es = [] /\ requests es = [] /\ published es = []
    /\ (fst (earlier.send sv evt w) = Ok tt
        <-> exists subMsg sendMsg,
              event_DataAs evt = Ok subMsg
              /\ earlier.Unmarshal_sendMessage (equalFold sv) (Data (Message subMsg))
                 = inl sendMsg).
Proof.
  unfold earlier.send.
  unfold bind, log_Printf, emit, wrap, Unmarshal_error, ret, fail, lift.
  cbn.
  destruct (event_DataAs evt) as [subMsg|e|]; cbn.
  - destruct (earlier.Unmarshal_sendMessage (equalFold sv) (Data (Message subMsg)))
      as [m|k] eqn:Hu; cbn.
    + eexists; split; [close_run|]. cbn. repeat split; try reflexivity.
      intros _. exists subMsg, m. now split.
    + eexists; split; [close_run|]. cbn. repeat split; try reflexivity;
        [discriminate|].
      intros (s' & m & Hs & Hm). injection Hs as <-. rewrite Hu in Hm. discriminate Hm.
  - eexists; split; [close_run|]. cbn. repeat split; try reflexivity; [discriminate|].
    intros (s' & m & Hs & _). discriminate Hs.
  - eexists; split; [close_run|]. cbn. repeat split; try reflexivity; [discriminate|].
    intros (s' & m & Hs & _). discriminate Hs.
Qed.

(** X19.  The message of the earlier version is read by the earlier [send] as
    it was written by [json.Marshal]: for a reply token that is valid
    UTF-8, such as the fixed token of the earlier [process], [send] logs
    the token and ends without error. *)
Theorem earlier_send_reads_back sv evt subMsg tok w :
  event_DataAs evt = Ok subMsg ->
  Data (Message subMsg) = earlier.Marshal_sendMessage {| earlier.ReplyToken := tok |} ->
  utf8.ValidString tok = true ->
  earlier.send sv evt w
  = (Ok tt,
     after w [Log "send"; Log ("request: " ++ event_String evt);
              Log ("reply token: " ++ tok)]).
Proof.
  intros Hd Hdata Ht. unfold earlier.send.
  unfold bind, log_Printf, emit, wrap, Unmarshal_error, ret, fail, lift.
  rewrite Hd. cbn. rewrite Hdata.
  rewrite (Unmarshal_Marshal_earlier_sendMessage (equalFold sv)
             {| earlier.ReplyToken := tok |} Ht).
  unfold after. cbn. rewrite <- !app_assoc. reflexivity.
Qed.

Lemma earlier_send_reads_back_witness :
  earlier.send (example_services "token" (Ok ok_response) [])
    (event_of (earlier.Marshal_sendMessage {| earlier.ReplyToken := "dummy" |}))
    (start [])
  = (Ok tt,
     after (start [])
       [Log "send"; Log ("request: " ++ "event"); Log ("reply token: " ++ "dummy")]).
Proof.
  exact (earlier_send_reads_back (example_services "token" (Ok ok_response) [])
           (event_of (earlier.Marshal_sendMessage {| earlier.ReplyToken := "dummy" |}))
           {| Message :=
                {| Data := earlier.Marshal_sendMessage
                             {| earlier.ReplyToken := "dummy" |} |} |}
           "dummy" (start []) eq_refl eq_refl eq_refl).
Defined.

(** X20.  The earlier [downloadImage], which sets the credential in the header
    that [http.NewRequest] made, behaves as the later one: the same request
    is sent and the same result returned, so it does not return the bytes
    of the image either. *)
Theorem earlier_downloadImage_same sv tok imageID w :
  earlier.downloadImage sv tok imageID w = downloadImage sv tok imageID w
  /\ forall bytes w', earlier.downloadImage sv tok imageID w <> (Ok bytes, w').
Proof.
  assert (H : earlier.downloadImage sv tok imageID w = downloadImage sv tok imageID w).
  { unfold earlier.downloadImage, downloadImage, bind, wrap, http_NewRequest.
    destruct (new_request_error sv "GET" _); reflexivity. }
  split; [exact H|]. intros bytes w'. rewrite H. apply downloadImage_not_Ok.
Qed.

(** ** From the receive stage to the process stage *)

(** X21.  The message [receive] publishes for an event of a decoded body is read
    by [process] as it was built: on an event carrying it, [process] asks
    for the content of the image of that event, with the credential. *)
Theorem receive_then_process sv body hook evt pevt subMsg tok b :
  Unmarshal_lineWebHook (equalFold sv) body = inl hook ->
  In evt (elems_of (Events hook)) ->
  event_DataAs pevt = Ok subMsg ->
  Data (Message subMsg) = Marshal_processMessage (message_of evt) ->
  secretmanager_NewClient sv = None ->
  secret_AccessSecretVersion sv (token_resource (Getenv sv "PROJECT_ID")) = Ok tok ->
  new_request_error sv "GET"
    (URL (content_request tok (ID (LineEventMessage evt)))) = None ->
  requests (trace (snd (process sv pevt (start b))))
  = [content_request tok (ID (LineEventMessage evt))].
Proof.
  intros Hu Hin Hd Hdata Hc Hs Hn.
  pose proof (published_message_round_trip (equalFold sv) (equalFold sv) _ _ _ Hu Hin)
    as Hdec.
  rewrite <- Hdata in Hdec.
  rewrite (process_run _ _ _ _ _ _ Hd Hdec Hc Hs). unfold bind.
  cbn [message_of ImageID].
  rewrite (downloadImage_run _ _ _ _ Hn). cbn.
  destruct (client_Do sv _); reflexivity.
Qed.

Lemma receive_then_process_witness :
  requests
    (trace
       (snd (process (example_services "token" (Ok jpeg_response) cat_outdoor)
               (event_of
                  (Marshal_processMessage {| ImageID := "img1"; pm_ReplyToken := "r1" |}))
               (start []))))
  = [content_request "token" "img1"].
Proof.
  refine (receive_then_process (example_services "token" (Ok jpeg_response) cat_outdoor)
            scenario_body
            {| Events := mk_slice
                 [{| ev_ReplyToken := "r1"; LineEventMessage := {| ID := "img1" |} |}] |}
            {| ev_ReplyToken := "r1"; LineEventMessage := {| ID := "img1" |} |}
            (event_of
               (Marshal_processMessage {| ImageID := "img1"; pm_ReplyToken := "r1" |}))
            {| Message :=
                 {| Data := Marshal_processMessage
                              {| ImageID := "img1"; pm_ReplyToken := "r1" |} |} |}
            "token" [] eq_refl _ eq_refl eq_refl eq_refl eq_refl eq_refl).
  left. reflexivity.
Defined.

(** ** The receive stage: a request delivered twice *)

(** X23.  [receive] keeps no record of what it has published: when the same
    request is delivered again, to a broker that holds the messages of the
    first delivery, every message is published again, after the first
    ones, and the answer is 200 again. *)
Theorem receive_again_publishes_again sv r body hook b :
  in_Body r = Ok body ->
  Unmarshal_lineWebHook (equalFold sv) body = inl hook ->
  pubsub_NewClient sv (Getenv sv "PROJECT_ID") = None ->
  (forall st data,
      exists id, publish_Get sv st (Getenv sv "WAIT_PROCESS_TOPIC") data = Ok id) ->
  let msgs := messages_for (Getenv sv "WAIT_PROCESS_TOPIC") (elems_of (Events hook)) in
  let w1 := snd (receive sv r (start b)) in
  let w2 := snd (receive sv r (start (broker w1))) in
  broker w2 = (b ++ msgs ++ msgs)%list
  /\ published (trace w2) = msgs
  /\ response (trace w2) = [WriteHeader StatusOK; Write "receive"].
Proof.
  intros Hb Hu Hc Hack msgs w1 w2.
  destruct (receive_acked sv r body hook b Hb Hu Hc Hack) as (_ & Hb1 & _).
  destruct (receive_acked sv r body hook (broker w1) Hb Hu Hc Hack) as (Hp2 & Hb2 & Hr2).
  fold w1 in Hb1. cbv zeta in Hb2. fold w1 in Hb2. fold w2 in Hb2, Hp2, Hr2.
  fold msgs in Hb1, Hb2, Hp2.
  rewrite Hb2, Hb1, <- app_assoc. auto.
Qed.

Lemma receive_again_publishes_again_witness :
  let sv := example_services "token" (Ok ok_response) [] in
  let msg :=
    ("wait-process",
     Marshal_processMessage {| ImageID := "img1"; pm_ReplyToken := "r1" |}) in
  let w1 := snd (receive sv (request_with scenario_body) (start [])) in
  let w2 := snd (receive sv (request_with scenario_body) (start (broker w1))) in
  broker w2 = [msg; msg]
  /\ published (trace w2) = [msg]
  /\ response (trace w2) = [WriteHeader StatusOK; Write "receive"].
Proof.
  exact (receive_again_publishes_again (example_services "token" (Ok ok_response) [])
           (request_with scenario_body) scenario_body
           {| Events := mk_slice
                [{| ev_ReplyToken := "r1"; LineEventMessage := {| ID := "img1" |} |}] |}
           [] eq_refl eq_refl eq_refl (fun _ _ => ex_intro _ "1" eq_refl)).
Defined.
